(** * The workflow engine of the workflow plugin ([PluginWorkflowServer])

    A shallow embedding of the engine class: its in-memory queues
    ([events], [pending]), the mutual-exclusion slot [executing], the
    [beforeSave] hook of the [workflows] collection and the methods
    [toggle], [trigger], [triggerSync], [resume], [start],
    [createExecution], [prepare], [dispatch], [process] and
    [handleSyncMessage]; and, from the authentication plugin, the
    [getPublicOptions] of the password authenticator (module [Auth]).

    JavaScript runs one piece of code at a time and an [async] function
    gives up control only at an [await].  Every method is therefore cut at
    its [await]s: the code between two of them is a function on the state
    of the world, and a suspended call is a [Task] that records where it
    stopped.  The environment (storage, triggers, the Processor, callers of
    the public methods) chooses which task resumes and with what outcome.

    What the embedding takes for granted:
    - a call into a collaborator (storage, a trigger, the Processor) does
      not call back into the engine before it first suspends;
    - [createExecution] touches only storage and the log, under a
      transaction, and is taken as one step; so is a save of a workflow
      with its hooks;
    - model instances are values: an instance held in a queue keeps the
      fields it had when it was queued;
    - loggers never throw. *)

From stdpp Require Import gmap strings list.
From Stdlib Require Import ZArith.

Open Scope Z_scope.

(** ** Values *)

(** An execution status is a JavaScript [number | null]. *)
Definition Status : Type := option Z.

(** JavaScript truthiness of a status: [null] and [0] are falsy. *)
Definition truthy (s : Status) : bool :=
  match s with
  | Some z => negb (z =? 0)
  | None => false
  end.

Definition status_eqb (a b : Status) : bool := bool_decide (a = b).

(** [Array.prototype.includes] on a list of statuses. *)
Definition includes (l : list Status) (s : Status) : bool :=
  existsb (status_eqb s) l.

(** The [context] argument of an event: [null], [undefined] or data. *)
Inductive Context : Type :=
| CtxNull
| CtxUndefined
| CtxData (payload : Z).

(** [context == null] (loose equality: [null] or [undefined]). *)
Definition is_nullish (c : Context) : bool :=
  match c with
  | CtxData _ => false
  | _ => true
  end.

(** A storage transaction; [tx_sequelize] identifies the connection
    ([transaction.sequelize]) it was opened on. *)
Record Transaction : Type := mkTransaction {
  tx_id : nat;
  tx_sequelize : nat
}.

#[global] Instance Transaction_eq_dec : EqDecision Transaction.
Proof. solve_decision. Defined.

Inductive Dialect : Type := sqlite | postgres | mysql.

#[global] Instance Dialect_eq_dec : EqDecision Dialect.
Proof. solve_decision. Defined.

(** ** Models *)

Record WorkflowOptions : Type := mkWorkflowOptions {
  deleteExecutionOnStatus : option (list Status)
}.

(** A [WorkflowModel] instance (and, in a table, a row of [workflows]).
    [wf_previous_config] is [workflow.previous().config]: the configuration
    before the pending change, when it changed. *)
Record Workflow : Type := mkWorkflow {
  wf_id : Z;
  wf_key : string;
  wf_type : string;
  wf_config : Z;
  wf_previous_config : option Z;
  wf_enabled : bool;
  wf_current : option bool;
  wf_sync : bool;
  wf_options : option WorkflowOptions;
  wf_executed : Z;
  wf_allExecuted : Z
}.

(** An [ExecutionModel] instance; [ex_workflow] is the appended relation,
    absent when the instance was loaded without it. *)
Record Execution : Type := mkExecution {
  ex_id : Z;
  ex_workflowId : Z;
  ex_key : string;
  ex_eventKey : string;
  ex_context : Context;
  ex_status : Status;
  ex_workflow : option Workflow
}.

Record Job : Type := mkJob {
  job_id : Z;
  job_executionId : Z;
  job_execution : option Execution
}.

(** [EventOptions]: absent booleans read as [false]. *)
Record EventOptions : Type := mkEventOptions {
  eventKey : option string;
  deferred : bool;
  manually : bool;
  transaction : option Transaction
}.

Definition Pending : Type := (Execution * option Job)%type.
Definition CachedEvent : Type := (Workflow * Context * EventOptions)%type.

(** A registered trigger: only its [sync] property is data, its methods
    are calls to the environment. *)
Record Trigger : Type := mkTrigger {
  trig_sync : option bool
}.

Definition set_status (s : Status) (e : Execution) : Execution :=
  mkExecution (ex_id e) (ex_workflowId e) (ex_key e) (ex_eventKey e)
    (ex_context e) s (ex_workflow e).

Definition set_workflow (w : Workflow) (e : Execution) : Execution :=
  mkExecution (ex_id e) (ex_workflowId e) (ex_key e) (ex_eventKey e)
    (ex_context e) (ex_status e) (Some w).

(** ** Errors and results *)

Inductive Error : Type :=
| TypeError            (* property access on [null] / [undefined] *)
| InvalidTriggerType   (* thrown by [isWorkflowSync] *)
| Rejected.            (* an awaited call of the environment failed *)

Inductive Result (A : Type) : Type :=
| Ok (a : A)
| Err (e : Error).
Arguments Ok {A} a.
Arguments Err {A} e.

(** ** What the engine tells the outside *)

Inductive Level : Type := warn | info | debug | error.

Inductive Message : Type :=
| app_not_ready_event_ignored (workflow : Z)
| ignored_event_data (c : Context)
| workflow_not_enabled (workflow : Z)
| context_is_null (workflow : Z)
| new_event_triggered (n : nat)
| event_data (c : Context)
| creating_execution_failed (workflow : Z)
| execution_error (execution : Z)
| resuming_added_to_pending (execution job : Z)
| execution_created (workflow execution : Z)
| events_queue_is_empty
| preparing_execution (workflow : Z)
| failed_to_create_execution (workflow : Z)
| dispatch_app_not_ready
| dispatch_not_finished
| pending_ready (execution : Z)
| fetched_from_db (execution : Z)
| execution_starting (execution : Z) (resuming : bool)
| execution_finished (execution : Z) (s : Status)
| trigger_not_implemented (workflow : Z).

(** [getLogger(workflowId)]: the logger of a workflow, or the one named
    ['dispatcher']. *)
Inductive LoggerName : Type :=
| of_workflow (id : Z)
| dispatcher_logger.

Coercion of_workflow : Z >-> LoggerName.

Definition LogEntry : Type := (Level * LoggerName * Message)%type.

(** Calls to trigger implementations and the message bus. *)
Inductive Effect : Type :=
| TriggerOn (workflow : Z) (config : Z)
| TriggerOff (workflow : Z) (config : Z)
| SyncMessage (workflow : Z) (enabled : bool) (t : option Transaction).

(** Calls to storage, with the transaction they were given. *)
Inductive DbCall : Type :=
| Begin (t : Transaction)
| Commit (t : Transaction)
| Rollback (t : Transaction)
| ValidateEvent (workflow : Z) (t : option Transaction) (valid : bool)
| CreateExecution (workflow : Z) (s : Status) (t : option Transaction)
| Increment (workflow : Z) (t : option Transaction)
| Reload (workflow : Z) (t : option Transaction)
| UpdateAllExecuted (key : string) (n : Z) (t : option Transaction)
| UpdateStatus (execution : Z) (s : Status) (t : option Transaction)
| Destroy (execution : Z)
| FindPrevious (key : string) (id : Z) (t : option Transaction)
| DemoteWorkflow (workflow : Z) (t : option Transaction)
| FindQueueing.

(** ** Suspended calls *)

(** Who awaits a [process] call: the dispatcher's in-flight operation (the
    promise stored in [executing], named by a number) or the caller of a
    synchronous [trigger]. *)
Inductive Owner : Type :=
| ByDispatcher (p : nat)
| ByCaller.

#[global] Instance Owner_eq_dec : EqDecision Owner.
Proof. solve_decision. Defined.

(** How a call ended, as seen by whoever holds its promise. *)
Inductive Settlement : Type :=
| DispatchSettled (p : nat) (fulfilled : bool)
| ProcessSettled (o : Owner) (execution : Z) (fulfilled : bool)
| TriggerSyncReturnedNull (workflow : Z)
| TriggerSyncRejected (workflow : Z)
| ResumeRejected (job : Z)
| PrepareRejected.

(** One constructor per [await] of the engine. *)
Inductive Task : Type :=
| PrepareTimer
    (* [setTimeout(this.prepare)] has not fired yet *)
| PrepareAwaitExecuting (p : nat)
    (* [prepare]: [await this.executing] *)
| PrepareCreating (ev : CachedEvent)
    (* [prepare]: [await this.createExecution(...event)] *)
| SyncCreating (wf : Workflow) (c : Context) (o : EventOptions)
    (* [triggerSync]: [await this.createExecution(...)] *)
| DispatchPolling (p : nat)
    (* [dispatch]: [await ...findOne(...)] *)
| ProcessUpdating (o : Owner) (e : Execution) (j : option Job)
    (* [process]: [await execution.update({ status: STARTED })] *)
| ProcessRunning (o : Owner) (e : Execution) (j : option Job)
    (* [process]: [await processor.start()] or [processor.resume(job)] *)
| ProcessDestroying (o : Owner) (e : Execution)
    (* [process]: [await execution.destroy()] *)
| ResumeLoading (j : Job)
    (* [resume]: [await job.getExecution()] *)
| StartLoading
    (* [afterStart]: [await collection.repository.find(...)] *)
| StopWaiting
    (* [beforeStop]: awaiting [prepare] and [executing] *)
| MessageLoading (cached : option Workflow) (workflowId : Z).
    (* [handleSyncMessage]: [await workflow.reload()] of the cached
       instance, or [await ...findOne({ filterByTk })] when none is cached *)

(** ** State *)

(** The fields of the plugin object. [executing] holds the number of the
    in-flight promise; [checker] tells whether the interval is running. *)
Record Engine : Type := mkEngine {
  triggers : gmap string Trigger;
  enabledCache : gmap Z Workflow;
  ready : bool;
  executing : option nat;
  pending : list Pending;
  events : list CachedEvent;
  eventsCount : nat;
  checker : bool
}.

(** Storage: the two tables, the identity of the main data source's
    connection ([None]: the data source has no database), and a record of
    the calls made. *)
Record Database : Type := mkDatabase {
  db_dialect : Dialect;
  db_sequelize : option nat;
  db_workflows : list Workflow;
  db_executions : list Execution;
  db_next_id : Z;
  db_next_tx : nat;
  db_calls : list DbCall
}.

Record World : Type := mkWorld {
  eng : Engine;
  db : Database;
  tasks : list Task;
  log : list LogEntry;
  effects : list Effect;
  settled : list Settlement;
  next_promise : nat
}.

(** *** Field updates *)

Definition with_enabledCache (f : gmap Z Workflow -> gmap Z Workflow) (e : Engine) : Engine :=
  mkEngine (triggers e) (f (enabledCache e)) (ready e) (executing e)
    (pending e) (events e) (eventsCount e) (checker e).

Definition with_ready (b : bool) (e : Engine) : Engine :=
  mkEngine (triggers e) (enabledCache e) b (executing e)
    (pending e) (events e) (eventsCount e) (checker e).

Definition with_executing (x : option nat) (e : Engine) : Engine :=
  mkEngine (triggers e) (enabledCache e) (ready e) x
    (pending e) (events e) (eventsCount e) (checker e).

Definition with_pending (l : list Pending) (e : Engine) : Engine :=
  mkEngine (triggers e) (enabledCache e) (ready e) (executing e)
    l (events e) (eventsCount e) (checker e).

Definition with_events (l : list CachedEvent) (e : Engine) : Engine :=
  mkEngine (triggers e) (enabledCache e) (ready e) (executing e)
    (pending e) l (eventsCount e) (checker e).

Definition with_eventsCount (n : nat) (e : Engine) : Engine :=
  mkEngine (triggers e) (enabledCache e) (ready e) (executing e)
    (pending e) (events e) n (checker e).

Definition with_checker (b : bool) (e : Engine) : Engine :=
  mkEngine (triggers e) (enabledCache e) (ready e) (executing e)
    (pending e) (events e) (eventsCount e) b.

Definition with_workflows (l : list Workflow) (d : Database) : Database :=
  mkDatabase (db_dialect d) (db_sequelize d) l (db_executions d)
    (db_next_id d) (db_next_tx d) (db_calls d).

Definition with_executions (l : list Execution) (d : Database) : Database :=
  mkDatabase (db_dialect d) (db_sequelize d) (db_workflows d) l
    (db_next_id d) (db_next_tx d) (db_calls d).

Definition with_next_id (n : Z) (d : Database) : Database :=
  mkDatabase (db_dialect d) (db_sequelize d) (db_workflows d) (db_executions d)
    n (db_next_tx d) (db_calls d).

Definition with_next_tx (n : nat) (d : Database) : Database :=
  mkDatabase (db_dialect d) (db_sequelize d) (db_workflows d) (db_executions d)
    (db_next_id d) n (db_calls d).

Definition call (c : DbCall) (d : Database) : Database :=
  mkDatabase (db_dialect d) (db_sequelize d) (db_workflows d) (db_executions d)
    (db_next_id d) (db_next_tx d) (db_calls d ++ [c]).

Definition on_eng (f : Engine -> Engine) (w : World) : World :=
  mkWorld (f (eng w)) (db w) (tasks w) (log w) (effects w) (settled w) (next_promise w).

Definition on_db (f : Database -> Database) (w : World) : World :=
  mkWorld (eng w) (f (db w)) (tasks w) (log w) (effects w) (settled w) (next_promise w).

Definition with_tasks (l : list Task) (w : World) : World :=
  mkWorld (eng w) (db w) l (log w) (effects w) (settled w) (next_promise w).

(** A call reached an [await]: its frame joins the suspended tasks. *)
Definition suspend (t : Task) (w : World) : World :=
  with_tasks (tasks w ++ [t]) w.

Definition logger (l : Level) (name : LoggerName) (m : Message) (w : World) : World :=
  mkWorld (eng w) (db w) (tasks w) (log w ++ [(l, name, m)]) (effects w)
    (settled w) (next_promise w).

Definition effect (x : Effect) (w : World) : World :=
  mkWorld (eng w) (db w) (tasks w) (log w) (effects w ++ [x]) (settled w)
    (next_promise w).

Definition settle (x : Settlement) (w : World) : World :=
  mkWorld (eng w) (db w) (tasks w) (log w) (effects w) (settled w ++ [x])
    (next_promise w).

Definition fresh_promise (w : World) : World :=
  mkWorld (eng w) (db w) (tasks w) (log w) (effects w) (settled w)
    (S (next_promise w)).

(** ** Code that can throw *)

(** A piece of code that runs without giving up control: it changes the
    world and returns or throws. *)
Definition M (A : Type) : Type := World -> Result A * World.

Definition ret {A : Type} (a : A) : M A := fun w => (Ok a, w).

Definition bind {A B : Type} (m : M A) (f : A -> M B) : M B := fun w =>
  match m w with
  | (Ok a, w') => f a w'
  | (Err e, w') => (Err e, w')
  end.

Notation "'let*' x ':=' m 'in' k" := (bind m (fun x => k))
  (at level 10, x name, m at level 100, k at level 200).
Notation "m ';;' k" := (bind m (fun _ => k))
  (at level 100, k at level 200, right associativity).

Definition throw {A : Type} (e : Error) : M A := fun w => (Err e, w).

(** [try { body } catch (err) { handler }] *)
Definition try_catch {A : Type} (body : M A) (handler : Error -> M A) : M A :=
  fun w =>
    match body w with
    | (Ok a, w') => (Ok a, w')
    | (Err e, w') => handler e w'
    end.

Definition act (f : World -> World) : M unit := fun w => (Ok tt, f w).

Definition when (b : bool) (m : M unit) : M unit := if b then m else ret tt.

(** What the environment answers to the calls [createExecution] makes. *)
Record Oracle : Type := mkOracle {
  transaction_ok : bool;
  validateEvent_result : Result bool;
  randomUUID : string;
  createExecution_ok : bool;
  rollback_ok : bool;
  increment_ok : bool;
  reload_ok : bool;
  update_ok : bool;
  commit_ok : bool
}.

(** An awaited storage call: recorded, then it resolves or rejects. *)
Definition storage (c : DbCall) (ok : bool) : M unit := fun w =>
  (if ok then Ok tt else Err Rejected, on_db (call c) w).

(** ** Tables *)

Definition has_id (id : Z) (r : Workflow) : bool := wf_id r =? id.
Definition has_key (k : string) (r : Workflow) : bool := bool_decide (wf_key r = k).
Definition is_current (r : Workflow) : bool := bool_decide (wf_current r = Some true).
Definition is_execution (id : Z) (r : Execution) : bool := ex_id r =? id.

Definition find_workflow (id : Z) (l : list Workflow) : option Workflow :=
  List.find (has_id id) l.

Definition find_execution (id : Z) (l : list Execution) : option Execution :=
  List.find (is_execution id) l.

(** [UPDATE ... WHERE p] *)
Definition update_where {A : Type} (p : A -> bool) (f : A -> A) (l : list A) : list A :=
  map (fun r => if p r then f r else r) l.

(** [DELETE ... WHERE p] *)
Definition delete_where {A : Type} (p : A -> bool) (l : list A) : list A :=
  List.filter (fun r => negb (p r)) l.

Definition set_counters (executed allExecuted : Z) (r : Workflow) : Workflow :=
  mkWorkflow (wf_id r) (wf_key r) (wf_type r) (wf_config r) (wf_previous_config r)
    (wf_enabled r) (wf_current r) (wf_sync r) (wf_options r) executed allExecuted.

Definition set_current (c : option bool) (r : Workflow) : Workflow :=
  mkWorkflow (wf_id r) (wf_key r) (wf_type r) (wf_config r) (wf_previous_config r)
    (wf_enabled r) c (wf_sync r) (wf_options r) (wf_executed r) (wf_allExecuted r).

(** [{ enabled: false, current: null }] *)
Definition demote (r : Workflow) : Workflow :=
  mkWorkflow (wf_id r) (wf_key r) (wf_type r) (wf_config r) (wf_previous_config r)
    false None (wf_sync r) (wf_options r) (wf_executed r) (wf_allExecuted r).

(** The tables of [old] with the bookkeeping of [new]: what is left of a
    transaction that was opened and never committed. *)
Definition discard_writes (old new : Database) : Database :=
  with_executions (db_executions old) (with_workflows (db_workflows old) new).

(** ** [useDataSourceTransaction] and [createExecution] *)

Definition useDataSourceTransaction (orc : Oracle) (t : option Transaction)
    (create : bool) : M (option Transaction) := fun w =>
  match db_sequelize (db w) with
  | None => (Ok None, w)
  | Some s =>
    if bool_decide (tx_sequelize <$> t = Some s) then (Ok t, w)
    else if create then
      let t' := mkTransaction (db_next_tx (db w)) s in
      (if transaction_ok orc then Ok (Some t') else Err Rejected,
       on_db (fun d => call (Begin t') (with_next_tx (S (db_next_tx d)) d)) w)
    else (Ok None, w)
  end.

(** [transaction.commit()] / [transaction.rollback()]; the transaction is
    [undefined] when the data source has no database. *)
Definition commit (orc : Oracle) (t : option Transaction) : M unit :=
  match t with
  | Some t => storage (Commit t) (commit_ok orc)
  | None => throw TypeError
  end.

Definition rollback (orc : Oracle) (t : option Transaction) : M unit :=
  match t with
  | Some t => storage (Rollback t) (rollback_ok orc)
  | None => throw TypeError
  end.

Definition validateEvent (orc : Oracle) (workflow : Workflow)
    (t : option Transaction) : M bool := fun w =>
  match validateEvent_result orc with
  | Ok v => (Ok v, on_db (call (ValidateEvent (wf_id workflow) t v)) w)
  | Err e => (Err e, w)
  end.

(** [workflow.createExecution(values, { transaction })] *)
Definition insert_execution (orc : Oracle) (workflow : Workflow) (c : Context)
    (key : string) (eventKey : string) (s : Status) (t : option Transaction)
    : M Execution :=
  storage (CreateExecution (wf_id workflow) s t) (createExecution_ok orc) ;;
  fun w =>
  let e := mkExecution (db_next_id (db w)) (wf_id workflow) key eventKey c s None in
  (Ok e, on_db (fun d => with_next_id (db_next_id d + 1)
                           (with_executions (db_executions d ++ [e]) d)) w).

(** [workflow.increment(['executed', 'allExecuted'], { transaction })]: the
    row is incremented; on postgres the instance receives the new values. *)
Definition increment (orc : Oracle) (workflow : Workflow) (t : option Transaction)
    : M Workflow :=
  storage (Increment (wf_id workflow) t) (increment_ok orc) ;;
  fun w =>
  let bump r := set_counters (wf_executed r + 1) (wf_allExecuted r + 1) r in
  let w' := on_db (fun d => with_workflows
                      (update_where (has_id (wf_id workflow)) bump (db_workflows d)) d) w in
  let instance :=
    match db_dialect (db w), find_workflow (wf_id workflow) (db_workflows (db w')) with
    | postgres, Some r => set_counters (wf_executed r) (wf_allExecuted r) workflow
    | _, _ => workflow
    end in
  (Ok instance, w').

(** [workflow.reload({ transaction })] *)
Definition reload (orc : Oracle) (workflow : Workflow) (t : option Transaction)
    : M Workflow :=
  storage (Reload (wf_id workflow) t) (reload_ok orc) ;;
  fun w =>
  match find_workflow (wf_id workflow) (db_workflows (db w)) with
  | Some r => (Ok r, w)
  | None => (Err Rejected, w)
  end.

(** [Model.update({ allExecuted }, { where: { key }, transaction })] *)
Definition update_allExecuted (orc : Oracle) (workflow : Workflow)
    (t : option Transaction) : M unit :=
  storage (UpdateAllExecuted (wf_key workflow) (wf_allExecuted workflow) t)
    (update_ok orc) ;;
  act (on_db (fun d => with_workflows
         (update_where (has_key (wf_key workflow))
            (fun r => set_counters (wf_executed r) (wf_allExecuted workflow) r)
            (db_workflows d)) d)).

(** Writes made under a transaction opened here become visible only if
    the code reaches its successful [commit]; every path that returns has
    committed, every path that throws has not. *)
Definition in_transaction {A : Type} (own : bool) (body : M A) : M A := fun w =>
  match body w with
  | (Ok a, w') => (Ok a, w')
  | (Err e, w') => (Err e, if own then on_db (discard_writes (db w)) w' else w')
  end.

(** * The authentication plugin ([PluginAuthServer])

    The one piece of logic of its [load]: [getPublicOptions] of the
    password authenticator, which prepares the sign-up form that is shown
    to a visitor. *)

Module Auth.

(** A value inside a UI schema. *)
Inductive Json : Type :=
| JBool (b : bool)
| JNumber (z : Z)
| JString (s : string).

Definition UiSchema : Type := gmap string Json.

(** An entry of [options.public.signupForm]. *)
Record SignupItem : Type := mkSignupItem {
  field : string;
  show : bool;
  required : bool
}.

(** A field of the [users] collection; [field_uiSchema] is
    [field.options?.uiSchema], absent when either is. *)
Record Field : Type := mkField {
  field_uiSchema : option UiSchema
}.

(** An entry of the form handed to the client: the item, with the UI
    schema of its field. *)
Record FormItem : Type := mkFormItem {
  item : SignupItem;
  uiSchema : UiSchema
}.

(** [['username', 'email'].includes(item.field) && item.show && item.required] *)
Definition identifies (i : SignupItem) : bool :=
  (bool_decide (field i = "username"%string) || bool_decide (field i = "email"%string))
  && show i && required i.

(** The form after the filters and the [unshift], before the fields are
    looked up. *)
Definition shown_items (signupForm : option (list SignupItem)) : list SignupItem :=
  let signupForm := default [] signupForm in
  let signupForm := List.filter show signupForm in
  let signupForm :=
    if negb (negb (bool_decide (length signupForm = 0%nat))
             && existsb identifies signupForm)
    then mkSignupItem "username" true true :: signupForm
    else signupForm in
  List.filter show signupForm.

(** The callback of [map]: [usersCollection.getField(item.field)] is
    [undefined] for a name the collection does not have, and reading
    [options] of it throws. *)
Definition with_uiSchema (usersCollection : gmap string Field) (i : SignupItem)
    : Result FormItem :=
  match usersCollection !! field i with
  | None => Err TypeError
  | Some f =>
    Ok (mkFormItem i (<["required"%string := JBool (required i)]>
                        (default ∅ (field_uiSchema f))))
  end.

(** [Array.prototype.map] with a callback that can throw. *)
Fixpoint map_result {A B : Type} (f : A -> Result B) (l : list A) : Result (list B) :=
  match l with
  | [] => Ok []
  | x :: l =>
    match f x with
    | Err e => Err e
    | Ok y =>
      match map_result f l with
      | Err e => Err e
      | Ok ys => Ok (y :: ys)
      end
    end
  end.

(** The [signupForm] of the object [getPublicOptions] returns; the other
    entries of [options.public] are passed on as they are. *)
Definition getPublicOptions (usersCollection : gmap string Field)
    (signupForm : option (list SignupItem)) : Result (list FormItem) :=
  map_result (with_uiSchema usersCollection) (shown_items signupForm).

End Auth.

(** * The workflow engine, continued *)

Section Engine.

(** [EXECUTION_STATUS.QUEUEING] and [EXECUTION_STATUS.STARTED]: the module
    of constants is not part of the sources at hand, so the two values the
    engine names are parameters. *)
Variables QUEUEING STARTED : Status.

Definition createExecution (orc : Oracle) (workflow : Workflow) (context : Context)
    (options : EventOptions) : M (option Execution) :=
  let* transaction' := useDataSourceTransaction orc (transaction options) true in
  let sameTransaction := bool_decide (transaction options = transaction') in
  in_transaction (bool_decide (is_Some transaction') && negb sameTransaction) (fun w =>
    match triggers (eng w) !! wf_type workflow with
    | None => throw TypeError w
    | Some _ =>
      (let* valid := validateEvent orc workflow transaction' in
       if negb valid then
         when (negb sameTransaction) (commit orc transaction') ;;
         ret None
       else
         let* execution :=
           try_catch
             (insert_execution orc workflow context (wf_key workflow)
                (default (randomUUID orc) (eventKey options))
                (if deferred options then STARTED else QUEUEING) transaction')
             (fun err =>
                when (negb sameTransaction) (rollback orc transaction') ;;
                throw err) in
         act (logger info (wf_id workflow)
                (execution_created (wf_id workflow) (ex_id execution))) ;;
         let* workflow := increment orc workflow transaction' in
         let* workflow :=
           (fun w => (if bool_decide (db_dialect (db w) = postgres)
                      then ret workflow
                      else reload orc workflow transaction') w) in
         update_allExecuted orc workflow transaction' ;;
         when (negb sameTransaction) (commit orc transaction') ;;
         ret (Some (set_workflow workflow execution))) w
    end).

(** ** [toggle] *)

Definition toggle (workflow : Workflow) (enable : option bool) (silent : bool)
    (t : option Transaction) (w : World) : World :=
  match triggers (eng w) !! wf_type workflow with
  | None =>
    logger error (wf_id workflow) (trigger_not_implemented (wf_id workflow)) w
  | Some _ =>
    let next := default (wf_enabled workflow) enable in
    let w :=
      if next then
        let w :=
          match wf_previous_config workflow with
          | Some c => effect (TriggerOff (wf_id workflow) c) w
          | None => w
          end in
        let w := effect (TriggerOn (wf_id workflow) (wf_config workflow)) w in
        on_eng (with_enabledCache (insert (wf_id workflow) workflow)) w
      else
        let w := effect (TriggerOff (wf_id workflow) (wf_config workflow)) w in
        on_eng (with_enabledCache (delete (wf_id workflow))) w in
    if silent then w else effect (SyncMessage (wf_id workflow) next t) w
  end.

(** ** [prepare], [process], [dispatch] up to their first [await] *)

(** [prepare] from [this.events.shift()] on. *)
Definition prepare_shift (w : World) : World :=
  match events (eng w) with
  | [] =>
    let w := on_eng (with_eventsCount 0%nat) w in
    logger warn dispatcher_logger events_queue_is_empty w
  | event :: rest =>
    let w := on_eng (with_events rest) w in
    let w := on_eng (with_eventsCount (length rest)) w in
    let w := logger info (wf_id event.1.1) (preparing_execution (wf_id event.1.1)) w in
    suspend (PrepareCreating event) w
  end.

Definition prepare (w : World) : World :=
  match executing (eng w) with
  | Some p =>
    if bool_decide (db_dialect (db w) = sqlite)
    then suspend (PrepareAwaitExecuting p) w
    else prepare_shift w
  | None => prepare_shift w
  end.

(** [process] from [const logger = ...] to [await processor.start()]. *)
Definition process_start (o : Owner) (execution : Execution) (job : option Job)
    (w : World) : World :=
  let w := logger info (ex_workflowId execution)
             (execution_starting (ex_id execution) (bool_decide (is_Some job))) w in
  suspend (ProcessRunning o execution job) w.

Definition process (o : Owner) (execution : Execution) (job : option Job)
    (t : option Transaction) (w : World) : World :=
  if status_eqb (ex_status execution) QUEUEING then
    let w := on_db (call (UpdateStatus (ex_id execution) STARTED t)) w in
    suspend (ProcessUpdating o execution job) w
  else process_start o execution job w.

Definition dispatch (w : World) : World :=
  if negb (ready (eng w)) then
    logger warn dispatcher_logger dispatch_app_not_ready w
  else if bool_decide (is_Some (executing (eng w))) then
    logger warn dispatcher_logger dispatch_not_finished w
  else if negb (bool_decide (length (events (eng w)) = 0%nat)) then
    prepare w
  else
    let p := next_promise w in
    let w := fresh_promise w in
    let w :=
      match pending (eng w) with
      | next :: rest =>
        let w := on_eng (with_pending rest) w in
        let w := logger info (ex_workflowId next.1) (pending_ready (ex_id next.1)) w in
        process (ByDispatcher p) next.1 next.2 None w
      | [] =>
        let w := on_db (call FindQueueing) w in
        suspend (DispatchPolling p) w
      end in
    on_eng (with_executing (Some p)) w.

(** The [finally] block of the in-flight operation. *)
Definition dispatch_finally (p : nat) (next : bool) (fulfilled : bool)
    (w : World) : World :=
  let w := settle (DispatchSettled p fulfilled) w in
  let w := on_eng (with_executing None) w in
  if next then dispatch w else w.

(** [process] returns its processor / throws, to whoever awaits it. *)
Definition process_settled (o : Owner) (execution : Execution) (fulfilled : bool)
    (w : World) : World :=
  let w := settle (ProcessSettled o (ex_id execution) fulfilled) w in
  match o with
  | ByDispatcher p => dispatch_finally p true fulfilled w
  | ByCaller => w
  end.

(** ** [process] after its [await]s *)

(** The test guarding [execution.destroy()]:
    [execution.status &&
     execution.workflow.options?.deleteExecutionOnStatus?.includes(execution.status)].
    Reading [options] of an absent workflow throws. *)
Definition should_destroy (execution : Execution) : Result bool :=
  if truthy (ex_status execution) then
    match ex_workflow execution with
    | None => Err TypeError
    | Some workflow =>
      Ok (match wf_options workflow with
          | Some options =>
            match deleteExecutionOnStatus options with
            | Some statuses => includes statuses (ex_status execution)
            | None => false
            end
          | None => false
          end)
    end
  else Ok false.

(** After [await execution.update({ status: STARTED })]. A rejection is
    outside the [try] and leaves [process]. *)
Definition process_updated (o : Owner) (execution : Execution) (job : option Job)
    (resolved : bool) (w : World) : World :=
  if resolved then
    let w := on_db (fun d => with_executions
                 (update_where (is_execution (ex_id execution)) (set_status STARTED)
                    (db_executions d)) d) w in
    process_start o (set_status STARTED execution) job w
  else process_settled o execution false w.

(** After [await processor.start()] / [processor.resume(job)], inside the
    [try]: [returned = false] is a throw of the Processor, handled by
    the [catch]. *)
Definition process_ran (o : Owner) (execution : Execution) (returned : bool)
    (w : World) : World :=
  if returned then
    let w := logger info (ex_workflowId execution)
               (execution_finished (ex_id execution) (ex_status execution)) w in
    match should_destroy execution with
    | Ok true =>
      let w := on_db (call (Destroy (ex_id execution))) w in
      suspend (ProcessDestroying o execution) w
    | Ok false => process_settled o execution true w
    | Err _ =>
      let w := logger error (ex_workflowId execution) (execution_error (ex_id execution)) w in
      process_settled o execution true w
    end
  else
    let w := logger error (ex_workflowId execution) (execution_error (ex_id execution)) w in
    process_settled o execution true w.

(** After [await execution.destroy()], still inside the [try]. *)
Definition process_destroyed (o : Owner) (execution : Execution) (resolved : bool)
    (w : World) : World :=
  let w :=
    if resolved then
      on_db (fun d => with_executions
               (delete_where (is_execution (ex_id execution)) (db_executions d)) d) w
    else
      logger error (ex_workflowId execution) (execution_error (ex_id execution)) w in
  process_settled o execution true w.

(** ** The storage poll of [dispatch] *)

Definition workflow_of (d : Database) (e : Execution) : option Workflow :=
  find_workflow (ex_workflowId e) (db_workflows d).

(** The filter [dispatch] passes to [findOne]:
    [status: QUEUEING, 'workflow.enabled': true, 'workflow.id': not null]. *)
Definition queueing_filter (d : Database) (e : Execution) : bool :=
  status_eqb (ex_status e) QUEUEING &&
  match workflow_of d e with
  | Some workflow => wf_enabled workflow
  | None => false
  end.

Definition first_by_id (l : list Execution) : option Execution :=
  fold_right (fun e acc =>
                match acc with
                | Some m => if ex_id e <=? ex_id m then Some e else Some m
                | None => Some e
                end) None l.

(** Modelled from the spec: the repository query of the storage layer,
    which is not part of the sources ("a query capability supporting
    filter-by-status, relation-append ([workflow]), and sort-by-id").
    [findOne] with [sort: 'id'] and [appends: ['workflow']] answers the
    matching row of least id, its workflow attached. *)
Definition findOne_queueing (d : Database) : option Execution :=
  match first_by_id (List.filter (queueing_filter d) (db_executions d)) with
  | Some e => Some (mkExecution (ex_id e) (ex_workflowId e) (ex_key e) (ex_eventKey e)
                      (ex_context e) (ex_status e) (workflow_of d e))
  | None => None
  end.

(** After [await ...findOne(...)] in the in-flight operation. *)
Definition dispatch_polled (p : nat) (resolved : bool) (w : World) : World :=
  if resolved then
    match findOne_queueing (db w) with
    | Some execution =>
      let w := logger info (ex_workflowId execution) (fetched_from_db (ex_id execution)) w in
      process (ByDispatcher p) execution None None w
    | None => dispatch_finally p false true w
    end
  else dispatch_finally p false false w.

(** ** [prepare] after [await this.createExecution(...event)] *)

Definition prepare_created (event : CachedEvent) (r : Result (option Execution))
    (w : World) : World :=
  let w :=
    match r with
    | Ok (Some execution) =>
      if status_eqb (ex_status execution) QUEUEING
         && negb (bool_decide (is_Some (executing (eng w))))
         && bool_decide (length (pending (eng w)) = 0%nat)
      then on_eng (with_pending (pending (eng w) ++ [(execution, None)])) w
      else w
    | Ok None => w
    | Err _ =>
      logger error (wf_id event.1.1) (failed_to_create_execution (wf_id event.1.1)) w
    end in
  if negb (bool_decide (length (events (eng w)) = 0%nat))
  then prepare w
  else dispatch w.

(** ** Event intake *)

Definition isWorkflowSync (workflow : Workflow) (e : Engine) : Result bool :=
  match triggers e !! wf_type workflow with
  | None => Err InvalidTriggerType
  | Some t => Ok (default (wf_sync workflow) (trig_sync t))
  end.

(** [{ deferred, ...options }]: the options passed on have no [deferred]. *)
Definition without_deferred (o : EventOptions) : EventOptions :=
  mkEventOptions (eventKey o) false (manually o) (transaction o).

(** [{ transaction, ...rest }] *)
Definition without_transaction (o : EventOptions) : EventOptions :=
  mkEventOptions (eventKey o) (deferred o) (manually o) None.

(** [triggerSync] up to [await this.createExecution(...)]. *)
Definition triggerSync (workflow : Workflow) (context : Context)
    (options : EventOptions) (w : World) : World :=
  suspend (SyncCreating workflow context (without_deferred options)) w.

(** [triggerSync] after the [await]. With no execution ([validateEvent]
    said no), [process] reads [status] of [null]: the promise handed back
    by [return this.process(...)] is rejected, past the [catch]. *)
Definition triggerSync_created (workflow : Workflow) (options : EventOptions)
    (r : Result (option Execution)) (w : World) : World :=
  match r with
  | Err _ =>
    let w := logger error (wf_id workflow) (creating_execution_failed (wf_id workflow)) w in
    settle (TriggerSyncReturnedNull (wf_id workflow)) w
  | Ok (Some execution) => process ByCaller execution None (transaction options) w
  | Ok None => settle (TriggerSyncRejected (wf_id workflow)) w
  end.

(** What [trigger] hands back: nothing, the promise of [triggerSync], or
    the exception of [isWorkflowSync]. *)
Inductive TriggerReturn : Type :=
| ReturnedVoid
| ReturnedPromise
| Thrown (e : Error).

Definition trigger (workflow : Workflow) (context : Context) (options : EventOptions)
    (w : World) : TriggerReturn * World :=
  if negb (ready (eng w)) then
    let w := logger warn (wf_id workflow) (app_not_ready_event_ignored (wf_id workflow)) w in
    let w := logger debug (wf_id workflow) (ignored_event_data context) w in
    (ReturnedVoid, w)
  else if negb (manually options) && negb (wf_enabled workflow) then
    (ReturnedVoid, logger warn (wf_id workflow) (workflow_not_enabled (wf_id workflow)) w)
  else if is_nullish context then
    (ReturnedVoid, logger warn (wf_id workflow) (context_is_null (wf_id workflow)) w)
  else
    match (if manually options then Ok true else isWorkflowSync workflow (eng w)) with
    | Err e => (Thrown e, w)
    | Ok true => (ReturnedPromise, triggerSync workflow context options w)
    | Ok false =>
      let rest := without_transaction options in
      let w := on_eng (with_events (events (eng w) ++ [(workflow, context, rest)])) w in
      let w := on_eng (with_eventsCount (length (events (eng w)))) w in
      let w := logger info (wf_id workflow) (new_event_triggered (length (events (eng w)))) w in
      let w := logger debug (wf_id workflow) (event_data context) w in
      if bool_decide (1 < length (events (eng w)))%nat
      then (ReturnedVoid, w)
      else (ReturnedVoid, suspend PrepareTimer w)
    end.

(** ** Resumption entry points *)

Definition attach_execution (e : Execution) (j : Job) : Job :=
  mkJob (job_id j) (job_executionId j) (Some e).

(** [resume] once [job.execution] is there. *)
Definition resume_push (execution : Execution) (job : Job) (w : World) : World :=
  let w := logger info (ex_workflowId execution)
             (resuming_added_to_pending (ex_id execution) (job_id job)) w in
  let w := on_eng (with_pending (pending (eng w) ++ [(execution, Some job)])) w in
  dispatch w.

Definition resume (job : Job) (w : World) : World :=
  match job_execution job with
  | None => suspend (ResumeLoading job) w
  | Some execution => resume_push execution job w
  end.

(** After [await job.getExecution()]: the row of the job's execution, or
    [null] when it is gone (then reading [workflowId] throws). *)
Definition resume_loaded (job : Job) (resolved : bool) (w : World) : World :=
  if resolved then
    match find_execution (job_executionId job) (db_executions (db w)) with
    | Some execution => resume_push execution (attach_execution execution job) w
    | None => settle (ResumeRejected (job_id job)) w
    end
  else settle (ResumeRejected (job_id job)) w.

Definition start (execution : Execution) (w : World) : World :=
  if negb (status_eqb (ex_status execution) STARTED) then w
  else
    let w := on_eng (with_pending (pending (eng w) ++ [(execution, None)])) w in
    dispatch w.

(** ** Application life cycle *)

(** [afterStart] up to [await collection.repository.find(...)]. *)
Definition afterStart (w : World) : World :=
  suspend StartLoading (on_eng (with_ready true) w).

Definition afterStart_loaded (w : World) : World :=
  let workflows := List.filter wf_enabled (db_workflows (db w)) in
  let w := fold_left (fun w workflow => toggle workflow (Some true) true None w) workflows w in
  let w := on_eng (with_checker true) w in
  dispatch w.

(** [beforeStop] up to its first [await]. *)
Definition beforeStop (w : World) : World :=
  let w := fold_left (fun w workflow => toggle workflow (Some false) true None w)
             (map snd (map_to_list (enabledCache (eng w)))) w in
  let w := on_eng (with_ready false) w in
  let w := if negb (bool_decide (length (events (eng w)) = 0%nat)) then prepare w else w in
  suspend StopWaiting w.

Definition beforeStop_finished (w : World) : World :=
  on_eng (with_checker false) w.

(** ** The [beforeSave] hook of [workflows] *)

(** [where: { key, current: true, id: { [Op.ne]: instance.id } }] *)
Definition other_current (instance : Workflow) (r : Workflow) : bool :=
  has_key (wf_key instance) r && is_current r && negb (has_id (wf_id instance) r).

Definition onBeforeSave (instance : Workflow) (t : option Transaction)
    (w : World) : Workflow * World :=
  let instance :=
    if wf_enabled instance then set_current (Some true) instance else instance in
  let w := on_db (call (FindPrevious (wf_key instance) (wf_id instance) t)) w in
  let previous := List.find (other_current instance) (db_workflows (db w)) in
  let instance :=
    if bool_decide (is_Some previous) then instance
    else set_current (Some true) instance in
  match previous with
  | Some previous =>
    if is_current instance then
      let w := on_db (call (DemoteWorkflow (wf_id previous) t)) w in
      let w := on_db (fun d => with_workflows
                   (update_where (has_id (wf_id previous)) demote (db_workflows d)) d) w in
      (instance, toggle (demote previous) (Some false) false t w)
    else (instance, w)
  | None => (instance, w)
  end.

(** Modelled from the spec: saving through the storage layer, which is not
    part of the sources. The hook runs, then the instance is written as
    the row of its id (replacing it, or added when new), all under the
    caller's transaction; the [afterCreate] / [afterUpdate] listeners
    registered in [load] follow. *)
Definition save (instance : Workflow) (t : option Transaction) (w : World) : World :=
  let '(instance, w) := onBeforeSave instance t w in
  let exists_ := existsb (has_id (wf_id instance)) (db_workflows (db w)) in
  let w := on_db (fun d => with_workflows
               (if exists_
                then update_where (has_id (wf_id instance)) (fun _ => instance) (db_workflows d)
                else db_workflows d ++ [instance]) d) w in
  if exists_ then toggle instance (Some (wf_enabled instance)) false t w
  else if wf_enabled instance then toggle instance (Some true) false t w
  else w.

(** ** Messages of the other nodes *)

(** A message of the sync channel, as [handleSyncMessage] reads it. *)
Record SyncMessageBody : Type := mkSyncMessageBody {
  msg_type : string;
  msg_workflowId : Z;
  msg_enabled : bool
}.

(** An instance as storage hands it over: no change is pending on it, so
    [previous()] has no [config]. *)
Definition fresh (r : Workflow) : Workflow :=
  mkWorkflow (wf_id r) (wf_key r) (wf_type r) (wf_config r) None
    (wf_enabled r) (wf_current r) (wf_sync r) (wf_options r)
    (wf_executed r) (wf_allExecuted r).

(** [handleSyncMessage] up to its [await]. A message that disables has
    none: the cached workflow, if any, is toggled off at once. *)
Definition handleSyncMessage_received (message : SyncMessageBody) (w : World) : World :=
  if bool_decide (msg_type message = "statusChange"%string) then
    if msg_enabled message then
      match enabledCache (eng w) !! msg_workflowId message with
      | Some workflow =>
        let w := on_db (call (Reload (wf_id workflow) None)) w in
        suspend (MessageLoading (Some workflow) (msg_workflowId message)) w
      | None => suspend (MessageLoading None (msg_workflowId message)) w
      end
    else
      match enabledCache (eng w) !! msg_workflowId message with
      | Some workflow => toggle workflow (Some false) true None w
      | None => w
      end
  else w.

(** [handleSyncMessage] after its [await]: the instance as storage has
    it now ([reload] throws when the row is gone, [findOne] answers
    [null]) is toggled on. A rejection goes to whoever delivered the
    message and leaves the engine as it is. *)
Definition handleSyncMessage_loaded (cached : option Workflow) (workflowId : Z)
    (resolved : bool) (w : World) : World :=
  if resolved then
    let id := match cached with
              | Some workflow => wf_id workflow
              | None => workflowId
              end in
    match find_workflow id (db_workflows (db w)) with
    | Some r => toggle (fresh r) (Some true) true None w
    | None => w
    end
  else w.

(** ** The transition system *)

(** The answer of the environment to an [await]. *)
Inductive Answer : Type :=
| Resolves
| Rejects
| Answers (orc : Oracle).

(** What can happen next: a collaborator calls a public method, the
    interval fires, the application starts or stops, a suspended call is
    resumed, the running Processor writes the execution it holds, or a
    message of another node is delivered to [handleSyncMessage]. *)
Inductive Label : Type :=
| CallTrigger (workflow : Workflow) (context : Context) (options : EventOptions)
| CallResume (job : Job)
| CallStart (execution : Execution)
| CallSave (instance : Workflow) (t : option Transaction)
| Tick
| AppStart
| AppStop
| Run (i : nat) (a : Answer)
| ProcessorSaves (i : nat) (s : Status) (workflow : option Workflow)
| MessageArrives (message : SyncMessageBody).

(** How the in-flight operation [p] ended, once it has. *)
Definition settlement_of (p : nat) (w : World) : option bool :=
  match List.find (fun x => match x with
                            | DispatchSettled q _ => Nat.eqb p q
                            | _ => false
                            end) (settled w) with
  | Some (DispatchSettled _ fulfilled) => Some fulfilled
  | _ => None
  end.

Definition resolved (a : Answer) : bool :=
  match a with
  | Resolves => true
  | _ => false
  end.

(** Resuming task [t], already taken out of the suspended ones. *)
Definition run (t : Task) (a : Answer) (w : World) : option World :=
  match t, a with
  | PrepareTimer, Resolves => Some (prepare w)
  | PrepareAwaitExecuting p, Resolves =>
    (* [await this.executing] ends when that promise settles, and throws
       out of [prepare] when it was rejected *)
    match settlement_of p w with
    | Some true => Some (prepare_shift w)
    | Some false => Some (settle PrepareRejected w)
    | None => None
    end
  | PrepareCreating event, Answers orc =>
    let '(r, w) := createExecution orc event.1.1 event.1.2 event.2 w in
    Some (prepare_created event r w)
  | SyncCreating workflow context options, Answers orc =>
    let '(r, w) := createExecution orc workflow context options w in
    Some (triggerSync_created workflow options r w)
  | DispatchPolling p, (Resolves | Rejects) =>
    Some (dispatch_polled p (resolved a) w)
  | ProcessUpdating o e j, (Resolves | Rejects) =>
    Some (process_updated o e j (resolved a) w)
  | ProcessRunning o e j, (Resolves | Rejects) =>
    Some (process_ran o e (resolved a) w)
  | ProcessDestroying o e, (Resolves | Rejects) =>
    Some (process_destroyed o e (resolved a) w)
  | ResumeLoading j, (Resolves | Rejects) =>
    Some (resume_loaded j (resolved a) w)
  | StartLoading, Resolves => Some (afterStart_loaded w)
  | StartLoading, Rejects => Some w
  | StopWaiting, Resolves => Some (beforeStop_finished w)
  | MessageLoading cached id, (Resolves | Rejects) =>
    Some (handleSyncMessage_loaded cached id (resolved a) w)
  | _, _ => None
  end.

(** The Processor, while it runs, sets the status of its execution (on
    the instance and on the row) and may attach the workflow. *)
Definition processor_saves (s : Status) (workflow : option Workflow)
    (e : Execution) : Execution :=
  mkExecution (ex_id e) (ex_workflowId e) (ex_key e) (ex_eventKey e) (ex_context e) s
    (match workflow with Some x => Some x | None => ex_workflow e end).

Definition step (l : Label) (w : World) : option World :=
  match l with
  | CallTrigger workflow context options => Some (trigger workflow context options w).2
  | CallResume job => Some (resume job w)
  | CallStart execution => Some (start execution w)
  | CallSave instance t => Some (save instance t w)
  | Tick => if checker (eng w) then Some (dispatch w) else None
  | AppStart => Some (afterStart w)
  | AppStop => Some (beforeStop w)
  | Run i a =>
    match tasks w !! i with
    | Some t => run t a (with_tasks (delete i (tasks w)) w)
    | None => None
    end
  | ProcessorSaves i s workflow =>
    match tasks w !! i with
    | Some (ProcessRunning o e j) =>
      let w := with_tasks (<[i := ProcessRunning o (processor_saves s workflow e) j]> (tasks w)) w in
      Some (on_db (fun d => with_executions
                     (update_where (is_execution (ex_id e)) (set_status s)
                        (db_executions d)) d) w)
    | _ => None
    end
  | MessageArrives message => Some (handleSyncMessage_received message w)
  end.

Fixpoint exec (ls : list Label) (w : World) : option World :=
  match ls with
  | [] => Some w
  | l :: ls =>
    match step l w with
    | Some w' => exec ls w'
    | None => None
    end
  end.

Definition reachable (w0 w : World) : Prop := exists ls, exec ls w0 = Some w.

(** The world before the application starts. *)
Definition init (registry : gmap string Trigger) (d : Database) : World :=
  mkWorld (mkEngine registry ∅ false None [] [] 0%nat false) d [] [] [] [] 0%nat.

(** ** [handleSyncMessage] in one go *)

(** [handleSyncMessage], taken as one step like [createExecution]; [ok]
    tells whether its one storage call ([workflow.reload()] of the cached
    instance, or [findOne({ filterByTk })], which answers the row of that
    id or [null]) resolves. *)
Definition handleSyncMessage (ok : bool) (message : SyncMessageBody) : M unit := fun w =>
  if bool_decide (msg_type message = "statusChange"%string) then
    if msg_enabled message then
      (let* workflow :=
         match enabledCache (eng w) !! msg_workflowId message with
         | Some workflow =>
           storage (Reload (wf_id workflow) None) ok ;;
           fun w =>
             match find_workflow (wf_id workflow) (db_workflows (db w)) with
             | Some r => (Ok (Some (fresh r)), w)
             | None => (Err Rejected, w)
             end
         | None =>
           fun w =>
             if ok
             then (Ok (fresh <$> find_workflow (msg_workflowId message)
                                   (db_workflows (db w))), w)
             else (Err Rejected, w)
         end in
       match workflow with
       | Some workflow => act (toggle workflow (Some true) true None)
       | None => ret tt
       end) w
    else
      match enabledCache (eng w) !! msg_workflowId message with
      | Some workflow => (Ok tt, toggle workflow (Some false) true None w)
      | None => (Ok tt, w)
      end
  else (Ok tt, w).

(** * Properties *)

(** ** Predicates *)

(** [w'] is [w] with lines added to the log, the first a warning of the
    logger [name]. *)
Definition only_warned (name : LoggerName) (w w' : World) : Prop :=
  eng w' = eng w /\ db w' = db w /\ tasks w' = tasks w /\
  effects w' = effects w /\ settled w' = settled w /\
  next_promise w' = next_promise w /\
  exists m rest, log w' = log w ++ (warn, name, m) :: rest.

(** A piece of code that leaves the engine's own state alone: it may
    only use storage and the log. *)
Definition engine_frame (w w' : World) : Prop :=
  eng w' = eng w /\ tasks w' = tasks w /\ settled w' = settled w /\
  next_promise w' = next_promise w /\ effects w' = effects w.

Definition framed {A : Type} (m : M A) : Prop :=
  forall w, engine_frame w (m w).2.

Definition is_creating (t : Task) : bool :=
  match t with
  | PrepareCreating _ => true
  | _ => false
  end.

(** Events not yet turned into an execution: queued, or being created. *)
Definition outstanding (w : World) : nat :=
  (length (events (eng w)) + length (List.filter is_creating (tasks w)))%nat.

(** The workflow of the execution lists the execution's status in
    [deleteExecutionOnStatus]. *)
Definition configured (e : Execution) : Prop :=
  exists workflow options statuses,
    ex_workflow e = Some workflow /\
    wf_options workflow = Some options /\
    deleteExecutionOnStatus options = Some statuses /\
    In (ex_status e) statuses.

(** Between [w] and [w'], [destroy()] was called on execution [id]. *)
Definition destroy_called (id : Z) (w w' : World) : Prop :=
  exists cs, db_calls (db w') = db_calls (db w) ++ cs /\ In (Destroy id) cs.

(** Code that does not write rows and calls no [destroy()]. *)
Definition keeps_rows (w w' : World) : Prop :=
  db_executions (db w') = db_executions (db w) /\
  db_workflows (db w') = db_workflows (db w) /\
  exists cs, db_calls (db w') = db_calls (db w) ++ cs /\
             forall id, ~ In (Destroy id) cs.

(** The in-flight operation of the dispatcher a suspended call belongs
    to, if any. *)
Definition in_flight (t : Task) : option nat :=
  match t with
  | DispatchPolling p => Some p
  | ProcessUpdating (ByDispatcher p) _ _ => Some p
  | ProcessRunning (ByDispatcher p) _ _ => Some p
  | ProcessDestroying (ByDispatcher p) _ => Some p
  | _ => None
  end.

(** A suspended [process] call. *)
Definition is_process (t : Task) : bool :=
  match t with
  | ProcessUpdating _ _ _ | ProcessRunning _ _ _ | ProcessDestroying _ _ => true
  | _ => false
  end.

(** A suspended [process] call started by the dispatcher. *)
Definition is_dispatched_process (t : Task) : bool :=
  match t with
  | ProcessUpdating (ByDispatcher _) _ _
  | ProcessRunning (ByDispatcher _) _ _
  | ProcessDestroying (ByDispatcher _) _ => true
  | _ => false
  end.

Definition active_processes (w : World) : nat :=
  length (List.filter is_process (tasks w)).

(** Every row that is QUEUEING in [l'] is a row of [l], or is the one row
    [l'] has more than [l]: no row has moved to QUEUEING. *)
Definition forward (l l' : list Execution) : Prop :=
  forall r', In r' l' -> ex_status r' = QUEUEING -> In r' l \/ l' = l ++ [r'].

(** The steps of the engine itself: all but the writes of the Processor. *)
Definition by_engine (l : Label) : bool :=
  match l with
  | ProcessorSaves _ _ _ => false
  | _ => true
  end.

(** Among the rows sharing a key at most one is current. *)
Definition unique_current (l : list Workflow) : Prop :=
  forall r1 r2,
    In r1 l -> In r2 l ->
    wf_key r1 = wf_key r2 ->
    wf_current r1 = Some true -> wf_current r2 = Some true ->
    wf_id r1 = wf_id r2.

(** The fields that decide which version is current are the same. *)
Definition same_identity (r r' : Workflow) : Prop :=
  wf_id r' = wf_id r /\ wf_key r' = wf_key r /\ wf_current r' = wf_current r.

(** The instance as the hook leaves it before looking for a previous
    version: [if (instance.enabled) instance.set('current', true)]. *)
Definition enabled_is_current (instance : Workflow) : Workflow :=
  if wf_enabled instance then set_current (Some true) instance else instance.

(** The suspended calls of the dispatcher are those of the one operation
    recorded in [executing]: none when it is [null], exactly one when it
    holds a promise. *)
Definition exclusive (w : World) : Prop :=
  omap in_flight (tasks w) = option_list (executing (eng w)).

(** The world in which a call awaited by [o] resumes: its frame has left
    the suspended ones. *)
Definition resumable (o : Owner) (w : World) : Prop :=
  match o with
  | ByDispatcher p => omap in_flight (tasks w) = [] /\ executing (eng w) = Some p
  | ByCaller => exclusive w
  end.

Definition owner_of (t : Task) : Owner :=
  match in_flight t with
  | Some p => ByDispatcher p
  | None => ByCaller
  end.

(** Promise [p] is still the one in [executing], or the operation it
    names has ended (its [finally] block ran). *)
Definition still_or_settled (p : nat) (w : World) : Prop :=
  executing (eng w) = Some p \/ exists b, In (DispatchSettled p b) (settled w).

(** ** A small installation, for concrete runs *)

(** One enabled workflow of a registered trigger type; executions that
    end with status [1] or [0] are to be deleted. *)
Definition sample_workflow : Workflow :=
  mkWorkflow 1 "k1" "collection" 7 None true (Some true) false
    (Some (mkWorkflowOptions (Some [Some 1; Some 0]))) 0 0.

(** A second version of the same key, enabled by the save. *)
Definition sample_new_version : Workflow :=
  mkWorkflow 2 "k1" "collection" 8 None true None false None 0 0.

Definition sample_registry : gmap string Trigger :=
  {[ "collection"%string := mkTrigger None ]}.

Definition sample_database : Database :=
  mkDatabase postgres (Some 0%nat) [sample_workflow] [] 1 0%nat [].

Definition sample_world : World := init sample_registry sample_database.

Definition sample_execution (s : Status) : Execution :=
  mkExecution 5 1 "k1" "e5" (CtxData 1) s (Some sample_workflow).

(** The engine started, idle, with one execution waiting in [pending]. *)
Definition sample_idle_world (s : Status) : World :=
  mkWorld (mkEngine sample_registry ∅ true None [(sample_execution s, None)] [] 0%nat true)
    sample_database [] [] [] [] 0%nat.

Definition no_options : EventOptions := mkEventOptions None false false None.
Definition manual_options : EventOptions := mkEventOptions None false true None.

(** Storage works; the trigger accepts, refuses, or the insert fails. *)
Definition accepting : Oracle :=
  mkOracle true (Ok true) "uuid" true true true true true true.
Definition refusing : Oracle :=
  mkOracle true (Ok false) "uuid" true true true true true true.
Definition failing : Oracle :=
  mkOracle true (Ok true) "uuid" false true true true true true.

(** Start; an event is queued, prepared and dispatched; while its
    Processor runs, a manual trigger creates and processes a second
    execution in the caller's context. *)
Definition sample_run : list Label :=
  [ AppStart; Run 0 Resolves; Run 0 Resolves;
    CallTrigger sample_workflow (CtxData 1) no_options;
    Run 0 Resolves; Run 0 (Answers accepting); Run 0 Resolves;
    CallTrigger sample_workflow (CtxData 2) manual_options;
    Run 1 (Answers accepting) ].

(** Two events in quick succession; each execution is processed, ends
    with status [1] and is deleted. *)
Definition sample_two_events : list Label :=
  [ AppStart; Run 0 Resolves; Run 0 Resolves;
    CallTrigger sample_workflow (CtxData 1) no_options;
    CallTrigger sample_workflow (CtxData 2) no_options;
    Run 0 Resolves; Run 0 (Answers accepting); Run 0 (Answers accepting);
    Run 0 Resolves; ProcessorSaves 0 (Some 1) None; Run 0 Resolves; Run 0 Resolves;
    Run 0 Resolves;
    Run 0 Resolves; ProcessorSaves 0 (Some 1) None; Run 0 Resolves; Run 0 Resolves;
    Run 0 Resolves ].

(** ** More predicates *)

(** How [createExecution] moves the counters of a row [x] of [workflows]
    into [x']: [executed] of the workflow's own row goes up by one, and
    every version of its key receives the new total, the [allExecuted] of
    the row [r] of the workflow plus one. *)
Definition counted (workflow r : Workflow) (x x' : Workflow) : Prop :=
  wf_id x' = wf_id x /\ wf_key x' = wf_key x /\
  wf_executed x' = (if has_id (wf_id workflow) x then wf_executed x + 1 else wf_executed x) /\
  wf_allExecuted x' =
    (if has_key (wf_key workflow) x then wf_allExecuted r + 1
     else if has_id (wf_id workflow) x then wf_allExecuted x + 1
     else wf_allExecuted x).

(** A storage call of [createExecution] that was given transaction [t]. *)
Definition under (t : Transaction) (c : DbCall) : bool :=
  match c with
  | ValidateEvent _ t' _ | CreateExecution _ _ t' | Increment _ t'
  | Reload _ t' | UpdateAllExecuted _ _ t' => bool_decide (t' = Some t)
  | _ => false
  end.

(** A message sent to the other nodes. *)
Definition is_sync_message (x : Effect) : bool :=
  match x with
  | SyncMessage _ _ _ => true
  | _ => false
  end.

(** Every entry of [enabledCache] sits under the id of its workflow, and
    the trigger type of that workflow is registered. *)
Definition cache_coherent (e : Engine) : Prop :=
  forall id workflow,
    enabledCache e !! id = Some workflow ->
    wf_id workflow = id /\ is_Some (triggers e !! wf_type workflow).

(** A suspended call that will come back to the [events] queue: the
    timer of [trigger], or a [prepare] at one of its [await]s. *)
Definition is_preparing (t : Task) : bool :=
  match t with
  | PrepareTimer | PrepareAwaitExecuting _ | PrepareCreating _ => true
  | _ => false
  end.

(** [eventsCount], the number the telemetry gauge reports, is the length
    of the queue. *)
Definition counted_events (w : World) : Prop :=
  eventsCount (eng w) = length (events (eng w)).

(** The queued events are being taken care of: a [prepare] is scheduled or
    under way -- unless a [prepare] was thrown out of its
    [await this.executing] by a rejected operation. *)
Definition attended (w : World) : Prop :=
  events (eng w) = [] \/
  existsb is_preparing (tasks w) = true \/
  In PrepareRejected (settled w).

(** Code that leaves the [events] queue alone, takes no suspended call
    away and forgets no settlement. *)
Definition queue_frame (w w' : World) : Prop :=
  events (eng w') = events (eng w) /\
  eventsCount (eng w') = eventsCount (eng w) /\
  (exists ts, tasks w' = tasks w ++ ts) /\
  (exists ss, settled w' = settled w ++ ss).

(** Code that registers nothing, leaves [enabledCache] and [ready] alone
    and, on an engine that is stopped and idle, starts nothing. *)
Definition engine_static (w w' : World) : Prop :=
  triggers (eng w') = triggers (eng w) /\
  enabledCache (eng w') = enabledCache (eng w) /\
  ready (eng w') = ready (eng w) /\
  (ready (eng w) = false -> executing (eng w) = None -> executing (eng w') = None).

Definition is_app_start (l : Label) : bool :=
  match l with
  | AppStart => true
  | _ => false
  end.

(** Stopped and idle: not [ready], and no operation in [executing]. *)
Definition idle (w : World) : Prop :=
  ready (eng w) = false /\ executing (eng w) = None.

(** What [toggle] leaves alone. *)
Definition toggled (w w' : World) : Prop :=
  triggers (eng w') = triggers (eng w) /\
  ready (eng w') = ready (eng w) /\
  executing (eng w') = executing (eng w).

(** A suspended call that writes [enabledCache] when it resumes. *)
Definition fills_cache (t : Task) : bool :=
  match t with
  | StartLoading | MessageLoading _ _ => true
  | _ => false
  end.

(** A row and what an execution makes of it: only the counters move. *)
Definition counters_moved (r r' : Workflow) : Prop :=
  exists executed allExecuted, r' = set_counters executed allExecuted r.

(** Every enabled row is the current version of its key. *)
Definition enabled_current (l : list Workflow) : Prop :=
  forall r, In r l -> wf_enabled r = true -> wf_current r = Some true.

(** ** More of the small installation *)

(** A transaction of the caller on the main connection. *)
Definition sample_transaction : Transaction := mkTransaction 7 0.

Definition transactional_options : EventOptions :=
  mkEventOptions None false false (Some sample_transaction).

(** A manual event whose caller asks for a deferred execution. *)
Definition deferred_manual_options : EventOptions :=
  mkEventOptions None true true None.

(** Storage takes the row and then fails to increment the counters. *)
Definition stalling : Oracle :=
  mkOracle true (Ok true) "uuid" true true false true true true.

(** A workflow of a trigger type nobody registered. *)
Definition sample_unknown_workflow : Workflow :=
  mkWorkflow 3 "k3" "webhook" 1 None true (Some true) false None 0 0.

(** The application starts and finds nothing to do. *)
Definition sample_start : list Label :=
  [ AppStart; Run 0 Resolves; Run 0 Resolves ].

(** The engine started and idle, the sample workflow cached. *)
Definition sample_started_world : World :=
  mkWorld (mkEngine sample_registry {[ 1 := sample_workflow ]} true None [] [] 0%nat true)
    sample_database [] [] [] [] 0%nat.

(** What may still happen to an engine that has not started. *)
Definition sample_stopped_run : list Label :=
  [ CallTrigger sample_workflow (CtxData 1) manual_options;
    CallStart (sample_execution (Some 0));
    CallSave sample_new_version None;
    CallResume (mkJob 1 5 (Some (sample_execution (Some 1)))) ].

(** Another node reports that workflow 1 was disabled. *)
Definition sample_message : SyncMessageBody :=
  mkSyncMessageBody "statusChange" 1 false.

(** A disabled workflow, kept next to the sample one. *)
Definition sample_disabled_workflow : Workflow :=
  mkWorkflow 3 "k3" "collection" 9 None false (Some true) false None 0 0.

Definition sample_two_rows : Database :=
  mkDatabase postgres (Some 0%nat) [sample_workflow; sample_disabled_workflow] [] 1 0%nat [].

(** The application starts; another node reports that workflow 3 was
    enabled, and storage answers with the row, which it still has as
    disabled. *)
Definition sample_message_run : list Label :=
  sample_start ++ [ MessageArrives (mkSyncMessageBody "statusChange" 3 true); Run 0 Resolves ].

(** The application starts; two events arrive before the timer fires. *)
Definition sample_queued : list Label :=
  sample_start ++
  [ CallTrigger sample_workflow (CtxData 1) no_options;
    CallTrigger sample_workflow (CtxData 2) no_options ].

(** A [users] collection, and a sign-up form that asks for a nickname
    only and hides the phone number. *)
Definition sample_users : gmap string Auth.Field :=
  {[ "username"%string :=
       Auth.mkField (Some {[ "title"%string := Auth.JString "Username";
                             "required"%string := Auth.JBool false ]});
     "nickname"%string := Auth.mkField None ]}.

Definition sample_form : list Auth.SignupItem :=
  [ Auth.mkSignupItem "nickname" true false; Auth.mkSignupItem "phone" false true ].

(** What an entry of the form holds under key [k], given the field [f]
    its item names: [{ ...field.options?.uiSchema, required: item.required }]
    read key by key. *)
Definition carried (f : Auth.Field) (i : Auth.FormItem) (k : string) : Prop :=
  Auth.uiSchema i !! k =
    if bool_decide (k = "required"%string)
    then Some (Auth.JBool (Auth.required (Auth.item i)))
    else Auth.field_uiSchema f ≫= (.!! k).

(** A [prepare] call waiting for the operation in flight: this happens
    on sqlite only. *)
Definition is_awaiting (t : Task) : bool :=
  match t with
  | PrepareAwaitExecuting _ => true
  | _ => false
  end.

(** No [prepare] call has had to wait for [executing]: none is waiting,
    none was thrown out. *)
Definition never_waited (w : World) : Prop :=
  existsb is_awaiting (tasks w) = false /\ ~ In PrepareRejected (settled w).

(** Code that keeps the dialect, suspends no [prepare] on [executing]
    and throws none out. *)
Definition no_wait_frame (w w' : World) : Prop :=
  db_dialect (db w') = db_dialect (db w) /\
  (exists ts, tasks w' = tasks w ++ ts /\ existsb is_awaiting ts = false) /\
  (exists ss, settled w' = settled w ++ ss /\ ~ In PrepareRejected ss).

(** ** Event intake and [start] *)

(** C4: a [trigger] call while the engine is not ready, or for a workflow
    that is not enabled without [manually], or with a [null] / [undefined]
    context, returns nothing and only writes to the log: no execution, no
    queued event, no suspended call. *)
Theorem trigger_ignored workflow context options w :
  ready (eng w) = false \/
  (wf_enabled workflow = false /\ manually options = false) \/
  is_nullish context = true ->
  (trigger workflow context options w).1 = ReturnedVoid /\
  only_warned (wf_id workflow) w (trigger workflow context options w).2.
Proof.
  intros H. unfold trigger, only_warned.
  destruct (ready (eng w)) eqn:Hready; simpl.
  - destruct (negb (manually options) && negb (wf_enabled workflow)) eqn:Hen; simpl.
    + repeat split; do 2 eexists; reflexivity.
    + destruct (is_nullish context) eqn:Hnull; simpl.
      * repeat split; do 2 eexists; reflexivity.
      * exfalso. destruct H as [H | [[H1 H2] | H]]; try discriminate.
        rewrite H1, H2 in Hen. discriminate.
  - repeat split; do 2 eexists; simpl; rewrite <- app_assoc; reflexivity.
Qed.

(** A call of [dispatch] always shows: it writes to the log or suspends
    a call. *)
Lemma dispatch_leaves_a_mark w :
  (length (log w) + length (tasks w) <
   length (log (dispatch w)) + length (tasks (dispatch w)))%nat.
Proof.
  unfold dispatch, prepare, prepare_shift, process, process_start.
  repeat case_match; simpl; rewrite ?length_app; simpl; lia.
Qed.

(** C10: [start] on an execution whose status is not STARTED changes
    nothing: nothing is pushed onto [pending], and [dispatch], which
    would have left a trace, is not called. *)
Theorem start_ignores_not_started execution w :
  ex_status execution <> STARTED ->
  start execution w = w /\
  pending (eng (start execution w)) = pending (eng w) /\
  start execution w <> dispatch w.
Proof.
  intros H. unfold start, status_eqb.
  rewrite bool_decide_eq_false_2 by exact H. simpl.
  split; [reflexivity |]. split; [reflexivity |].
  intros E. pose proof (dispatch_leaves_a_mark w) as Hm. rewrite <- E in Hm. lia.
Qed.

(** ** [createExecution] stays out of the engine's state *)

Lemma engine_frame_refl w : engine_frame w w.
Proof. repeat split. Qed.

Lemma engine_frame_trans w1 w2 w3 :
  engine_frame w1 w2 -> engine_frame w2 w3 -> engine_frame w1 w3.
Proof.
  unfold engine_frame. intros (?&?&?&?&?) (?&?&?&?&?).
  repeat split; congruence.
Qed.

Lemma engine_frame_on_db f w : engine_frame w (on_db f w).
Proof. repeat split. Qed.

Lemma engine_frame_logger l n m w : engine_frame w (logger l n m w).
Proof. repeat split. Qed.

Lemma framed_ret {A} (a : A) : framed (ret a).
Proof. intros w. apply engine_frame_refl. Qed.

Lemma framed_throw {A} e : framed (@throw A e).
Proof. intros w. apply engine_frame_refl. Qed.

Lemma framed_bind {A B} (m : M A) (f : A -> M B) :
  framed m -> (forall a, framed (f a)) -> framed (bind m f).
Proof.
  intros Hm Hf w. unfold bind. specialize (Hm w).
  destruct (m w) as [[a | e] w'] eqn:E; simpl in *; [| exact Hm].
  eapply engine_frame_trans; [exact Hm | apply Hf].
Qed.

Lemma framed_try_catch {A} (m : M A) h :
  framed m -> (forall e, framed (h e)) -> framed (try_catch m h).
Proof.
  intros Hm Hh w. unfold try_catch. specialize (Hm w).
  destruct (m w) as [[a | e] w'] eqn:E; simpl in *; [exact Hm |].
  eapply engine_frame_trans; [exact Hm | apply Hh].
Qed.

Lemma framed_storage c ok : framed (storage c ok).
Proof. intros w. apply engine_frame_on_db. Qed.

Lemma framed_when b m : framed m -> framed (when b m).
Proof. destruct b; simpl; [trivial | intros _; apply framed_ret]. Qed.

Lemma framed_act f : (forall w, engine_frame w (f w)) -> framed (act f).
Proof. intros H w. apply H. Qed.

Lemma framed_commit orc t : framed (commit orc t).
Proof. destruct t; [apply framed_storage | apply framed_throw]. Qed.

Lemma framed_rollback orc t : framed (rollback orc t).
Proof. destruct t; [apply framed_storage | apply framed_throw]. Qed.

Lemma framed_in_transaction {A} own (m : M A) :
  framed m -> framed (in_transaction own m).
Proof.
  intros Hm w. unfold in_transaction. specialize (Hm w).
  destruct (m w) as [[a | e] w'] eqn:E; simpl in *; [exact Hm |].
  destruct own; [| exact Hm].
  eapply engine_frame_trans; [exact Hm | apply engine_frame_on_db].
Qed.

Lemma framed_useDataSourceTransaction orc t create :
  framed (useDataSourceTransaction orc t create).
Proof.
  intros w. unfold useDataSourceTransaction.
  repeat case_match; simpl; auto using engine_frame_refl, engine_frame_on_db.
Qed.

Lemma framed_validateEvent orc workflow t : framed (validateEvent orc workflow t).
Proof.
  intros w. unfold validateEvent.
  case_match; simpl; auto using engine_frame_refl, engine_frame_on_db.
Qed.

Lemma framed_insert_execution orc workflow c key eventKey s t :
  framed (insert_execution orc workflow c key eventKey s t).
Proof.
  apply framed_bind; [apply framed_storage |].
  intros _ w. apply engine_frame_on_db.
Qed.

Lemma framed_increment orc workflow t : framed (increment orc workflow t).
Proof.
  apply framed_bind; [apply framed_storage |].
  intros _ w. apply engine_frame_on_db.
Qed.

Lemma framed_reload orc workflow t : framed (reload orc workflow t).
Proof.
  apply framed_bind; [apply framed_storage |].
  intros _ w. case_match; apply engine_frame_refl.
Qed.

Lemma framed_update_allExecuted orc workflow t :
  framed (update_allExecuted orc workflow t).
Proof.
  apply framed_bind; [apply framed_storage |].
  intros _. apply framed_act. intros w. apply engine_frame_on_db.
Qed.

Create HintDb framed.

#[local] Hint Resolve framed_ret framed_throw framed_storage framed_when
  framed_commit framed_rollback framed_validateEvent framed_insert_execution
  framed_increment framed_reload framed_update_allExecuted
  framed_useDataSourceTransaction engine_frame_logger : framed.

Lemma framed_createExecution orc workflow context options :
  framed (createExecution orc workflow context options).
Proof.
  unfold createExecution.
  apply framed_bind; [auto with framed |]. intros t'.
  apply framed_in_transaction. intros w.
  destruct (triggers (eng w) !! wf_type workflow); [| apply engine_frame_refl].
  revert w. change (framed ?m) with (framed m).
  apply framed_bind; [auto with framed |]. intros valid.
  destruct (negb valid).
  - apply framed_bind; auto with framed.
  - apply framed_bind.
    + apply framed_try_catch; [auto with framed |].
      intros e. apply framed_bind; auto with framed.
    + intros execution. apply framed_bind; [apply framed_act; auto with framed |].
      intros _. apply framed_bind; [auto with framed |]. intros wf1.
      apply framed_bind.
      * intros w. case_match; [apply engine_frame_refl | apply framed_reload].
      * intros wf2. repeat (apply framed_bind; [auto with framed |]; intros _).
        auto with framed.
Qed.

(** A transaction opened by [createExecution] ends with its [commit]
    exactly on the paths that return: this is what [in_transaction]
    relies on. *)
Lemma createExecution_commits_iff_returns orc workflow context options w s :
  db_sequelize (db w) = Some s ->
  tx_sequelize <$> transaction options <> Some s ->
  transaction_ok orc = true ->
  let r := createExecution orc workflow context options w in
  let t := mkTransaction (db_next_tx (db w)) s in
  exists cs,
    db_calls (db r.2) = db_calls (db w) ++ Begin t :: cs /\
    match r.1 with
    | Ok _ => List.last cs (Begin t) = Commit t /\ commit_ok orc = true
    | Err _ => ~ In (Commit t) cs \/ commit_ok orc = false
    end.
Proof.
  intros Hdb Hother Hbegin.
  unfold createExecution, bind, useDataSourceTransaction.
  rewrite Hdb, (bool_decide_eq_false_2 _ Hother), Hbegin.
  assert (Hne : transaction options <> Some (mkTransaction (db_next_tx (db w)) s)).
  { intros E. apply Hother. rewrite E. reflexivity. }
  rewrite (bool_decide_eq_false_2 _ Hne).
  unfold in_transaction, try_catch, validateEvent, insert_execution, increment,
    reload, update_allExecuted, commit, rollback, when, storage, act, ret, throw, bind.
  simpl.
  repeat (case_match; simplify_eq/=).
  all: eexists; (split; [rewrite <- ?app_assoc; simpl; reflexivity |]).
  all: simpl; try (split; reflexivity); try (split; [reflexivity | assumption]).
  all: try (right; assumption); try (right; reflexivity).
  all: left; simpl; intuition discriminate.
Qed.

(** C7: when the trigger's [validateEvent] answers [false],
    [createExecution] returns [null] without throwing, creates no row and
    increments no counter; a transaction it opened itself is committed and
    nothing else is done with it, a transaction of the caller (same
    connection) receives neither [commit] nor [rollback]. Storage is taken
    to work: the main data source has a database, opening and committing a
    transaction succeed. *)
Theorem createExecution_discards_rejected_event orc workflow context options w trig s :
  triggers (eng w) !! wf_type workflow = Some trig ->
  validateEvent_result orc = Ok false ->
  db_sequelize (db w) = Some s ->
  transaction_ok orc = true ->
  commit_ok orc = true ->
  let r := createExecution orc workflow context options w in
  r.1 = Ok None /\
  db_executions (db r.2) = db_executions (db w) /\
  db_workflows (db r.2) = db_workflows (db w) /\
  log r.2 = log w /\
  db_calls (db r.2) = db_calls (db w) ++
    if bool_decide (tx_sequelize <$> transaction options = Some s)
    then [ValidateEvent (wf_id workflow) (transaction options) false]
    else
      let t := mkTransaction (db_next_tx (db w)) s in
      [Begin t; ValidateEvent (wf_id workflow) (Some t) false; Commit t].
Proof.
  intros Htrig Hvalid Hdb Hbegin Hcommit.
  unfold createExecution, bind, useDataSourceTransaction. rewrite Hdb.
  destruct (bool_decide (tx_sequelize <$> transaction options = Some s)) eqn:Hsame.
  - (* the caller's transaction is reused *)
    unfold in_transaction, validateEvent, when, ret. simpl.
    rewrite Htrig, Hvalid. simpl.
    rewrite bool_decide_eq_true_2 by reflexivity. simpl.
    repeat split; reflexivity.
  - (* a transaction is opened here *)
    rewrite Hbegin. unfold in_transaction, validateEvent, when, ret. simpl.
    rewrite Htrig, Hvalid. simpl.
    assert (Hne : transaction options <> Some (mkTransaction (db_next_tx (db w)) s)).
    { intros E. rewrite E in Hsame. simpl in Hsame.
      rewrite bool_decide_eq_true_2 in Hsame by reflexivity. discriminate. }
    rewrite (bool_decide_eq_false_2 _ Hne). simpl.
    unfold storage. rewrite Hcommit. simpl.
    repeat split; try reflexivity.
    rewrite <- !app_assoc. reflexivity.
Qed.

(** ** [prepare] *)

Lemma filter_snoc {A} (p : A -> bool) l x :
  List.filter p (l ++ [x]) = List.filter p l ++ (if p x then [x] else []).
Proof. rewrite List.filter_app. reflexivity. Qed.

(** After the creation of an execution failed, [prepare] logs the error
    and goes on with the rest of the queue. *)
Lemma prepare_created_failed event e w :
  let failed :=
    logger error (wf_id event.1.1) (failed_to_create_execution (wf_id event.1.1)) w in
  prepare_created event (Err e) w =
    if bool_decide (events (eng w) = []) then dispatch failed else prepare failed.
Proof.
  unfold prepare_created. simpl.
  destruct (events (eng w)) eqn:E; simpl; reflexivity.
Qed.

Lemma prepare_outstanding w :
  events (eng w) <> [] ->
  outstanding (prepare w) = outstanding w /\
  (events (eng (prepare w)) = events (eng w) \/
   events (eng (prepare w)) = tail (events (eng w))).
Proof.
  intros Hne. unfold prepare, prepare_shift, outstanding.
  destruct (events (eng w)) as [| ev rest] eqn:E; [congruence |].
  repeat case_match; simpl; rewrite ?E, ?filter_snoc; simpl;
    rewrite ?length_app; simpl; split; auto; lia.
Qed.

Lemma dispatch_outstanding w :
  events (eng w) = [] ->
  outstanding (dispatch w) = outstanding w /\
  events (eng (dispatch w)) = events (eng w).
Proof.
  intros Hnil. unfold dispatch, process, process_start, outstanding.
  rewrite Hnil. simpl.
  repeat case_match; simpl; rewrite ?Hnil, ?filter_snoc; simpl;
    rewrite ?length_app; simpl; split; auto; lia.
Qed.

Lemma dialect_createExecution orc workflow context options w :
  db_dialect (db (createExecution orc workflow context options w).2) = db_dialect (db w).
Proof.
  unfold createExecution, bind, in_transaction, try_catch, useDataSourceTransaction,
    validateEvent, insert_execution, increment, reload, update_allExecuted,
    commit, rollback, when, storage, act, ret, throw, bind.
  simpl.
  repeat (case_match; simplify_eq/=); first [reflexivity | congruence].
Qed.

(** C8: when [createExecution] throws for an event drained by [prepare],
    the error is logged, the event is not put back, and [prepare] goes
    on. With events left it takes the next one off the queue and asks
    for its execution (on sqlite, with an operation in flight, it first
    waits for that operation, the queue untouched); with none left it
    calls [dispatch], which starts the next operation when the engine is
    ready and idle and only warns otherwise. Either way the number of
    events waiting or in creation does not grow back. *)
Theorem prepare_drops_failed_event event orc e w w1 :
  createExecution orc event.1.1 event.1.2 event.2 w = (Err e, w1) ->
  let failed :=
    logger error (wf_id event.1.1) (failed_to_create_execution (wf_id event.1.1)) w1 in
  exists w',
    run (PrepareCreating event) (Answers orc) w = Some w' /\
    w' = (if bool_decide (events (eng w) = []) then dispatch failed else prepare failed) /\
    (events (eng w') = events (eng w) \/ events (eng w') = tail (events (eng w))) /\
    outstanding w' = outstanding w /\
    (exists rest,
       log w' = log w1 ++
         (error, of_workflow (wf_id event.1.1),
          failed_to_create_execution (wf_id event.1.1)) :: rest) /\
    match events (eng w) with
    | next :: rest =>
      match executing (eng w) with
      | Some p =>
        if bool_decide (db_dialect (db w) = sqlite)
        then events (eng w') = next :: rest /\
             tasks w' = tasks w ++ [PrepareAwaitExecuting p]
        else events (eng w') = rest /\
             eventsCount (eng w') = length rest /\
             tasks w' = tasks w ++ [PrepareCreating next]
      | None =>
        events (eng w') = rest /\
        eventsCount (eng w') = length rest /\
        tasks w' = tasks w ++ [PrepareCreating next]
      end
    | [] =>
      events (eng w') = [] /\
      if ready (eng w) && negb (bool_decide (is_Some (executing (eng w))))
      then executing (eng w') = Some (next_promise w) /\
           pending (eng w') = tail (pending (eng w)) /\
           length (tasks w') = S (length (tasks w))
      else eng w' = eng w /\ tasks w' = tasks w
    end.
Proof.
  intros Hcreate failed.
  pose proof (framed_createExecution orc event.1.1 event.1.2 event.2 w) as Hframe.
  pose proof (dialect_createExecution orc event.1.1 event.1.2 event.2 w) as Hdial.
  rewrite Hcreate in Hframe, Hdial. destruct Hframe as (Heng & Htasks & _ & Hnext & _).
  simpl in Heng, Htasks, Hnext, Hdial.
  exists (prepare_created event (Err e) w1). split.
  { simpl. rewrite Hcreate. reflexivity. }
  rewrite prepare_created_failed. fold failed. rewrite <- Heng.
  assert (Hev : events (eng failed) = events (eng w1)) by reflexivity.
  assert (Hout : outstanding failed = outstanding w).
  { unfold outstanding, failed. simpl. rewrite Heng, Htasks. reflexivity. }
  split; [reflexivity |].
  destruct (bool_decide (events (eng w1) = [])) eqn:Hnil.
  - apply bool_decide_eq_true in Hnil.
    destruct (dispatch_outstanding failed) as [Ho He]; [congruence |].
    split; [rewrite He, Hev; auto |]. split; [rewrite Ho; exact Hout |].
    rewrite Hnil.
    unfold dispatch, process, process_start, failed. simpl.
    rewrite Hnil. simpl.
    destruct (ready (eng w1)), (executing (eng w1)) as [p |]; simpl.
    all: try (split; [eexists; rewrite <- ?app_assoc; simpl; reflexivity |];
              split; [exact Hnil |]; split; [reflexivity | exact Htasks]).
    destruct (pending (eng w1)) as [| [next j] rest] eqn:Hp; simpl;
      [| destruct (status_eqb (ex_status next) QUEUEING); simpl].
    all: rewrite ?Htasks, ?Hnext, ?Hp.
    all: split; [eexists; rewrite <- ?app_assoc; simpl; reflexivity |].
    all: split; [exact Hnil |].
    all: rewrite length_app; simpl; repeat split; try reflexivity; lia.
  - apply bool_decide_eq_false in Hnil.
    destruct (prepare_outstanding failed) as [Ho He]; [congruence |].
    split; [rewrite <- Hev; auto |]. split; [rewrite Ho; exact Hout |].
    destruct (events (eng w1)) as [| next rest] eqn:Hq; [contradiction |].
    unfold prepare, prepare_shift, failed. simpl. rewrite Hdial.
    destruct (executing (eng w1)) as [p |]; simpl;
      [destruct (bool_decide (db_dialect (db w) = sqlite)); simpl |].
    all: rewrite ?Hq; simpl; rewrite ?Htasks.
    all: split; [eexists; rewrite <- ?app_assoc; simpl; reflexivity |].
    all: repeat split; reflexivity.
Qed.

(** ** [process] *)

Lemma keeps_rows_refl w : keeps_rows w w.
Proof.
  repeat split. exists []. rewrite app_nil_r. split; [reflexivity | intros ? []].
Qed.

Lemma keeps_rows_trans w1 w2 w3 :
  keeps_rows w1 w2 -> keeps_rows w2 w3 -> keeps_rows w1 w3.
Proof.
  intros (E1 & W1 & cs1 & C1 & N1) (E2 & W2 & cs2 & C2 & N2).
  repeat split; try congruence.
  exists (cs1 ++ cs2). rewrite C2, C1, app_assoc. split; [reflexivity |].
  intros id H. apply in_app_or in H. destruct H; [eapply N1 | eapply N2]; eauto.
Qed.

Lemma keeps_rows_call c w :
  (forall id, c <> Destroy id) -> keeps_rows w (on_db (call c) w).
Proof.
  intros H. repeat split. exists [c]. split; [reflexivity |].
  intros id [E | []]. exact (H id E).
Qed.

Lemma keeps_rows_same_db w w' : db w' = db w -> keeps_rows w w'.
Proof.
  intros E. unfold keeps_rows. rewrite E.
  repeat split. exists []. rewrite app_nil_r. split; [reflexivity | intros ? []].
Qed.

Lemma prepare_keeps_rows w : keeps_rows w (prepare w).
Proof.
  apply keeps_rows_same_db. unfold prepare, prepare_shift.
  repeat case_match; reflexivity.
Qed.

Lemma process_keeps_rows o e j t w : keeps_rows w (process o e j t w).
Proof.
  unfold process, process_start. case_match.
  - apply (keeps_rows_call (UpdateStatus (ex_id e) STARTED t) w). discriminate.
  - apply keeps_rows_same_db. reflexivity.
Qed.

Lemma dispatch_keeps_rows w : keeps_rows w (dispatch w).
Proof.
  unfold dispatch.
  destruct (negb (ready (eng w))); [apply keeps_rows_same_db; reflexivity |].
  case_match; [apply keeps_rows_same_db; reflexivity |].
  case_match; [apply prepare_keeps_rows |].
  destruct (pending (eng (fresh_promise w))) as [| next rest] eqn:E.
  - apply (keeps_rows_call FindQueueing w). discriminate.
  - eapply keeps_rows_trans; [| apply keeps_rows_same_db; reflexivity].
    eapply keeps_rows_trans; [| apply process_keeps_rows].
    apply keeps_rows_same_db. reflexivity.
Qed.

Lemma process_settled_keeps_rows o e b w : keeps_rows w (process_settled o e b w).
Proof.
  unfold process_settled, dispatch_finally. destruct o.
  - eapply keeps_rows_trans; [| apply dispatch_keeps_rows].
    apply keeps_rows_same_db. reflexivity.
  - apply keeps_rows_same_db. reflexivity.
Qed.

Lemma includes_In statuses s : includes statuses s = true <-> In s statuses.
Proof.
  unfold includes, status_eqb. rewrite existsb_exists. split.
  - intros (x & Hin & Hx). apply bool_decide_eq_true in Hx. congruence.
  - intros Hin. exists s. split; [exact Hin | apply bool_decide_eq_true; reflexivity].
Qed.

Lemma should_destroy_true e :
  should_destroy e = Ok true <-> truthy (ex_status e) = true /\ configured e.
Proof.
  unfold should_destroy, configured. split.
  - destruct (truthy (ex_status e)); [| discriminate].
    destruct (ex_workflow e) as [workflow |]; [| discriminate].
    destruct (wf_options workflow) as [options |] eqn:Ho; [| discriminate].
    destruct (deleteExecutionOnStatus options) as [statuses |] eqn:Hs; [| discriminate].
    intros H. injection H as H. apply includes_In in H.
    split; [reflexivity |]. exists workflow, options, statuses. auto.
  - intros (Ht & workflow & options & statuses & Hw & Ho & Hs & Hin).
    rewrite Ht, Hw, Ho, Hs. f_equal. apply includes_In. exact Hin.
Qed.

Lemma find_execution_deleted id l :
  find_execution id (delete_where (is_execution id) l) = None.
Proof.
  unfold find_execution, delete_where, is_execution.
  induction l as [| r l IH]; simpl; [reflexivity |].
  destruct (ex_id r =? id) eqn:E; simpl; [exact IH |].
  rewrite E. exact IH.
Qed.

(** C9 (amended): after the Processor has returned inside [process],
    [destroy()] is called on the execution exactly when its final status
    is truthy (neither [null] nor [0]) and listed in the workflow's
    [deleteExecutionOnStatus]; the resolved call removes the row, and in
    every other case the rows are left as they are. *)
Theorem destroy_iff_truthy_and_configured o e w :
  (destroy_called (ex_id e) w (process_ran o e true w) <->
     truthy (ex_status e) = true /\ configured e) /\
  (forall w2, find_execution (ex_id e)
                (db_executions (db (process_destroyed o e true w2))) = None) /\
  (~ (truthy (ex_status e) = true /\ configured e) ->
     db_executions (db (process_ran o e true w)) = db_executions (db w)).
Proof.
  pose proof (should_destroy_true e) as Hiff.
  set (w1 := logger info (ex_workflowId e) (execution_finished (ex_id e) (ex_status e)) w).
  assert (Hkept : should_destroy e <> Ok true -> keeps_rows w (process_ran o e true w)).
  { intros Hne. unfold process_ran. fold w1.
    destruct (should_destroy e) as [[|] | err]; [congruence | |].
    - eapply keeps_rows_trans; [| apply process_settled_keeps_rows].
      apply keeps_rows_same_db. reflexivity.
    - eapply keeps_rows_trans; [| apply process_settled_keeps_rows].
      apply keeps_rows_same_db. reflexivity. }
  split; [split |split].
  - intros (cs & Hcs & Hin). apply Hiff.
    destruct (should_destroy e) as [[|] | err] eqn:E; [reflexivity | exfalso | exfalso].
    all: destruct Hkept as (_ & _ & cs' & Hcs' & Hno); [congruence |].
    all: rewrite Hcs' in Hcs; apply app_inv_head in Hcs; subst cs'.
    all: exact (Hno _ Hin).
  - intros H. apply Hiff in H. unfold process_ran. rewrite H.
    exists [Destroy (ex_id e)]. split; [reflexivity | left; reflexivity].
  - intros w2. unfold process_destroyed.
    destruct (process_settled_keeps_rows o e true
                (on_db (fun d => with_executions
                   (delete_where (is_execution (ex_id e)) (db_executions d)) d) w2))
      as (Hrows & _).
    rewrite Hrows. simpl. apply find_execution_deleted.
  - intros Hnot. apply Hkept. intros E. apply Hnot, Hiff, E.
Qed.

Lemma process_settled_by_dispatcher p e b w :
  process_settled (ByDispatcher p) e b w =
    dispatch (on_eng (with_executing None)
                (settle (DispatchSettled p b)
                   (settle (ProcessSettled (ByDispatcher p) (ex_id e) b) w))).
Proof. reflexivity. Qed.

(** What [dispatch] does when the engine is ready and idle with an empty
    event queue. *)
Lemma dispatch_takes_next w :
  ready (eng w) = true ->
  executing (eng w) = None ->
  events (eng w) = [] ->
  let p := next_promise w in
  dispatch w =
    on_eng (with_executing (Some p))
      match pending (eng w) with
      | next :: rest =>
        process (ByDispatcher p) next.1 next.2 None
          (logger info (ex_workflowId next.1) (pending_ready (ex_id next.1))
             (on_eng (with_pending rest) (fresh_promise w)))
      | [] => suspend (DispatchPolling p) (on_db (call FindQueueing) (fresh_promise w))
      end.
Proof.
  intros Hready Hexec Hev. unfold dispatch.
  rewrite Hready, Hexec, Hev. simpl.
  destruct (pending (eng w)); reflexivity.
Qed.

(** C6: a throw of the Processor is caught inside [process]: the error
    is logged, [process] returns normally to whoever awaits it, and no
    row is written (the status stays as last persisted). However [process]
    ends, the in-flight operation of the dispatcher then clears
    [executing] and calls [dispatch] again, which takes the head of
    [pending] or polls storage. *)
Theorem process_contains_processor_errors o e p :
  (forall w,
     process_ran o e false w =
       process_settled o e true
         (logger error (ex_workflowId e) (execution_error (ex_id e)) w)) /\
  (forall w,
     db_executions (db (process_ran o e false w)) = db_executions (db w) /\
     ~ destroy_called (ex_id e) w (process_ran o e false w)) /\
  (forall returned w,
     exists w1, engine_frame w w1 /\
       (process_ran (ByDispatcher p) e returned w = process_settled (ByDispatcher p) e true w1 \/
        process_ran (ByDispatcher p) e returned w = suspend (ProcessDestroying (ByDispatcher p) e) w1)) /\
  (forall resolved w,
     exists w1, engine_frame w w1 /\
       process_destroyed (ByDispatcher p) e resolved w =
         process_settled (ByDispatcher p) e true w1) /\
  (forall fulfilled w,
     process_settled (ByDispatcher p) e fulfilled w =
       dispatch (on_eng (with_executing None)
                   (settle (DispatchSettled p fulfilled)
                      (settle (ProcessSettled (ByDispatcher p) (ex_id e) fulfilled) w)))) /\
  (forall fulfilled w,
     ready (eng w) = true -> events (eng w) = [] ->
     let w' := process_settled (ByDispatcher p) e fulfilled w in
     executing (eng w') = Some (next_promise w) /\
     match pending (eng w) with
     | next :: rest =>
       pending (eng w') = rest /\
       exists t, tasks w' = tasks w ++ [t] /\
         (t = ProcessUpdating (ByDispatcher (next_promise w)) next.1 next.2 \/
          t = ProcessRunning (ByDispatcher (next_promise w)) next.1 next.2)
     | [] => tasks w' = tasks w ++ [DispatchPolling (next_promise w)]
     end).
Proof.
  split; [| split; [| split; [| split; [| split]]]].
  - reflexivity.
  - intros w.
    pose proof (process_settled_keeps_rows o e true
                  (logger error (ex_workflowId e) (execution_error (ex_id e)) w))
      as (Hrows & _ & cs & Hcs & Hno).
    split; [exact Hrows |].
    intros (cs' & Hcs' & Hin). unfold process_ran in Hcs'.
    rewrite Hcs in Hcs'. simpl in Hcs'. apply app_inv_head in Hcs'. subst cs'.
    exact (Hno _ Hin).
  - intros returned w. unfold process_ran. destruct returned.
    + destruct (should_destroy e) as [[|] | err];
        eexists; (split; [| (left; reflexivity) || (right; reflexivity)]);
        repeat split.
    + eexists. split; [| left; reflexivity]. repeat split.
  - intros resolved w. unfold process_destroyed.
    destruct resolved; eexists; (split; [| reflexivity]); repeat split.
  - intros fulfilled w. apply process_settled_by_dispatcher.
  - intros fulfilled w Hready Hev w'. subst w'.
    rewrite process_settled_by_dispatcher.
    rewrite dispatch_takes_next; [| exact Hready | reflexivity | exact Hev].
    simpl. destruct (pending (eng w)) as [| next rest]; simpl.
    + split; reflexivity.
    + unfold process, process_start.
      destruct (status_eqb (ex_status next.1) QUEUEING); simpl;
        (split; [reflexivity |]); (split; [reflexivity |]);
        eexists; (split; [reflexivity |]); auto.
Qed.

(** ** [dispatch] *)

Lemma first_by_id_none l : first_by_id l = None -> l = [].
Proof.
  destruct l as [| e l]; [reflexivity |]. simpl.
  destruct (first_by_id l); [destruct (_ <=? _) |]; discriminate.
Qed.

Lemma first_by_id_least l m :
  first_by_id l = Some m ->
  In m l /\ forall r, In r l -> ex_id m <= ex_id r.
Proof.
  revert m. induction l as [| e l IH]; simpl; [discriminate |].
  intros m. destruct (first_by_id l) as [m' |] eqn:E.
  - destruct (IH m' eq_refl) as [Hin Hle].
    destruct (ex_id e <=? ex_id m') eqn:Hcmp; intros H;
      assert (Hm : m = if ex_id e <=? ex_id m' then e else m')
        by (rewrite Hcmp; congruence);
      rewrite Hcmp in Hm; subst m.
    + apply Z.leb_le in Hcmp. split; [left; reflexivity |].
      intros r [<- | Hr]; [lia | specialize (Hle r Hr); lia].
    + apply Z.leb_gt in Hcmp. split; [right; exact Hin |].
      intros r [<- | Hr]; [lia | exact (Hle r Hr)].
  - intros H. assert (m = e) by congruence. subst m.
    split; [left; reflexivity |].
    apply first_by_id_none in E. subst l.
    intros r [<- | []]. lia.
Qed.

(** The poll answers the row of least id among the rows whose status is
    QUEUEING and whose workflow exists and is enabled. *)
Lemma findOne_queueing_some d e :
  findOne_queueing d = Some e ->
  ex_status e = QUEUEING /\
  (exists workflow, ex_workflow e = Some workflow /\ wf_enabled workflow = true) /\
  (exists row, In row (db_executions d) /\ ex_id row = ex_id e) /\
  forall r, In r (db_executions d) -> queueing_filter d r = true -> ex_id e <= ex_id r.
Proof.
  unfold findOne_queueing.
  destruct (first_by_id _) as [m |] eqn:E; [| discriminate].
  intros H. injection H as <-. simpl.
  apply first_by_id_least in E. destruct E as [Hin Hle].
  apply List.filter_In in Hin. destruct Hin as [Hin Hf].
  unfold queueing_filter in Hf. apply andb_true_iff in Hf. destruct Hf as [Hs Hw].
  split; [apply bool_decide_eq_true in Hs; exact Hs |].
  split.
  { destruct (workflow_of d m) as [workflow |]; [| discriminate]. eauto. }
  split; [eauto |].
  intros r Hr Hfr. apply Hle. apply List.filter_In. auto.
Qed.

Lemma findOne_queueing_none d :
  findOne_queueing d = None ->
  forall r, In r (db_executions d) -> queueing_filter d r = false.
Proof.
  unfold findOne_queueing.
  destruct (first_by_id _) as [m |] eqn:E; [discriminate |]. intros _ r Hr.
  apply first_by_id_none in E.
  destruct (queueing_filter d r) eqn:Hf; [| reflexivity].
  assert (Hin : In r (List.filter (queueing_filter d) (db_executions d)))
    by (apply List.filter_In; auto).
  rewrite E in Hin. destruct Hin.
Qed.

Lemma prepare_no_process w :
  omap in_flight (tasks (prepare w)) = omap in_flight (tasks w) /\
  List.filter is_process (tasks (prepare w)) = List.filter is_process (tasks w) /\
  pending (eng (prepare w)) = pending (eng w) /\
  executing (eng (prepare w)) = executing (eng w).
Proof.
  unfold prepare, prepare_shift.
  repeat case_match; simpl; rewrite ?omap_app, ?filter_snoc, ?app_nil_r; auto.
Qed.

(** [start] and [resume] put their entry at the end of [pending]. *)
Lemma pending_grows_at_the_end :
  (forall e w,
     ex_status e = STARTED ->
     start e w = dispatch (on_eng (with_pending (pending (eng w) ++ [(e, None)])) w)) /\
  (forall e j w,
     resume_push e j w =
       dispatch (on_eng (with_pending (pending (eng w) ++ [(e, Some j)]))
                   (logger info (ex_workflowId e)
                      (resuming_added_to_pending (ex_id e) (job_id j)) w))).
Proof.
  split.
  - intros e w H. unfold start, status_eqb.
    rewrite bool_decide_eq_true_2 by exact H. reflexivity.
  - reflexivity.
Qed.


(** ** The status of an execution *)

Lemma createExecution_rows orc workflow context options w :
  let r := createExecution orc workflow context options w in
  let s := if deferred options then STARTED else QUEUEING in
  (db_executions (db r.2) = db_executions (db w) /\ forall e, r.1 <> Ok (Some e)) \/
  (exists row,
     db_executions (db r.2) = db_executions (db w) ++ [row] /\
     ex_status row = s /\
     forall e, r.1 = Ok (Some e) -> ex_id e = ex_id row /\ ex_status e = s).
Proof.
  unfold createExecution, bind, in_transaction, try_catch, useDataSourceTransaction,
    validateEvent, insert_execution, increment, reload, update_allExecuted,
    commit, rollback, when, storage, act, ret, throw, bind.
  simpl.
  repeat (case_match; simplify_eq/=); try (left; split; [reflexivity | congruence]).
  all: right; eexists; split; [reflexivity |]; split; [reflexivity |].
  all: intros; simplify_eq/=; auto.
Qed.

Lemma rows_toggle workflow enable silent t w :
  db (toggle workflow enable silent t w) = db w.
Proof. unfold toggle. repeat case_match; reflexivity. Qed.

Lemma rows_toggle_all enable silent t l w :
  db (fold_left (fun w workflow => toggle workflow enable silent t w) l w) = db w.
Proof.
  revert w. induction l as [| x l IH]; intros w; simpl; [reflexivity |].
  rewrite IH. apply rows_toggle.
Qed.

Lemma rows_prepare w : db_executions (db (prepare w)) = db_executions (db w).
Proof. apply prepare_keeps_rows. Qed.

Lemma rows_process o e j t w :
  db_executions (db (process o e j t w)) = db_executions (db w).
Proof. apply process_keeps_rows. Qed.

Lemma rows_dispatch w : db_executions (db (dispatch w)) = db_executions (db w).
Proof. apply dispatch_keeps_rows. Qed.

Lemma rows_process_settled o e b w :
  db_executions (db (process_settled o e b w)) = db_executions (db w).
Proof. apply process_settled_keeps_rows. Qed.

Lemma rows_dispatch_finally p next b w :
  db_executions (db (dispatch_finally p next b w)) = db_executions (db w).
Proof.
  unfold dispatch_finally. destruct next; [rewrite rows_dispatch |]; reflexivity.
Qed.

Create Rewrite HintDb rows.

#[local] Hint Rewrite rows_toggle rows_toggle_all rows_prepare rows_process
  rows_dispatch rows_process_settled rows_dispatch_finally : rows.

Ltac same_rows :=
  repeat (case_match; simplify_eq/=);
  repeat (progress (simpl; autorewrite with rows));
  try reflexivity.

Lemma rows_trigger workflow context options w :
  db_executions (db (trigger workflow context options w).2) = db_executions (db w).
Proof. unfold trigger, triggerSync. same_rows. Qed.

Lemma rows_resume job w : db_executions (db (resume job w)) = db_executions (db w).
Proof. unfold resume, resume_push. same_rows. Qed.

Lemma rows_resume_loaded job b w :
  db_executions (db (resume_loaded job b w)) = db_executions (db w).
Proof. unfold resume_loaded, resume_push. same_rows. Qed.

Lemma rows_start e w : db_executions (db (start e w)) = db_executions (db w).
Proof. unfold start. same_rows. Qed.

Lemma rows_save instance t w :
  db_executions (db (save instance t w)) = db_executions (db w).
Proof. unfold save, onBeforeSave. same_rows. Qed.

Lemma rows_afterStart_loaded w :
  db_executions (db (afterStart_loaded w)) = db_executions (db w).
Proof. unfold afterStart_loaded. same_rows. Qed.

Lemma rows_beforeStop w : db_executions (db (beforeStop w)) = db_executions (db w).
Proof. unfold beforeStop. same_rows. Qed.

Lemma rows_prepare_created event r w :
  db_executions (db (prepare_created event r w)) = db_executions (db w).
Proof. unfold prepare_created. same_rows. Qed.

Lemma rows_triggerSync_created workflow options r w :
  db_executions (db (triggerSync_created workflow options r w)) = db_executions (db w).
Proof. unfold triggerSync_created. same_rows. Qed.

Lemma rows_dispatch_polled p b w :
  db_executions (db (dispatch_polled p b w)) = db_executions (db w).
Proof. unfold dispatch_polled. same_rows. Qed.

Lemma rows_process_ran o e b w :
  db_executions (db (process_ran o e b w)) = db_executions (db w).
Proof. unfold process_ran. same_rows. Qed.

Lemma rows_handleSyncMessage_received message w :
  db_executions (db (handleSyncMessage_received message w)) = db_executions (db w).
Proof. unfold handleSyncMessage_received. same_rows. Qed.

Lemma rows_handleSyncMessage_loaded cached id b w :
  db_executions (db (handleSyncMessage_loaded cached id b w)) = db_executions (db w).
Proof. unfold handleSyncMessage_loaded. same_rows. Qed.

Lemma forward_refl l : forward l l.
Proof. intros r' H _. left. exact H. Qed.

Lemma forward_eq l l' : l' = l -> forward l l'.
Proof. intros ->. apply forward_refl. Qed.

Lemma forward_started id l :
  QUEUEING <> STARTED ->
  forward l (update_where (is_execution id) (set_status STARTED) l).
Proof.
  intros Hne r' Hin Hq. left. unfold update_where in Hin.
  apply in_map_iff in Hin. destruct Hin as (r & Hr & Hin).
  destruct (is_execution id r); subst r'; [| exact Hin].
  simpl in Hq. congruence.
Qed.

Lemma forward_deleted id l : forward l (delete_where (is_execution id) l).
Proof.
  intros r' Hin _. left. unfold delete_where in Hin.
  apply List.filter_In in Hin. tauto.
Qed.

Lemma rows_process_updated o e j b w :
  db_executions (db (process_updated o e j b w)) =
    if b then update_where (is_execution (ex_id e)) (set_status STARTED)
                (db_executions (db w))
    else db_executions (db w).
Proof. unfold process_updated, process_start. same_rows. Qed.

Lemma rows_process_destroyed o e b w :
  db_executions (db (process_destroyed o e b w)) =
    if b then delete_where (is_execution (ex_id e)) (db_executions (db w))
    else db_executions (db w).
Proof. unfold process_destroyed. same_rows. Qed.

Lemma forward_created orc workflow context options w :
  forward (db_executions (db w))
    (db_executions (db (createExecution orc workflow context options w).2)).
Proof.
  destruct (createExecution_rows orc workflow context options w)
    as [[-> _] | (row & -> & _)]; [apply forward_refl |].
  intros r' Hin _. apply in_app_or in Hin.
  destruct Hin as [Hin | [<- | []]]; auto.
Qed.

Lemma run_forward t a w w' :
  QUEUEING <> STARTED ->
  run t a w = Some w' ->
  forward (db_executions (db w)) (db_executions (db w')).
Proof.
  intros Hne Hrun.
  destruct t; simpl in Hrun.
  - destruct a; simplify_eq. apply forward_eq, rows_prepare.
  - destruct a; repeat case_match; simplify_eq;
      apply forward_eq; unfold prepare_shift; same_rows.
  - destruct a; try discriminate.
    pose proof (forward_created orc ev.1.1 ev.1.2 ev.2 w) as Hf.
    destruct (createExecution orc ev.1.1 ev.1.2 ev.2 w) as [r w1].
    simplify_eq. rewrite rows_prepare_created. exact Hf.
  - destruct a; try discriminate.
    pose proof (forward_created orc wf c o w) as Hf.
    destruct (createExecution orc wf c o w) as [r w1].
    simplify_eq. rewrite rows_triggerSync_created. exact Hf.
  - destruct a; simplify_eq; apply forward_eq, rows_dispatch_polled.
  - destruct a; simplify_eq; rewrite rows_process_updated; simpl;
      [apply forward_started; exact Hne | apply forward_refl].
  - destruct a; simplify_eq; apply forward_eq, rows_process_ran.
  - destruct a; simplify_eq; rewrite rows_process_destroyed; simpl;
      [apply forward_deleted | apply forward_refl].
  - destruct a; simplify_eq; apply forward_eq, rows_resume_loaded.
  - destruct a; simplify_eq; apply forward_eq;
      [apply rows_afterStart_loaded | reflexivity].
  - destruct a; simplify_eq. apply forward_refl.
  - destruct a; simplify_eq; apply forward_eq, rows_handleSyncMessage_loaded.
Qed.

Lemma step_forward l w w' :
  QUEUEING <> STARTED ->
  by_engine l = true ->
  step l w = Some w' ->
  forward (db_executions (db w)) (db_executions (db w')).
Proof.
  intros Hne Hl Hstep. destruct l; simpl in Hstep; try discriminate.
  - simplify_eq. apply forward_eq, rows_trigger.
  - simplify_eq. apply forward_eq, rows_resume.
  - simplify_eq. apply forward_eq, rows_start.
  - simplify_eq. apply forward_eq, rows_save.
  - destruct (checker (eng w)); simplify_eq. apply forward_eq, rows_dispatch.
  - simplify_eq. apply forward_refl.
  - simplify_eq. apply forward_eq, rows_beforeStop.
  - destruct (tasks w !! i) as [t |]; [| discriminate].
    apply (run_forward t a _ _ Hne) in Hstep. exact Hstep.
  - simplify_eq. apply forward_eq, rows_handleSyncMessage_received.
Qed.


(** ** The [beforeSave] hook *)

Lemma In_update_where {A} (p : A -> bool) f l x :
  In x (update_where p f l) ->
  exists r, In r l /\ x = if p r then f r else r.
Proof.
  unfold update_where. intros H. apply in_map_iff in H.
  destruct H as (r & <- & Hin). eauto.
Qed.

Lemma other_current_spec instance r :
  other_current instance r = true <->
  wf_key r = wf_key instance /\ wf_current r = Some true /\ wf_id r <> wf_id instance.
Proof.
  unfold other_current, has_key, is_current, has_id.
  rewrite !andb_true_iff, !bool_decide_eq_true, negb_true_iff, Z.eqb_neq. tauto.
Qed.

(** The table after a save. *)
Lemma save_workflows instance t w :
  let table := db_workflows (db w) in
  let instance0 := enabled_is_current instance in
  let previous := List.find (other_current instance0) table in
  let instance' :=
    if bool_decide (is_Some previous) then instance0
    else set_current (Some true) instance0 in
  let table1 :=
    match previous with
    | Some previous =>
      if is_current instance'
      then update_where (has_id (wf_id previous)) demote table
      else table
    | None => table
    end in
  db_workflows (db (save instance t w)) =
    if existsb (has_id (wf_id instance')) table1
    then update_where (has_id (wf_id instance')) (fun _ => instance') table1
    else table1 ++ [instance'].
Proof.
  unfold save, onBeforeSave, enabled_is_current. simpl.
  repeat (case_match; simplify_eq/=);
    repeat (progress (simpl in *; rewrite ?rows_toggle in * ));
    simplify_eq/=; try reflexivity; try congruence.
Qed.

Lemma set_current_fields c r :
  wf_id (set_current c r) = wf_id r /\ wf_key (set_current c r) = wf_key r.
Proof. split; reflexivity. Qed.

Lemma enabled_is_current_fields r :
  wf_id (enabled_is_current r) = wf_id r /\ wf_key (enabled_is_current r) = wf_key r.
Proof. unfold enabled_is_current. destruct (wf_enabled r); split; reflexivity. Qed.

Lemma save_unique_current instance t w :
  unique_current (db_workflows (db w)) ->
  unique_current (db_workflows (db (save instance t w))).
Proof.
  intros Huniq. rewrite save_workflows.
  set (table := db_workflows (db w)) in *.
  set (instance0 := enabled_is_current instance).
  set (previous := List.find (other_current instance0) table).
  set (instance' := if bool_decide (is_Some previous) then instance0
                    else set_current (Some true) instance0).
  set (table1 := match previous with
                 | Some previous =>
                   if is_current instance'
                   then update_where (has_id (wf_id previous)) demote table
                   else table
                 | None => table
                 end).
  set (final := if existsb (has_id (wf_id instance')) table1
                then update_where (has_id (wf_id instance')) (fun _ => instance') table1
                else table1 ++ [instance']).
  assert (Hfields : wf_id instance' = wf_id instance0 /\ wf_key instance' = wf_key instance0).
  { unfold instance'. destruct (bool_decide _); split; reflexivity. }
  destruct Hfields as [Hid Hkey].
  (* the rows of the first table that are still current come from the old one *)
  assert (H1 : forall x, In x table1 -> wf_current x = Some true ->
                 In x table /\
                 forall prev, previous = Some prev -> is_current instance' = true ->
                              wf_id x <> wf_id prev).
  { intros x Hx Hc. unfold table1 in Hx.
    destruct previous as [prev |] eqn:Hprev; [| split; [exact Hx | discriminate]].
    destruct (is_current instance') eqn:Hcur; [| split; [exact Hx | discriminate]].
    apply In_update_where in Hx. destruct Hx as (r & Hr & ->).
    unfold has_id in *. destruct (wf_id r =? wf_id prev) eqn:E; [discriminate |].
    split; [exact Hr |]. intros prev' Hp _. injection Hp as <-.
    apply Z.eqb_neq. exact E. }
  (* the current rows of the final table *)
  assert (H2 : forall x, In x final -> wf_current x = Some true ->
                 x = instance' \/
                 (In x table /\ wf_id x <> wf_id instance' /\
                  forall prev, previous = Some prev -> is_current instance' = true ->
                               wf_id x <> wf_id prev)).
  { intros x Hx Hc. unfold final in Hx.
    destruct (existsb (has_id (wf_id instance')) table1) eqn:Hex.
    - apply In_update_where in Hx. destruct Hx as (r & Hr & ->).
      unfold has_id in *. destruct (wf_id r =? wf_id instance') eqn:E; [left; reflexivity |].
      right. destruct (H1 r Hr Hc) as [Hin Hprev].
      split; [exact Hin |]. split; [apply Z.eqb_neq; exact E | exact Hprev].
    - apply in_app_or in Hx. destruct Hx as [Hx | [<- | []]]; [| left; reflexivity].
      right. destruct (H1 x Hx Hc) as [Hin Hprev].
      split; [exact Hin |]. split; [| exact Hprev].
      intros E. assert (Hn : existsb (has_id (wf_id instance')) table1 = true).
      { apply existsb_exists. exists x. split; [exact Hx |].
        unfold has_id. apply Z.eqb_eq. exact E. }
      congruence. }
  (* the instance, when current, excludes every other current row of its key *)
  assert (H3 : forall x, wf_current instance' = Some true ->
                 In x table -> wf_current x = Some true ->
                 wf_key x = wf_key instance' -> wf_id x <> wf_id instance' ->
                 (forall prev, previous = Some prev -> is_current instance' = true ->
                               wf_id x <> wf_id prev) ->
                 False).
  { intros x Hci Hx Hcx Hk Hne Hprev.
    assert (Hoc : other_current instance0 x = true).
    { apply other_current_spec. rewrite <- Hid, <- Hkey. auto. }
    destruct previous as [prev |] eqn:Hp.
    - pose proof Hp as Hfound. unfold previous in Hfound.
      apply List.find_some in Hfound. destruct Hfound as [Hin Hocp].
      apply other_current_spec in Hocp. destruct Hocp as (Hkp & Hcp & _).
      apply (Hprev prev eq_refl).
      { unfold is_current. apply bool_decide_eq_true. exact Hci. }
      apply Huniq; auto. rewrite Hk, Hkey. symmetry. exact Hkp.
    - unfold previous in Hp.
      pose proof (List.find_none _ _ Hp x Hx) as Hn. congruence. }
  intros r1 r2 Hr1 Hr2 Hk Hc1 Hc2.
  destruct (H2 r1 Hr1 Hc1) as [-> | (Hin1 & Hne1 & Hp1)];
    destruct (H2 r2 Hr2 Hc2) as [-> | (Hin2 & Hne2 & Hp2)].
  - reflexivity.
  - exfalso. apply (H3 r2); auto.
  - exfalso. apply (H3 r1); auto.
  - apply Huniq; auto.
Qed.

(** *** No other step of the engine touches [key] or [current] *)

Lemma same_identity_refl l : Forall2 same_identity l l.
Proof. induction l; constructor; [repeat split | assumption]. Qed.

Lemma same_identity_counters p f l :
  (forall r, same_identity r (f r)) ->
  Forall2 same_identity l (update_where p f l).
Proof.
  intros Hf. induction l as [| r l IH]; simpl; constructor; [| exact IH].
  destruct (p r); [apply Hf | repeat split].
Qed.

Lemma same_identity_trans l1 l2 l3 :
  Forall2 same_identity l1 l2 -> Forall2 same_identity l2 l3 ->
  Forall2 same_identity l1 l3.
Proof.
  intros H12. revert l3. induction H12 as [| a b l1 l2 Hab _ IH]; intros l3 H23.
  - inversion H23. constructor.
  - inversion H23 as [| b' c l2' l3' Hbc Hrest]; subst. constructor; [| apply IH, Hrest].
    destruct Hab as (?&?&?), Hbc as (?&?&?). repeat split; congruence.
Qed.

Lemma Forall2_In_r {A B} (R : A -> B -> Prop) l l' y :
  Forall2 R l l' -> In y l' -> exists x, In x l /\ R x y.
Proof.
  induction 1 as [| a b l l' Hab _ IH]; intros Hin; [destruct Hin |].
  destruct Hin as [<- | Hin]; [exists a; split; [left; reflexivity | exact Hab] |].
  destruct (IH Hin) as (x & Hx & HR). exists x. split; [right; exact Hx | exact HR].
Qed.

Lemma unique_current_same_identity l l' :
  Forall2 same_identity l l' -> unique_current l -> unique_current l'.
Proof.
  intros HF Huniq r1' r2' H1 H2 Hk Hc1 Hc2.
  destruct (Forall2_In_r _ _ _ _ HF H1) as (r1 & Hr1 & Hi1 & Hk1 & Hcur1).
  destruct (Forall2_In_r _ _ _ _ HF H2) as (r2 & Hr2 & Hi2 & Hk2 & Hcur2).
  rewrite Hi1, Hi2. apply Huniq; congruence.
Qed.

Lemma createExecution_workflows orc workflow context options w :
  Forall2 same_identity (db_workflows (db w))
    (db_workflows (db (createExecution orc workflow context options w).2)).
Proof.
  unfold createExecution, bind, in_transaction, try_catch, useDataSourceTransaction,
    validateEvent, insert_execution, increment, reload, update_allExecuted,
    commit, rollback, when, storage, act, ret, throw, bind.
  simpl.
  repeat (case_match; simplify_eq/=); try apply same_identity_refl.
  all: repeat first
         [ apply same_identity_counters; intros; repeat split
         | eapply same_identity_trans;
           [| apply same_identity_counters; intros; repeat split] ].
Qed.

Lemma workflows_prepare w : db_workflows (db (prepare w)) = db_workflows (db w).
Proof. apply prepare_keeps_rows. Qed.

Lemma workflows_process o e j t w :
  db_workflows (db (process o e j t w)) = db_workflows (db w).
Proof. apply process_keeps_rows. Qed.

Lemma workflows_dispatch w : db_workflows (db (dispatch w)) = db_workflows (db w).
Proof. apply dispatch_keeps_rows. Qed.

Lemma workflows_process_settled o e b w :
  db_workflows (db (process_settled o e b w)) = db_workflows (db w).
Proof. apply process_settled_keeps_rows. Qed.

Lemma workflows_dispatch_finally p next b w :
  db_workflows (db (dispatch_finally p next b w)) = db_workflows (db w).
Proof.
  unfold dispatch_finally. destruct next; [rewrite workflows_dispatch |]; reflexivity.
Qed.

Create Rewrite HintDb workflows.

#[local] Hint Rewrite rows_toggle rows_toggle_all workflows_prepare workflows_process
  workflows_dispatch workflows_process_settled workflows_dispatch_finally : workflows.

Ltac same_workflows :=
  repeat (case_match; simplify_eq/=);
  repeat (progress (simpl; autorewrite with workflows));
  try reflexivity.

Lemma run_workflows t a w w' :
  run t a w = Some w' ->
  Forall2 same_identity (db_workflows (db w)) (db_workflows (db w')).
Proof.
  intros Hrun.
  assert (Heq : db_workflows (db w') = db_workflows (db w) ->
                Forall2 same_identity (db_workflows (db w)) (db_workflows (db w')))
    by (intros ->; apply same_identity_refl).
  destruct t; simpl in Hrun.
  - destruct a; simplify_eq. apply Heq, workflows_prepare.
  - destruct a; repeat case_match; simplify_eq; apply Heq;
      unfold prepare_shift; same_workflows.
  - destruct a; try discriminate.
    pose proof (createExecution_workflows orc ev.1.1 ev.1.2 ev.2 w) as Hf.
    destruct (createExecution orc ev.1.1 ev.1.2 ev.2 w) as [r w1].
    simplify_eq. simpl in Hf.
    replace (db_workflows (db (prepare_created ev r w1))) with (db_workflows (db w1));
      [exact Hf |].
    unfold prepare_created. same_workflows.
  - destruct a; try discriminate.
    pose proof (createExecution_workflows orc wf c o w) as Hf.
    destruct (createExecution orc wf c o w) as [r w1].
    simplify_eq. simpl in Hf.
    replace (db_workflows (db (triggerSync_created wf o r w1)))
      with (db_workflows (db w1)); [exact Hf |].
    unfold triggerSync_created. same_workflows.
  - destruct a; simplify_eq; apply Heq; unfold dispatch_polled; same_workflows.
  - destruct a; simplify_eq; apply Heq; unfold process_updated, process_start;
      same_workflows.
  - destruct a; simplify_eq; apply Heq; unfold process_ran; same_workflows.
  - destruct a; simplify_eq; apply Heq; unfold process_destroyed; same_workflows.
  - destruct a; simplify_eq; apply Heq; unfold resume_loaded, resume_push;
      same_workflows.
  - destruct a; simplify_eq; apply Heq; [unfold afterStart_loaded; same_workflows |].
    reflexivity.
  - destruct a; simplify_eq. apply Heq. reflexivity.
  - destruct a; simplify_eq; apply Heq; unfold handleSyncMessage_loaded; same_workflows.
Qed.

Lemma step_unique_current l w w' :
  unique_current (db_workflows (db w)) ->
  step l w = Some w' ->
  unique_current (db_workflows (db w')).
Proof.
  intros Huniq Hstep.
  assert (Heq : db_workflows (db w') = db_workflows (db w) ->
                unique_current (db_workflows (db w'))) by (intros ->; exact Huniq).
  destruct l; simpl in Hstep.
  - simplify_eq. apply Heq. unfold trigger, triggerSync. same_workflows.
  - simplify_eq. apply Heq. unfold resume, resume_push. same_workflows.
  - simplify_eq. apply Heq. unfold start. same_workflows.
  - simplify_eq. apply save_unique_current, Huniq.
  - destruct (checker (eng w)); simplify_eq. apply Heq, workflows_dispatch.
  - simplify_eq. apply Heq. reflexivity.
  - simplify_eq. apply Heq. unfold beforeStop. same_workflows.
  - destruct (tasks w !! i) as [t |]; [| discriminate].
    apply run_workflows in Hstep.
    eapply unique_current_same_identity; [exact Hstep | exact Huniq].
  - destruct (tasks w !! i) as [t |]; [| discriminate].
    destruct t; try discriminate. simplify_eq. exact Huniq.
  - simplify_eq. apply Heq. unfold handleSyncMessage_received. same_workflows.
Qed.

Lemma reachable_unique_current w0 w :
  unique_current (db_workflows (db w0)) ->
  reachable w0 w ->
  unique_current (db_workflows (db w)).
Proof.
  intros H0 [ls Hexec]. revert w0 H0 Hexec.
  induction ls as [| l ls IH]; intros w0 H0 Hexec; simpl in Hexec.
  - simplify_eq. exact H0.
  - destruct (step l w0) as [w1 |] eqn:Hstep; [| discriminate].
    eapply IH; [| exact Hexec]. eapply step_unique_current; eassumption.
Qed.

Lemma onBeforeSave_demotes instance t w previous :
  List.find (other_current (enabled_is_current instance)) (db_workflows (db w)) =
    Some previous ->
  is_current (enabled_is_current instance) = true ->
  onBeforeSave instance t w =
    (enabled_is_current instance,
     toggle (demote previous) (Some false) false t
       (on_db (fun d => with_workflows
                 (update_where (has_id (wf_id previous)) demote (db_workflows d)) d)
          (on_db (call (DemoteWorkflow (wf_id previous) t))
             (on_db (call (FindPrevious (wf_key (enabled_is_current instance))
                             (wf_id (enabled_is_current instance)) t)) w)))).
Proof.
  intros Hfind Hcur. unfold onBeforeSave. fold (enabled_is_current instance).
  simpl. rewrite Hfind. simpl. rewrite Hcur. reflexivity.
Qed.

(** C1: a save keeps at most one current workflow per key, and so does
    every other step of the engine, hence every world reached from one
    where it holds. When the saved version is (or becomes) current and
    another version of its key is current, the hook writes [enabled = false, current = null] to that
    version under the transaction of the save and calls [toggle] on it
    with [false]: with a registered trigger, [off] is called, the version
    leaves [enabledCache] and the change is announced. *)
Theorem one_current_workflow_per_key instance t w :
  unique_current (db_workflows (db w)) ->
  unique_current (db_workflows (db (save instance t w))) /\
  (forall w', reachable w w' -> unique_current (db_workflows (db w'))) /\
  forall previous,
    List.find (other_current (enabled_is_current instance)) (db_workflows (db w)) =
      Some previous ->
    is_current (enabled_is_current instance) = true ->
    let hook := onBeforeSave instance t w in
    hook.1 = enabled_is_current instance /\
    db_workflows (db hook.2) =
      update_where (has_id (wf_id previous)) demote (db_workflows (db w)) /\
    (forall r, In r (db_workflows (db hook.2)) -> wf_id r = wf_id previous ->
               wf_enabled r = false /\ wf_current r = None) /\
    db_calls (db hook.2) =
      db_calls (db w) ++
        [FindPrevious (wf_key instance) (wf_id instance) t;
         DemoteWorkflow (wf_id previous) t] /\
    (forall trig,
       triggers (eng w) !! wf_type previous = Some trig ->
       enabledCache (eng hook.2) !! wf_id previous = None /\
       effects hook.2 =
         effects w ++ [TriggerOff (wf_id previous) (wf_config previous);
                       SyncMessage (wf_id previous) false t]).
Proof.
  intros Huniq. split; [apply save_unique_current; exact Huniq |].
  split; [intros w'; apply reachable_unique_current; exact Huniq |].
  intros previous Hfind Hcur hook. subst hook.
  rewrite (onBeforeSave_demotes _ _ _ _ Hfind Hcur).
  destruct (enabled_is_current_fields instance) as [Hid Hkey].
  rewrite Hid, Hkey. simpl.
  split; [reflexivity |]. rewrite rows_toggle. simpl.
  split; [reflexivity |]. split; [| split].
  - intros r Hr Hrid. apply In_update_where in Hr. destruct Hr as (r0 & _ & ->).
    unfold has_id in *. destruct (wf_id r0 =? wf_id previous) eqn:E.
    + split; reflexivity.
    + apply Z.eqb_neq in E. contradiction.
  - rewrite <- app_assoc. reflexivity.
  - intros trig Htrig. unfold toggle. simpl. rewrite Htrig. simpl.
    split; [apply lookup_delete_eq |]. rewrite <- app_assoc. reflexivity.
Qed.

(** ** Mutual exclusion of the dispatcher *)

Ltac use_equations :=
  repeat match goal with
         | H : ?x = _ |- context [?x] => rewrite H
         end.

Ltac decided :=
  repeat match goal with
         | H : bool_decide (is_Some _) = false |- _ =>
           apply bool_decide_eq_false in H; rewrite <- eq_None_not_Some in H
         | H : bool_decide (is_Some _) = true |- _ =>
           apply bool_decide_eq_true in H; destruct H as [? H]
         | H : _ /\ _ |- _ => destruct H
         | H : negb _ = true |- _ => apply negb_true_iff in H
         | H : negb _ = false |- _ => apply negb_false_iff in H
         end.

Ltac excl :=
  intros; unfold exclusive, resumable in *; decided;
  repeat (case_match; simplify_eq/=); decided;
  repeat (progress (simpl in *; rewrite ?omap_app, ?app_nil_r in * ));
  simplify_eq/=; use_equations; simpl;
  try done; try congruence.

Lemma prepare_exclusive w : exclusive w -> exclusive (prepare w).
Proof. unfold prepare, prepare_shift. excl. Qed.

Lemma dispatch_exclusive w : exclusive w -> exclusive (dispatch w).
Proof. unfold dispatch, prepare, prepare_shift, process, process_start. excl. Qed.

Lemma process_exclusive o e j t w :
  resumable o w -> exclusive (process o e j t w).
Proof. unfold process, process_start. destruct o; excl. Qed.

Lemma dispatch_finally_exclusive p next b w :
  omap in_flight (tasks w) = [] -> exclusive (dispatch_finally p next b w).
Proof.
  unfold dispatch_finally, dispatch, prepare, prepare_shift, process, process_start.
  excl.
Qed.

Lemma process_settled_exclusive o e b w :
  resumable o w -> exclusive (process_settled o e b w).
Proof.
  unfold process_settled. destruct o; [| excl].
  intros [H _]. apply dispatch_finally_exclusive. exact H.
Qed.

Lemma process_updated_exclusive o e j b w :
  resumable o w -> exclusive (process_updated o e j b w).
Proof.
  unfold process_updated. destruct b; [| apply process_settled_exclusive].
  unfold process_start. destruct o; excl.
Qed.

Lemma process_ran_exclusive o e b w :
  resumable o w -> exclusive (process_ran o e b w).
Proof.
  intros H. unfold process_ran.
  repeat case_match; try (apply process_settled_exclusive; destruct o; excl).
  destruct o; excl.
Qed.

Lemma process_destroyed_exclusive o e b w :
  resumable o w -> exclusive (process_destroyed o e b w).
Proof.
  intros H. unfold process_destroyed.
  apply process_settled_exclusive. destruct b, o; excl.
Qed.

Lemma dispatch_polled_exclusive p b w :
  resumable (ByDispatcher p) w -> exclusive (dispatch_polled p b w).
Proof.
  intros H. unfold dispatch_polled.
  repeat case_match; try (apply dispatch_finally_exclusive; excl).
  apply process_exclusive. excl.
Qed.

Lemma toggle_exclusive workflow enable silent t w :
  exclusive w -> exclusive (toggle workflow enable silent t w).
Proof. unfold toggle. excl. Qed.

Lemma toggle_all_exclusive enable silent t l w :
  exclusive w ->
  exclusive (fold_left (fun w workflow => toggle workflow enable silent t w) l w).
Proof.
  revert w. induction l as [| x l IH]; intros w H; simpl; [exact H |].
  apply IH, toggle_exclusive, H.
Qed.

Lemma createExecution_exclusive orc workflow context options w :
  exclusive w -> exclusive (createExecution orc workflow context options w).2.
Proof.
  intros H. destruct (framed_createExecution orc workflow context options w)
    as (Heng & Htasks & _).
  unfold exclusive. rewrite Heng, Htasks. exact H.
Qed.

Lemma prepare_created_exclusive event r w :
  exclusive w -> exclusive (prepare_created event r w).
Proof.
  intros H. unfold prepare_created.
  repeat case_match; (apply prepare_exclusive || apply dispatch_exclusive); excl.
Qed.

Lemma triggerSync_created_exclusive workflow options r w :
  exclusive w -> exclusive (triggerSync_created workflow options r w).
Proof.
  intros H. unfold triggerSync_created.
  repeat case_match; try (apply (process_exclusive ByCaller)); excl.
Qed.

Lemma trigger_exclusive workflow context options w :
  exclusive w -> exclusive (trigger workflow context options w).2.
Proof. unfold trigger, triggerSync. excl. Qed.

Lemma resume_exclusive job w : exclusive w -> exclusive (resume job w).
Proof.
  intros H. unfold resume, resume_push.
  case_match; [apply dispatch_exclusive |]; excl.
Qed.

Lemma resume_loaded_exclusive job b w :
  exclusive w -> exclusive (resume_loaded job b w).
Proof.
  intros H. unfold resume_loaded, resume_push.
  repeat case_match; try apply dispatch_exclusive; excl.
Qed.

Lemma start_exclusive e w : exclusive w -> exclusive (start e w).
Proof.
  intros H. unfold start. case_match; [exact H |]. apply dispatch_exclusive. excl.
Qed.

Lemma onBeforeSave_exclusive instance t w :
  exclusive w -> exclusive (onBeforeSave instance t w).2.
Proof.
  intros H. unfold onBeforeSave.
  repeat case_match; simpl; try apply toggle_exclusive; excl.
Qed.

Lemma save_exclusive instance t w : exclusive w -> exclusive (save instance t w).
Proof.
  intros H. unfold save.
  pose proof (onBeforeSave_exclusive instance t w H) as H'.
  destruct (onBeforeSave instance t w) as [instance' w']. simpl in H'.
  repeat case_match; try apply toggle_exclusive; excl.
Qed.

Lemma afterStart_loaded_exclusive w : exclusive w -> exclusive (afterStart_loaded w).
Proof.
  intros H. unfold afterStart_loaded. apply dispatch_exclusive.
  pose proof (toggle_all_exclusive (Some true) true None
                (List.filter wf_enabled (db_workflows (db w))) w H) as H'.
  excl.
Qed.

Lemma beforeStop_exclusive w : exclusive w -> exclusive (beforeStop w).
Proof.
  intros H. unfold beforeStop.
  pose proof (toggle_all_exclusive (Some false) true None
                (map snd (map_to_list (enabledCache (eng w)))) w H) as H'.
  case_match; [| excl].
  assert (Hp : forall w0, exclusive w0 -> exclusive (suspend StopWaiting (prepare w0))).
  { intros w0 Hw0. apply prepare_exclusive in Hw0. excl. }
  apply Hp. excl.
Qed.

Lemma prepare_shift_exclusive w : exclusive w -> exclusive (prepare_shift w).
Proof. unfold prepare_shift. excl. Qed.

Lemma handleSyncMessage_received_exclusive message w :
  exclusive w -> exclusive (handleSyncMessage_received message w).
Proof.
  intros H. unfold handleSyncMessage_received.
  repeat case_match; try exact H; try (apply toggle_exclusive, H).
  all: excl.
Qed.

Lemma handleSyncMessage_loaded_exclusive cached id b w :
  exclusive w -> exclusive (handleSyncMessage_loaded cached id b w).
Proof.
  intros H. unfold handleSyncMessage_loaded.
  repeat case_match; try exact H; apply toggle_exclusive, H.
Qed.

Lemma omap_delete_None {A B} (f : A -> option B) (l : list A) i t :
  l !! i = Some t -> f t = None -> omap f (delete i l) = omap f l.
Proof.
  intros Hl Hf.
  transitivity (omap f (take i l ++ t :: drop (S i) l));
    [| rewrite take_drop_middle by exact Hl; reflexivity].
  rewrite delete_take_drop, !omap_app. simpl. rewrite Hf. reflexivity.
Qed.

Lemma omap_delete_single {A B} (f : A -> option B) (l : list A) i t p q :
  l !! i = Some t -> f t = Some p -> omap f l = [q] ->
  omap f (delete i l) = [] /\ p = q.
Proof.
  intros Hl Hf Hq.
  assert (Hq' : omap f (take i l ++ t :: drop (S i) l) = [q])
    by (rewrite take_drop_middle by exact Hl; exact Hq).
  clear Hq. rename Hq' into Hq.
  rewrite delete_take_drop, !omap_app. rewrite omap_app in Hq. simpl in Hq.
  rewrite Hf in Hq.
  destruct (omap f (take i l)) as [| x xs].
  - simpl in *. injection Hq as Hp Hd. split; [exact Hd | exact Hp].
  - simpl in Hq. injection Hq as _ Hq. destruct xs; discriminate.
Qed.

Lemma omap_insert_same {A B} (f : A -> option B) (l : list A) i t t' :
  l !! i = Some t -> f t' = f t -> omap f (<[i := t']> l) = omap f l.
Proof.
  intros Hl Hf.
  transitivity (omap f (take i l ++ t :: drop (S i) l));
    [| rewrite take_drop_middle by exact Hl; reflexivity].
  rewrite insert_take_drop by (eapply lookup_lt_Some; exact Hl).
  rewrite !omap_app. simpl. rewrite Hf. reflexivity.
Qed.

(** Taking a suspended call out to resume it. *)
Lemma taken_resumable w i t :
  exclusive w -> tasks w !! i = Some t ->
  resumable (owner_of t) (with_tasks (delete i (tasks w)) w).
Proof.
  intros H Hi. unfold owner_of, resumable, exclusive in *.
  destruct (in_flight t) as [p |] eqn:Hf; simpl.
  - destruct (executing (eng w)) as [q |]; simpl in H.
    + destruct (omap_delete_single _ _ _ _ _ _ Hi Hf H) as [H1 ->]. auto.
    + exfalso.
      assert (H' : omap in_flight (take i (tasks w) ++ t :: drop (S i) (tasks w)) = [])
        by (rewrite take_drop_middle by exact Hi; exact H).
      rewrite omap_app in H'. simpl in H'. rewrite Hf in H'.
      destruct (omap in_flight (take i (tasks w))); discriminate.
  - rewrite (omap_delete_None _ _ _ _ Hi Hf). exact H.
Qed.

Lemma run_exclusive t a w w' :
  resumable (owner_of t) w -> run t a w = Some w' -> exclusive w'.
Proof.
  intros H Hrun. destruct t; simpl in Hrun; unfold owner_of in H; simpl in H.
  - destruct a; simplify_eq. apply prepare_exclusive, H.
  - destruct a; repeat case_match; simplify_eq;
      first [apply prepare_shift_exclusive, H | exact H].
  - destruct a; try discriminate.
    pose proof (createExecution_exclusive orc ev.1.1 ev.1.2 ev.2 w H) as H'.
    destruct (createExecution orc ev.1.1 ev.1.2 ev.2 w) as [r w1].
    simplify_eq. apply prepare_created_exclusive, H'.
  - destruct a; try discriminate.
    pose proof (createExecution_exclusive orc wf c o w H) as H'.
    destruct (createExecution orc wf c o w) as [r w1].
    simplify_eq. apply triggerSync_created_exclusive, H'.
  - destruct a; simplify_eq; apply dispatch_polled_exclusive, H.
  - destruct a; simplify_eq; apply process_updated_exclusive; destruct o; exact H.
  - destruct a; simplify_eq; apply process_ran_exclusive; destruct o; exact H.
  - destruct a; simplify_eq; apply process_destroyed_exclusive; destruct o; exact H.
  - destruct a; simplify_eq; apply resume_loaded_exclusive, H.
  - destruct a; simplify_eq; [apply afterStart_loaded_exclusive |]; exact H.
  - destruct a; simplify_eq. unfold beforeStop_finished. excl.
  - destruct a; simplify_eq; apply handleSyncMessage_loaded_exclusive, H.
Qed.

Lemma step_exclusive l w w' : exclusive w -> step l w = Some w' -> exclusive w'.
Proof.
  intros H Hstep. destruct l; simpl in Hstep.
  - simplify_eq. apply trigger_exclusive, H.
  - simplify_eq. apply resume_exclusive, H.
  - simplify_eq. apply start_exclusive, H.
  - simplify_eq. apply save_exclusive, H.
  - destruct (checker (eng w)); simplify_eq. apply dispatch_exclusive, H.
  - simplify_eq. unfold afterStart. excl.
  - simplify_eq. apply beforeStop_exclusive, H.
  - destruct (tasks w !! i) as [t |] eqn:Hi; [| discriminate].
    eapply run_exclusive; [| exact Hstep]. apply taken_resumable; assumption.
  - destruct (tasks w !! i) as [t |] eqn:Hi; [| discriminate].
    destruct t; try discriminate. simplify_eq.
    unfold exclusive in *. simpl.
    erewrite omap_insert_same; [exact H | exact Hi |].
    destruct o; reflexivity.
  - simplify_eq. apply handleSyncMessage_received_exclusive, H.
Qed.

Lemma reachable_exclusive w0 w : exclusive w0 -> reachable w0 w -> exclusive w.
Proof.
  intros H0 [ls Hexec]. revert w0 H0 Hexec.
  induction ls as [| l ls IH]; intros w0 H0 Hexec; simpl in Hexec.
  - simplify_eq. exact H0.
  - destruct (step l w0) as [w1 |] eqn:Hstep; [| discriminate].
    eapply IH; [| exact Hexec]. eapply step_exclusive; eassumption.
Qed.

(** *** Only the operation in flight ends itself *)

Ltac busy :=
  intros; decided;
  repeat (case_match; simplify_eq/=); decided;
  repeat (progress (simpl in * ));
  simplify_eq/=; use_equations; simpl;
  try done; try congruence.

Lemma busy_toggle workflow enable silent t w :
  executing (eng (toggle workflow enable silent t w)) = executing (eng w).
Proof. unfold toggle. busy. Qed.

Lemma busy_toggle_all enable silent t l w :
  executing (eng (fold_left (fun w workflow => toggle workflow enable silent t w) l w))
    = executing (eng w).
Proof.
  revert w. induction l as [| x l IH]; intros w; simpl; [reflexivity |].
  rewrite IH. apply busy_toggle.
Qed.

Lemma busy_prepare_shift w : executing (eng (prepare_shift w)) = executing (eng w).
Proof. unfold prepare_shift. busy. Qed.

Lemma busy_prepare w : executing (eng (prepare w)) = executing (eng w).
Proof. unfold prepare, prepare_shift. busy. Qed.

Lemma busy_process o e j t w : executing (eng (process o e j t w)) = executing (eng w).
Proof. unfold process, process_start. busy. Qed.

Lemma busy_dispatch p w :
  executing (eng w) = Some p -> executing (eng (dispatch w)) = Some p.
Proof. unfold dispatch. busy. Qed.

Lemma settled_dispatch w : settled (dispatch w) = settled w.
Proof. unfold dispatch, prepare, prepare_shift, process, process_start. busy. Qed.

Lemma dispatch_finally_settles p next b w :
  In (DispatchSettled p b) (settled (dispatch_finally p next b w)).
Proof.
  unfold dispatch_finally. destruct next; [rewrite settled_dispatch |]; simpl;
    apply in_or_app; right; left; reflexivity.
Qed.

Lemma process_settled_still o e b p w :
  executing (eng w) = Some p ->
  (forall q, o = ByDispatcher q -> q = p) ->
  still_or_settled p (process_settled o e b w).
Proof.
  intros H Ho. unfold process_settled. destruct o as [q |].
  - rewrite (Ho q eq_refl). right. exists b. apply dispatch_finally_settles.
  - left. exact H.
Qed.

Lemma process_updated_still o e j b p w :
  executing (eng w) = Some p ->
  (forall q, o = ByDispatcher q -> q = p) ->
  still_or_settled p (process_updated o e j b w).
Proof.
  intros H Ho. unfold process_updated. destruct b.
  - left. exact H.
  - apply process_settled_still; assumption.
Qed.

Lemma process_ran_still o e b p w :
  executing (eng w) = Some p ->
  (forall q, o = ByDispatcher q -> q = p) ->
  still_or_settled p (process_ran o e b w).
Proof.
  intros H Ho. unfold process_ran.
  repeat case_match; try (apply process_settled_still; assumption).
  left. exact H.
Qed.

Lemma process_destroyed_still o e b p w :
  executing (eng w) = Some p ->
  (forall q, o = ByDispatcher q -> q = p) ->
  still_or_settled p (process_destroyed o e b w).
Proof.
  intros H Ho. unfold process_destroyed.
  apply process_settled_still; [destruct b; exact H | exact Ho].
Qed.

Lemma dispatch_polled_still p b w :
  executing (eng w) = Some p ->
  still_or_settled p (dispatch_polled p b w).
Proof.
  intros H. unfold dispatch_polled.
  repeat case_match; try (right; eexists; apply dispatch_finally_settles).
  left. rewrite busy_process. exact H.
Qed.

Lemma busy_createExecution orc workflow context options w :
  executing (eng (createExecution orc workflow context options w).2) = executing (eng w).
Proof.
  destruct (framed_createExecution orc workflow context options w) as (Heng & _).
  rewrite Heng. reflexivity.
Qed.

Lemma busy_prepare_created event r p w :
  executing (eng w) = Some p -> executing (eng (prepare_created event r w)) = Some p.
Proof.
  intros H. unfold prepare_created.
  repeat case_match; rewrite ?busy_prepare; try apply busy_dispatch; busy.
Qed.

Lemma busy_triggerSync_created workflow options r w :
  executing (eng (triggerSync_created workflow options r w)) = executing (eng w).
Proof. unfold triggerSync_created. repeat case_match; rewrite ?busy_process; busy. Qed.

Lemma busy_trigger workflow context options w :
  executing (eng (trigger workflow context options w).2) = executing (eng w).
Proof. unfold trigger, triggerSync. busy. Qed.

Lemma busy_resume job p w :
  executing (eng w) = Some p -> executing (eng (resume job w)) = Some p.
Proof.
  intros H. unfold resume, resume_push. case_match; [apply busy_dispatch |]; busy.
Qed.

Lemma busy_resume_loaded job b p w :
  executing (eng w) = Some p -> executing (eng (resume_loaded job b w)) = Some p.
Proof.
  intros H. unfold resume_loaded, resume_push.
  repeat case_match; try apply busy_dispatch; busy.
Qed.

Lemma busy_start e p w :
  executing (eng w) = Some p -> executing (eng (start e w)) = Some p.
Proof. intros H. unfold start. case_match; [exact H |]. apply busy_dispatch. busy. Qed.

Lemma busy_save instance t w :
  executing (eng (save instance t w)) = executing (eng w).
Proof.
  unfold save, onBeforeSave.
  repeat (case_match; simplify_eq/=); rewrite ?busy_toggle; simpl;
    rewrite ?busy_toggle; reflexivity.
Qed.

Lemma busy_afterStart_loaded p w :
  executing (eng w) = Some p -> executing (eng (afterStart_loaded w)) = Some p.
Proof.
  intros H. unfold afterStart_loaded. apply busy_dispatch. simpl.
  rewrite busy_toggle_all. exact H.
Qed.

Lemma busy_beforeStop w : executing (eng (beforeStop w)) = executing (eng w).
Proof.
  unfold beforeStop. case_match; simpl; rewrite ?busy_prepare; simpl;
    apply busy_toggle_all.
Qed.

Lemma busy_handleSyncMessage_received message w :
  executing (eng (handleSyncMessage_received message w)) = executing (eng w).
Proof.
  unfold handleSyncMessage_received. repeat case_match; rewrite ?busy_toggle; reflexivity.
Qed.

Lemma busy_handleSyncMessage_loaded cached id b w :
  executing (eng (handleSyncMessage_loaded cached id b w)) = executing (eng w).
Proof.
  unfold handleSyncMessage_loaded. repeat case_match; rewrite ?busy_toggle; reflexivity.
Qed.

Lemma run_still t a p w w' :
  executing (eng w) = Some p ->
  (forall q, in_flight t = Some q -> q = p) ->
  run t a w = Some w' ->
  (in_flight t = None -> executing (eng w') = Some p) /\ still_or_settled p w'.
Proof.
  intros H Hq Hrun.
  assert (Hleft : executing (eng w') = Some p ->
                  (in_flight t = None -> executing (eng w') = Some p) /\
                  still_or_settled p w') by (intros E; split; [auto | left; exact E]).
  assert (Howner : forall o, in_flight t = match o with
                                           | ByDispatcher q => Some q
                                           | ByCaller => None
                                           end ->
                   (forall r, still_or_settled p r ->
                              (o = ByCaller -> executing (eng r) = Some p) ->
                              (in_flight t = None -> executing (eng r) = Some p) /\
                              still_or_settled p r) /\
                   forall q, o = ByDispatcher q -> q = p).
  { intros o Ho. split.
    - intros r Hr Hc. split; [| exact Hr]. intros Hn. apply Hc.
      destruct o; [congruence | reflexivity].
    - intros q ->. apply Hq. exact Ho. }
  destruct t; simpl in Hrun.
  - destruct a; simplify_eq. apply Hleft. rewrite busy_prepare. exact H.
  - destruct a; repeat case_match; simplify_eq; apply Hleft;
      rewrite ?busy_prepare_shift; exact H.
  - destruct a; try discriminate.
    pose proof (busy_createExecution orc ev.1.1 ev.1.2 ev.2 w) as H'.
    destruct (createExecution orc ev.1.1 ev.1.2 ev.2 w) as [r w1].
    simplify_eq. apply Hleft, busy_prepare_created. simpl in H'. congruence.
  - destruct a; try discriminate.
    pose proof (busy_createExecution orc wf c o w) as H'.
    destruct (createExecution orc wf c o w) as [r w1].
    simplify_eq. apply Hleft. rewrite busy_triggerSync_created. simpl in H'. congruence.
  - assert (p0 = p) by (apply Hq; reflexivity). subst p0.
    destruct a; simplify_eq; (split; [discriminate |]); apply dispatch_polled_still, H.
  - destruct (Howner o) as [Hr Ho]; [destruct o; reflexivity |].
    destruct a; simplify_eq; (apply Hr; [apply process_updated_still; assumption |]);
      intros ->; unfold process_updated, process_start; simpl; exact H.
  - destruct (Howner o) as [Hr Ho]; [destruct o; reflexivity |].
    destruct a; simplify_eq; (apply Hr; [apply process_ran_still; assumption |]);
      intros ->; unfold process_ran; repeat case_match; simpl; exact H.
  - destruct (Howner o) as [Hr Ho]; [destruct o; reflexivity |].
    destruct a; simplify_eq; (apply Hr; [apply process_destroyed_still; assumption |]);
      intros ->; unfold process_destroyed; simpl; exact H.
  - destruct a; simplify_eq; apply Hleft, busy_resume_loaded, H.
  - destruct a; simplify_eq; apply Hleft; [apply busy_afterStart_loaded |]; exact H.
  - destruct a; simplify_eq. apply Hleft. exact H.
  - destruct a; simplify_eq; apply Hleft; rewrite busy_handleSyncMessage_loaded; exact H.
Qed.

Lemma step_ends_only_in_flight l w w' p :
  exclusive w ->
  executing (eng w) = Some p ->
  step l w = Some w' ->
  executing (eng w') <> Some p ->
  exists i a t,
    l = Run i a /\ tasks w !! i = Some t /\ in_flight t = Some p /\
    exists b, In (DispatchSettled p b) (settled w').
Proof.
  intros Hex H Hstep Hne. destruct l; simpl in Hstep.
  - simplify_eq. rewrite busy_trigger in Hne. contradiction.
  - simplify_eq. rewrite (busy_resume _ _ _ H) in Hne. contradiction.
  - simplify_eq. rewrite (busy_start _ _ _ H) in Hne. contradiction.
  - simplify_eq. rewrite busy_save in Hne. contradiction.
  - destruct (checker (eng w)); simplify_eq.
    rewrite (busy_dispatch _ _ H) in Hne. contradiction.
  - exfalso; simplify_eq; try (apply Hne; exact H).
  - simplify_eq. rewrite busy_beforeStop in Hne. contradiction.
  - destruct (tasks w !! i) as [t |] eqn:Hi; [| discriminate].
    pose proof (taken_resumable w i t Hex Hi) as Hres.
    assert (Hq : forall q, in_flight t = Some q -> q = p).
    { intros q Hf. unfold owner_of in Hres. rewrite Hf in Hres.
      destruct Hres as [_ Hres]. simpl in Hres. congruence. }
    destruct (run_still t a p (with_tasks (delete i (tasks w)) w) w' H Hq Hstep)
      as [Hnone [Hstill | Hsettled]];
      [contradiction |].
    destruct (in_flight t) as [q |] eqn:Hf; [| exfalso; auto].
    rewrite (Hq q eq_refl) in Hf. eauto 8.
  - destruct (tasks w !! i) as [t |] eqn:Hi; [| discriminate].
    destruct t; try discriminate. exfalso; simplify_eq; try (apply Hne; exact H).
  - simplify_eq. rewrite busy_handleSyncMessage_received in Hne. contradiction.
Qed.

Lemma dispatched_processes_in_flight l :
  (length (List.filter is_dispatched_process l) <= length (omap in_flight l))%nat.
Proof.
  induction l as [| t l IH]; simpl; [lia |].
  destruct t as [| | | | | o ? ? | o ? ? | o ? | | | |]; try destruct o; simpl;
    change (list_omap Task nat in_flight l) with (omap in_flight l); lia.
Qed.

Lemma dispatch_busy_only_warns w :
  is_Some (executing (eng w)) -> only_warned dispatcher_logger w (dispatch w).
Proof.
  intros [p H]. unfold dispatch, only_warned. rewrite H.
  destruct (negb (ready (eng w))); simpl; repeat split; eauto.
Qed.

(** C2 (amended): the dispatcher has at most one operation in flight, the
    one recorded in [executing], hence at most one [process] call of its
    own; while [executing] holds a promise, [dispatch] only logs a
    warning; and [executing] changes only when a suspended call of that
    very operation resumes and the operation ends. ([process] calls of
    synchronous triggers run beside it.) *)
Theorem dispatcher_exclusion registry d w :
  reachable (init registry d) w ->
  exclusive w /\
  (length (List.filter is_dispatched_process (tasks w)) <= 1)%nat /\
  (is_Some (executing (eng w)) -> only_warned dispatcher_logger w (dispatch w)) /\
  (forall p l w',
     executing (eng w) = Some p ->
     step l w = Some w' ->
     executing (eng w') <> Some p ->
     exists i a t,
       l = Run i a /\ tasks w !! i = Some t /\ in_flight t = Some p /\
       exists b, In (DispatchSettled p b) (settled w')).
Proof.
  intros Hreach.
  assert (Hex : exclusive w)
    by (apply (reachable_exclusive (init registry d) w); [reflexivity | exact Hreach]).
  split; [exact Hex |]. split; [| split].
  - pose proof (dispatched_processes_in_flight (tasks w)) as Hle.
    unfold exclusive in Hex. rewrite Hex in Hle.
    destruct (executing (eng w)); simpl in Hle; lia.
  - apply dispatch_busy_only_warns.
  - intros p l w'. apply step_ends_only_in_flight. exact Hex.
Qed.

(** * Further properties

    Error paths, invariants and compositions of the same code. *)

(** ** [createExecution] *)

Lemma find_update_where_id id f l :
  (forall x, wf_id (f x) = wf_id x) ->
  find_workflow id (update_where (has_id id) f l) = f <$> find_workflow id l.
Proof.
  intros Hf. unfold find_workflow, update_where.
  induction l as [| x l IH]; simpl; [reflexivity |].
  destruct (has_id id x) eqn:Hx; simpl.
  - unfold has_id in *. rewrite Hf, Hx. reflexivity.
  - rewrite Hx. exact IH.
Qed.

Lemma Forall2_map_self {A} (R : A -> A -> Prop) g (l : list A) :
  (forall x, R x (g x)) -> Forall2 R l (map g l).
Proof. intros H. induction l; simpl; constructor; auto. Qed.

Lemma counted_rows workflow r k l :
  k = wf_key workflow ->
  Forall2 (counted workflow r) l
    (update_where (has_key k)
       (fun x => set_counters (wf_executed x) (wf_allExecuted r + 1) x)
       (update_where (has_id (wf_id workflow))
          (fun x => set_counters (wf_executed x + 1) (wf_allExecuted x + 1) x) l)).
Proof.
  intros ->. unfold update_where. rewrite map_map.
  apply Forall2_map_self. intros x. unfold counted, has_key.
  destruct (has_id (wf_id workflow) x); simpl;
    destruct (bool_decide (wf_key x = wf_key workflow)); simpl; auto.
Qed.

Lemma find_workflow_id id l r : find_workflow id l = Some r -> wf_id r = id.
Proof.
  intros H. apply find_some in H as [_ H]. unfold has_id in H. lia.
Qed.

(** X1: with the trigger registered, the workflow's row in storage and
    every storage call succeeding, [createExecution] returns the new
    execution with the workflow attached: it has the next id, the
    workflow's id and key, the caller's [eventKey] (a fresh UUID when none
    was given), the context, and status STARTED when [deferred] and
    QUEUEING otherwise; it is the one row added to [executions]. The
    workflow's [executed] counter has gone up by one, and every version
    of its key carries the same new total [allExecuted]. *)
Theorem createExecution_creates_and_counts orc workflow context options w trig s r :
  triggers (eng w) !! wf_type workflow = Some trig ->
  db_sequelize (db w) = Some s ->
  find_workflow (wf_id workflow) (db_workflows (db w)) = Some r ->
  wf_key r = wf_key workflow ->
  validateEvent_result orc = Ok true ->
  transaction_ok orc = true ->
  createExecution_ok orc = true ->
  increment_ok orc = true ->
  reload_ok orc = true ->
  update_ok orc = true ->
  commit_ok orc = true ->
  let res := createExecution orc workflow context options w in
  let row := mkExecution (db_next_id (db w)) (wf_id workflow) (wf_key workflow)
               (default (randomUUID orc) (eventKey options)) context
               (if deferred options then STARTED else QUEUEING) None in
  exists instance,
    res.1 = Ok (Some (set_workflow instance row)) /\
    wf_id instance = wf_id workflow /\
    wf_executed instance = wf_executed r + 1 /\
    wf_allExecuted instance = wf_allExecuted r + 1 /\
    db_executions (db res.2) = db_executions (db w) ++ [row] /\
    db_next_id (db res.2) = db_next_id (db w) + 1 /\
    Forall2 (counted workflow r) (db_workflows (db w)) (db_workflows (db res.2)).
Proof.
  intros Htrig Hdb Hrow Hkey Hvalid Hbegin Hinsert Hinc Hreload Hupdate Hcommit.
  unfold createExecution, bind, useDataSourceTransaction. rewrite Hdb.
  unfold in_transaction, try_catch, validateEvent, insert_execution, increment,
    reload, update_allExecuted, commit, rollback, when, storage, act, ret, throw, bind.
  simpl. rewrite Hbegin, Hvalid, Hinsert, Hinc, Hreload, Hupdate, Hcommit.
  assert (Hfound : find_workflow (wf_id workflow)
            (update_where (has_id (wf_id workflow))
               (fun r => set_counters (wf_executed r + 1) (wf_allExecuted r + 1) r)
               (db_workflows (db w)))
          = Some (set_counters (wf_executed r + 1) (wf_allExecuted r + 1) r)).
  { rewrite find_update_where_id by reflexivity. rewrite Hrow. reflexivity. }
  pose proof (find_workflow_id _ _ _ Hrow) as Hid.
  destruct (bool_decide (tx_sequelize <$> transaction options = Some s)) eqn:Hsame; simpl.
  - rewrite Htrig. simpl.
    rewrite (bool_decide_eq_true_2 (transaction options = transaction options)) by reflexivity.
    simpl. rewrite Hfound.
    destruct (db_dialect (db w)) eqn:Hd; simpl; rewrite ?Hfound; simpl.
    all: eexists; split; [reflexivity |]; simpl.
    all: repeat (split; [first [reflexivity | exact Hid] |]).
    all: apply counted_rows; first [reflexivity | exact Hkey].
  - rewrite Htrig. simpl.
    assert (Hne : transaction options <> Some (mkTransaction (db_next_tx (db w)) s)).
    { intros E. rewrite E in Hsame. simpl in Hsame.
      rewrite bool_decide_eq_true_2 in Hsame by reflexivity. discriminate. }
    rewrite (bool_decide_eq_false_2 _ Hne). simpl. rewrite Hfound.
    destruct (db_dialect (db w)) eqn:Hd; simpl; rewrite ?Hfound; simpl.
    all: eexists; split; [reflexivity |]; simpl.
    all: repeat (split; [first [reflexivity | exact Hid] |]).
    all: apply counted_rows; first [reflexivity | exact Hkey].
Qed.
(** X2: when the caller hands in a transaction of the main connection,
    [createExecution] works inside it and leaves its end to the caller:
    whatever the outcome, every storage call it makes is given that
    transaction, and it neither opens a transaction nor commits or rolls
    back. *)
Theorem createExecution_leaves_callers_transaction orc workflow context options w s t :
  db_sequelize (db w) = Some s ->
  transaction options = Some t ->
  tx_sequelize t = s ->
  let res := createExecution orc workflow context options w in
  exists cs,
    db_calls (db res.2) = db_calls (db w) ++ cs /\
    Forall (fun c => under t c = true) cs.
Proof.
  intros Hdb Ht Hs.
  unfold createExecution, bind, useDataSourceTransaction. rewrite Hdb, Ht. simpl.
  rewrite (bool_decide_eq_true_2 (Some (tx_sequelize t) = Some s)) by congruence.
  rewrite (bool_decide_eq_true_2 (Some t = Some t)) by reflexivity.
  unfold in_transaction, try_catch, validateEvent, insert_execution, increment,
    reload, update_allExecuted, commit, rollback, when, storage, act, ret, throw, bind.
  simpl.
  repeat (case_match; simplify_eq/=).
  all: eexists; (split; [rewrite <- ?app_assoc; simpl; first [reflexivity | symmetry; apply app_nil_r] |]).
  all: repeat constructor; simpl; apply bool_decide_eq_true_2; reflexivity.
Qed.

(** X3: when the insert of the execution row fails inside a transaction
    that [createExecution] opened itself, that transaction is rolled
    back and the function throws; the storage calls are exactly begin,
    [validateEvent], the insert and the rollback, no row is written, no
    counter moves and nothing is logged. *)
Theorem createExecution_rolls_back_failed_insert orc workflow context options w trig s :
  triggers (eng w) !! wf_type workflow = Some trig ->
  db_sequelize (db w) = Some s ->
  tx_sequelize <$> transaction options <> Some s ->
  transaction_ok orc = true ->
  validateEvent_result orc = Ok true ->
  createExecution_ok orc = false ->
  let res := createExecution orc workflow context options w in
  let t := mkTransaction (db_next_tx (db w)) s in
  res.1 = Err Rejected /\
  db_calls (db res.2) = db_calls (db w) ++
    [ Begin t; ValidateEvent (wf_id workflow) (Some t) true;
      CreateExecution (wf_id workflow) (if deferred options then STARTED else QUEUEING) (Some t);
      Rollback t ] /\
  db_executions (db res.2) = db_executions (db w) /\
  db_workflows (db res.2) = db_workflows (db w) /\
  log res.2 = log w.
Proof.
  intros Htrig Hdb Hother Hbegin Hvalid Hinsert.
  unfold createExecution, bind, useDataSourceTransaction.
  rewrite Hdb, (bool_decide_eq_false_2 _ Hother), Hbegin.
  assert (Hne : transaction options <> Some (mkTransaction (db_next_tx (db w)) s)).
  { intros E. apply Hother. rewrite E. reflexivity. }
  rewrite (bool_decide_eq_false_2 _ Hne).
  unfold in_transaction, try_catch, validateEvent, insert_execution,
    commit, rollback, when, storage, act, ret, throw, bind.
  simpl. rewrite Htrig, Hvalid. simpl. rewrite Hinsert. simpl.
  destruct (rollback_ok orc); simpl; rewrite <- ?app_assoc; simpl; repeat split; reflexivity.
Qed.

(** X4: the rollback belongs to the failed insert only. When the insert
    succeeds (or is not reached) and [createExecution] still throws -- the
    trigger type is not registered, [validateEvent], [increment], [reload]
    or the update of [allExecuted] fails -- the transaction it opened is
    not rolled back; nor is it committed, unless the throw is that of the
    commit itself. *)
Theorem createExecution_leaves_transaction_open orc workflow context options w s e :
  db_sequelize (db w) = Some s ->
  tx_sequelize <$> transaction options <> Some s ->
  transaction_ok orc = true ->
  createExecution_ok orc = true ->
  let res := createExecution orc workflow context options w in
  let t := mkTransaction (db_next_tx (db w)) s in
  res.1 = Err e ->
  exists cs,
    db_calls (db res.2) = db_calls (db w) ++ Begin t :: cs /\
    ~ In (Rollback t) cs /\
    (~ In (Commit t) cs \/ commit_ok orc = false).
Proof.
  intros Hdb Hother Hbegin Hinsert.
  unfold createExecution, bind, useDataSourceTransaction.
  rewrite Hdb, (bool_decide_eq_false_2 _ Hother), Hbegin.
  assert (Hne : transaction options <> Some (mkTransaction (db_next_tx (db w)) s)).
  { intros E. apply Hother. rewrite E. reflexivity. }
  rewrite (bool_decide_eq_false_2 _ Hne).
  unfold in_transaction, try_catch, validateEvent, insert_execution, increment,
    reload, update_allExecuted, commit, rollback, when, storage, act, ret, throw, bind.
  simpl. rewrite Hinsert.
  repeat (case_match; simplify_eq/=); intros Herr; simplify_eq/=.
  all: eexists; (split; [rewrite <- ?app_assoc; simpl; reflexivity |]).
  all: simpl; split; [intuition discriminate |].
  all: try (right; assumption); try (right; reflexivity).
  all: left; simpl; intuition discriminate.
Qed.

(** ** Event intake *)

(** X5: an event of an enabled workflow whose trigger is asynchronous
    joins the end of the [events] queue without its transaction,
    [eventsCount] follows, and [prepare] is scheduled only when the queue
    was empty before (a later event relies on the [prepare] already on its
    way); [pending], [executing] and storage are not touched. *)
Theorem trigger_queues_event workflow context options w trig :
  ready (eng w) = true ->
  wf_enabled workflow = true ->
  manually options = false ->
  is_nullish context = false ->
  triggers (eng w) !! wf_type workflow = Some trig ->
  default (wf_sync workflow) (trig_sync trig) = false ->
  let r := trigger workflow context options w in
  r.1 = ReturnedVoid /\
  events (eng r.2) = events (eng w) ++ [(workflow, context, without_transaction options)] /\
  eventsCount (eng r.2) = S (length (events (eng w))) /\
  tasks r.2 = (if bool_decide (events (eng w) = []) then tasks w ++ [PrepareTimer] else tasks w) /\
  pending (eng r.2) = pending (eng w) /\
  executing (eng r.2) = executing (eng w) /\
  db r.2 = db w.
Proof.
  intros Hready Henabled Hmanual Hctx Htrig Hsync.
  unfold trigger, isWorkflowSync.
  rewrite Hready, Henabled, Hmanual, Hctx, Htrig, Hsync. simpl.
  destruct (events (eng w)) as [| ev evs] eqn:Hev; simpl.
  - repeat split; reflexivity.
  - rewrite bool_decide_eq_true_2 by (rewrite length_app; simpl; lia). simpl.
    repeat split; try reflexivity. rewrite length_app. simpl. lia.
Qed.

(** X6: an event for a workflow whose trigger type is not registered.
    Fired by a trigger ([manually] unset) on an enabled workflow, the
    call to [trigger] itself throws and changes nothing. Fired manually,
    [isWorkflowSync] is not consulted: [triggerSync] is entered, its
    [createExecution] throws, the error is logged and the promise
    resolves to [null]; no execution row is written and no [process]
    call starts. *)
Theorem trigger_unregistered_type workflow context options w :
  ready (eng w) = true ->
  is_nullish context = false ->
  triggers (eng w) !! wf_type workflow = None ->
  (manually options = false -> wf_enabled workflow = true ->
   trigger workflow context options w = (Thrown InvalidTriggerType, w)) /\
  (manually options = true ->
   trigger workflow context options w =
     (ReturnedPromise, suspend (SyncCreating workflow context (without_deferred options)) w) /\
   forall orc w1,
     triggers (eng w1) = triggers (eng w) ->
     exists w2,
       run (SyncCreating workflow context (without_deferred options)) (Answers orc) w1
         = Some w2 /\
       settled w2 = settled w1 ++ [TriggerSyncReturnedNull (wf_id workflow)] /\
       log w2 = log w1 ++ [(error, of_workflow (wf_id workflow),
                            creating_execution_failed (wf_id workflow))] /\
       tasks w2 = tasks w1 /\
       db_executions (db w2) = db_executions (db w1)).
Proof.
  intros Hready Hctx Htrig. split.
  - intros Hmanual Henabled. unfold trigger, isWorkflowSync.
    rewrite Hready, Henabled, Hmanual, Hctx, Htrig. reflexivity.
  - intros Hmanual. split.
    + unfold trigger. rewrite Hready, Hmanual, Hctx. reflexivity.
    + intros orc w1 Hreg. rewrite <- Hreg in Htrig. simpl.
      unfold createExecution, bind, useDataSourceTransaction, in_transaction, throw.
      repeat (case_match; simplify_eq/=).
      all: eexists; split; [reflexivity |]; simpl; repeat split; reflexivity.
Qed.

(** X7: a manual or synchronous event that the trigger's [validateEvent]
    refuses does not resolve to [null]: [createExecution] returns [null],
    [triggerSync] hands it to [process], which reads [status] of [null],
    and the rejected promise of [process] is what the caller gets (the
    [catch] around [return this.process(...)] does not see it). Nothing is
    logged, no row is written, no task is left. Storage is taken to
    work. *)
Theorem triggerSync_rejects_on_refused_event orc workflow context options w trig s :
  triggers (eng w) !! wf_type workflow = Some trig ->
  validateEvent_result orc = Ok false ->
  db_sequelize (db w) = Some s ->
  transaction_ok orc = true ->
  commit_ok orc = true ->
  exists w',
    run (SyncCreating workflow context options) (Answers orc) w = Some w' /\
    settled w' = settled w ++ [TriggerSyncRejected (wf_id workflow)] /\
    eng w' = eng w /\
    tasks w' = tasks w /\
    log w' = log w /\
    db_executions (db w') = db_executions (db w).
Proof.
  intros Htrig Hvalid Hdb Hbegin Hcommit. simpl.
  unfold createExecution, bind, useDataSourceTransaction. rewrite Hdb.
  unfold in_transaction, validateEvent, when, ret, commit, storage, bind.
  destruct (bool_decide (tx_sequelize <$> transaction options = Some s)) eqn:Hsame.
  - simpl. rewrite Htrig, Hvalid. simpl.
    rewrite bool_decide_eq_true_2 by reflexivity. simpl.
    eexists. split; [reflexivity |]. repeat split; reflexivity.
  - rewrite Hbegin. simpl. rewrite Htrig, Hvalid. simpl.
    assert (Hne : transaction options <> Some (mkTransaction (db_next_tx (db w)) s)).
    { intros E. rewrite E in Hsame. simpl in Hsame.
      rewrite bool_decide_eq_true_2 in Hsame by reflexivity. discriminate. }
    rewrite (bool_decide_eq_false_2 _ Hne). simpl. rewrite Hcommit. simpl.
    eexists. split; [reflexivity |]. repeat split; reflexivity.
Qed.

(** X8: a manual event goes to [triggerSync] with [deferred] taken out of
    its options. Whatever the caller asked, the execution it creates is
    QUEUEING, and [process] starts on it at once in the caller's context:
    it asks storage to set STARTED under the caller's transaction, without
    passing through [pending] or [executing]. *)
Theorem triggerSync_ignores_deferred workflow context options w :
  ready (eng w) = true ->
  manually options = true ->
  is_nullish context = false ->
  trigger workflow context options w =
    (ReturnedPromise, suspend (SyncCreating workflow context (without_deferred options)) w) /\
  forall orc w1 e w2,
    createExecution orc workflow context (without_deferred options) w1 = (Ok (Some e), w2) ->
    ex_status e = QUEUEING /\
    run (SyncCreating workflow context (without_deferred options)) (Answers orc) w1 =
      Some (suspend (ProcessUpdating ByCaller e None)
              (on_db (call (UpdateStatus (ex_id e) STARTED (transaction options))) w2)).
Proof.
  intros Hready Hmanual Hctx. split.
  - unfold trigger. rewrite Hready, Hmanual, Hctx. reflexivity.
  - intros orc w1 e w2 Hcreate.
    assert (Hs : ex_status e = QUEUEING).
    { pose proof (createExecution_rows orc workflow context (without_deferred options) w1) as H.
      rewrite Hcreate in H. simpl in H.
      destruct H as [[_ H] | (row & _ & _ & H)]; [destruct (H e); reflexivity |].
      apply (H e). reflexivity. }
    split; [exact Hs |].
    simpl. rewrite Hcreate. simpl. unfold process.
    rewrite Hs. unfold status_eqb. rewrite bool_decide_eq_true_2 by reflexivity.
    reflexivity.
Qed.

(** ** [toggle] and the messages of other nodes *)

(** What [toggle] leaves in [enabledCache]. *)
Lemma toggle_cache workflow enable silent t w trig id :
  triggers (eng w) !! wf_type workflow = Some trig ->
  enabledCache (eng (toggle workflow enable silent t w)) !! id =
    if bool_decide (id = wf_id workflow)
    then (if default (wf_enabled workflow) enable then Some workflow else None)
    else enabledCache (eng w) !! id.
Proof.
  intros Htrig. unfold toggle. rewrite Htrig.
  destruct (default (wf_enabled workflow) enable), silent, (wf_previous_config workflow);
    simpl; case_bool_decide; subst;
    rewrite ?lookup_insert_eq, ?lookup_delete_eq, ?lookup_insert_ne, ?lookup_delete_ne by congruence;
    reflexivity.
Qed.

Lemma toggle_silent workflow enable t w :
  List.filter is_sync_message (effects (toggle workflow enable true t w))
    = List.filter is_sync_message (effects w).
Proof.
  unfold toggle. repeat case_match; simpl; rewrite ?filter_snoc; simpl; rewrite ?app_nil_r; reflexivity.
Qed.

(** X9: handling a message of another node never sends one: whatever
    the message and the answer of storage, [handleSyncMessage] adds no
    sync message of its own (its [toggle] calls are silent), so a status
    change is not echoed back and forth between nodes; it writes no
    workflow row either. *)
Theorem handleSyncMessage_never_broadcasts ok message w :
  List.filter is_sync_message (effects (handleSyncMessage ok message w).2)
    = List.filter is_sync_message (effects w) /\
  db_workflows (db (handleSyncMessage ok message w).2) = db_workflows (db w).
Proof.
  unfold handleSyncMessage, bind, storage, act, ret.
  repeat (case_match; simplify_eq/=); rewrite ?toggle_silent, ?rows_toggle; split; reflexivity.
Qed.

Lemma fresh_id r : wf_id (fresh r) = wf_id r.
Proof. reflexivity. Qed.


(** ** The [events] queue *)

Lemma reachable_invariant (P : World -> Prop) w0 w :
  (forall l w w', P w -> step l w = Some w' -> P w') ->
  P w0 -> reachable w0 w -> P w.
Proof.
  intros Hstep H0 [ls Hexec]. revert w0 H0 Hexec.
  induction ls as [| l ls IH]; intros w0 H0 Hexec; simpl in Hexec.
  - simplify_eq. exact H0.
  - destruct (step l w0) as [w1 |] eqn:Hl; [| discriminate].
    eapply IH; [| exact Hexec]. eapply Hstep; eassumption.
Qed.

Lemma queue_frame_refl w : queue_frame w w.
Proof. repeat split; exists []; symmetry; apply app_nil_r. Qed.

Lemma queue_frame_trans w1 w2 w3 :
  queue_frame w1 w2 -> queue_frame w2 w3 -> queue_frame w1 w3.
Proof.
  intros (E1 & C1 & [ts1 T1] & [ss1 S1]) (E2 & C2 & [ts2 T2] & [ss2 S2]).
  repeat split; try congruence.
  - exists (ts1 ++ ts2). rewrite T2, T1, app_assoc. reflexivity.
  - exists (ss1 ++ ss2). rewrite S2, S1, app_assoc. reflexivity.
Qed.

Ltac queue_frame :=
  intros; repeat (case_match; simplify_eq/=);
  repeat split; simpl; try reflexivity;
  eexists; rewrite <- ?app_assoc; simpl;
  first [reflexivity | symmetry; apply app_nil_r].

Lemma queue_frame_toggle workflow enable silent t w :
  queue_frame w (toggle workflow enable silent t w).
Proof. unfold toggle. queue_frame. Qed.

Lemma queue_frame_toggle_all enable silent t l w :
  queue_frame w (fold_left (fun w workflow => toggle workflow enable silent t w) l w).
Proof.
  revert w. induction l as [| x l IH]; intros w; simpl; [apply queue_frame_refl |].
  eapply queue_frame_trans; [apply queue_frame_toggle | apply IH].
Qed.

Lemma queue_frame_process o e j t w : queue_frame w (process o e j t w).
Proof. unfold process, process_start. queue_frame. Qed.

Lemma queue_frame_createExecution orc workflow context options w :
  queue_frame w (createExecution orc workflow context options w).2.
Proof.
  destruct (framed_createExecution orc workflow context options w)
    as (Heng & Htasks & Hsettled & _).
  unfold queue_frame. rewrite Heng, Htasks, Hsettled.
  repeat split; exists []; symmetry; apply app_nil_r.
Qed.

Lemma queue_frame_save instance t w : queue_frame w (save instance t w).
Proof. unfold save, onBeforeSave, toggle. queue_frame. Qed.

Lemma queue_frame_triggerSync_created workflow options r w :
  queue_frame w (triggerSync_created workflow options r w).
Proof. unfold triggerSync_created, process, process_start. queue_frame. Qed.

Lemma queue_frame_handleSyncMessage_received message w :
  queue_frame w (handleSyncMessage_received message w).
Proof. unfold handleSyncMessage_received, toggle. queue_frame. Qed.

Lemma queue_frame_handleSyncMessage_loaded cached id b w :
  queue_frame w (handleSyncMessage_loaded cached id b w).
Proof. unfold handleSyncMessage_loaded, toggle. queue_frame. Qed.

(** What it takes for a property of the queue to hold in every world the
    engine reaches: [P] is the property, [Q] what is left of it while a
    [prepare] is running. *)
Section Queue_invariant.

Variables P Q : World -> Prop.

Hypothesis P_weakens : forall w, P w -> Q w.
Hypothesis P_frame : forall w w', queue_frame w w' -> P w -> P w'.
Hypothesis Q_frame : forall w w', queue_frame w w' -> Q w -> Q w'.
Hypothesis P_shift : forall w, Q w -> P (prepare_shift w).
Hypothesis P_await : forall p w, Q w -> P (suspend (PrepareAwaitExecuting p) w).
Hypothesis P_rejected : forall w, Q w -> P (settle PrepareRejected w).
Hypothesis P_empty : forall w, Q w -> events (eng w) = [] -> P w.
Hypothesis P_trigger :
  forall workflow context options w, P w -> P (trigger workflow context options w).2.
Hypothesis P_take :
  forall i t w, tasks w !! i = Some t -> P w ->
    if is_preparing t
    then Q (with_tasks (delete i (tasks w)) w)
    else P (with_tasks (delete i (tasks w)) w).
Hypothesis P_replace :
  forall i t t' w, tasks w !! i = Some t ->
    is_preparing t = false -> is_preparing t' = false ->
    P w -> P (with_tasks (<[i := t']> (tasks w)) w).

Ltac by_frame H :=
  eapply P_frame; [| exact H]; unfold process, process_start; queue_frame.

Lemma holds_prepare w : Q w -> P (prepare w).
Proof. intros H. unfold prepare. repeat case_match; auto. Qed.

Lemma holds_dispatch w : P w -> P (dispatch w).
Proof.
  intros H. unfold dispatch.
  destruct (negb (ready (eng w))); [by_frame H |].
  destruct (bool_decide (is_Some (executing (eng w)))); [by_frame H |].
  destruct (negb (bool_decide (length (events (eng w)) = 0%nat)));
    [apply holds_prepare, P_weakens, H |].
  by_frame H.
Qed.

Lemma holds_dispatch_finally p next b w : P w -> P (dispatch_finally p next b w).
Proof.
  intros H. unfold dispatch_finally.
  destruct next; [apply holds_dispatch |]; by_frame H.
Qed.

Lemma holds_process_settled o e b w : P w -> P (process_settled o e b w).
Proof.
  intros H. unfold process_settled.
  destruct o; [apply holds_dispatch_finally |]; by_frame H.
Qed.

Lemma holds_process_updated o e j b w : P w -> P (process_updated o e j b w).
Proof.
  intros H. unfold process_updated.
  destruct b; [by_frame H | apply holds_process_settled, H].
Qed.

Lemma holds_process_ran o e b w : P w -> P (process_ran o e b w).
Proof.
  intros H. unfold process_ran.
  repeat case_match; try (apply holds_process_settled); by_frame H.
Qed.

Lemma holds_process_destroyed o e b w : P w -> P (process_destroyed o e b w).
Proof.
  intros H. unfold process_destroyed.
  apply holds_process_settled. destruct b; by_frame H.
Qed.

Lemma holds_dispatch_polled p b w : P w -> P (dispatch_polled p b w).
Proof.
  intros H. unfold dispatch_polled.
  repeat case_match; try (apply holds_dispatch_finally, H). by_frame H.
Qed.

Lemma holds_rest w :
  Q w ->
  P (if negb (bool_decide (length (events (eng w)) = 0%nat)) then prepare w else dispatch w).
Proof.
  intros H. destruct (bool_decide (length (events (eng w)) = 0%nat)) eqn:He; simpl.
  - apply bool_decide_eq_true in He. apply holds_dispatch, P_empty; [exact H |].
    destruct (events (eng w)); [reflexivity | discriminate].
  - apply holds_prepare, H.
Qed.

Lemma holds_prepare_created event r w : Q w -> P (prepare_created event r w).
Proof.
  intros H. unfold prepare_created. cbv zeta.
  destruct r as [[e |] | err]; [destruct (_ && _ && _) | |]; apply holds_rest; try exact H.
  all: eapply Q_frame; [| exact H]; queue_frame.
Qed.

Lemma holds_resume job w : P w -> P (resume job w).
Proof.
  intros H. unfold resume, resume_push.
  destruct (job_execution job); [apply holds_dispatch |]; by_frame H.
Qed.

Lemma holds_resume_loaded job b w : P w -> P (resume_loaded job b w).
Proof.
  intros H. unfold resume_loaded, resume_push.
  repeat case_match; try apply holds_dispatch; by_frame H.
Qed.

Lemma holds_start e w : P w -> P (start e w).
Proof.
  intros H. unfold start.
  case_match; [exact H |]. apply holds_dispatch. by_frame H.
Qed.

Lemma holds_afterStart_loaded w : P w -> P (afterStart_loaded w).
Proof.
  intros H. unfold afterStart_loaded. apply holds_dispatch.
  eapply P_frame; [| exact H].
  eapply queue_frame_trans; [apply queue_frame_toggle_all |]. queue_frame.
Qed.

Lemma holds_beforeStop w : P w -> P (beforeStop w).
Proof.
  intros H. unfold beforeStop. cbv zeta.
  set (x := fold_left _ _ w).
  assert (Hx : P x) by (apply (P_frame w); [apply queue_frame_toggle_all | exact H]).
  clearbody x.
  assert (Hy : P (on_eng (with_ready false) x)) by by_frame Hx.
  case_match.
  - apply (P_frame (prepare (on_eng (with_ready false) x))); [queue_frame |].
    apply holds_prepare, P_weakens, Hy.
  - by_frame Hy.
Qed.

Lemma holds_run t a i w w' :
  tasks w !! i = Some t -> P w ->
  run t a (with_tasks (delete i (tasks w)) w) = Some w' -> P w'.
Proof.
  intros Hi H Hrun. pose proof (P_take i t w Hi H) as Ht.
  set (w1 := with_tasks (delete i (tasks w)) w) in *.
  destruct t; simpl in Ht; destruct a; cbn [run resolved] in Hrun; simplify_eq.
  - apply holds_prepare, Ht.
  - repeat case_match; simplify_eq; auto.
  - destruct (createExecution orc ev.1.1 ev.1.2 ev.2 w1) as [r w2] eqn:Hc.
    simplify_eq. apply holds_prepare_created.
    apply (Q_frame w1); [| exact Ht].
    pose proof (queue_frame_createExecution orc ev.1.1 ev.1.2 ev.2 w1) as Hf.
    rewrite Hc in Hf. exact Hf.
  - destruct (createExecution orc wf c o w1) as [r w2] eqn:Hc.
    simplify_eq.
    apply (P_frame w2); [apply queue_frame_triggerSync_created |].
    apply (P_frame w1); [| exact Ht].
    pose proof (queue_frame_createExecution orc wf c o w1) as Hf.
    rewrite Hc in Hf. exact Hf.
  - apply holds_dispatch_polled, Ht.
  - apply holds_dispatch_polled, Ht.
  - apply holds_process_updated, Ht.
  - apply holds_process_updated, Ht.
  - apply holds_process_ran, Ht.
  - apply holds_process_ran, Ht.
  - apply holds_process_destroyed, Ht.
  - apply holds_process_destroyed, Ht.
  - apply holds_resume_loaded, Ht.
  - apply holds_resume_loaded, Ht.
  - apply holds_afterStart_loaded, Ht.
  - exact Ht.
  - by_frame Ht.
  - apply (P_frame w1); [apply queue_frame_handleSyncMessage_loaded | exact Ht].
  - apply (P_frame w1); [apply queue_frame_handleSyncMessage_loaded | exact Ht].
Qed.

Lemma holds_step l w w' : P w -> step l w = Some w' -> P w'.
Proof.
  intros H Hstep. destruct l; simpl in Hstep.
  - simplify_eq. apply P_trigger, H.
  - simplify_eq. apply holds_resume, H.
  - simplify_eq. apply holds_start, H.
  - simplify_eq. apply (P_frame w); [apply queue_frame_save | exact H].
  - destruct (checker (eng w)); simplify_eq. apply holds_dispatch, H.
  - simplify_eq. unfold afterStart. by_frame H.
  - simplify_eq. apply holds_beforeStop, H.
  - destruct (tasks w !! i) as [t |] eqn:Hi; [| discriminate].
    eapply holds_run; eassumption.
  - destruct (tasks w !! i) as [t |] eqn:Hi; [| discriminate].
    destruct t; try discriminate. simplify_eq.
    match goal with
    | |- P (on_db ?f ?x) => apply (P_frame x); [queue_frame |]
    end.
    eapply P_replace; [exact Hi | reflexivity | reflexivity | exact H].
  - simplify_eq.
    apply (P_frame w); [apply queue_frame_handleSyncMessage_received | exact H].
Qed.

End Queue_invariant.

Lemma trigger_counted workflow context options w :
  counted_events w -> counted_events (trigger workflow context options w).2.
Proof.
  unfold counted_events, trigger, triggerSync. intros H.
  repeat (case_match; simplify_eq/=); auto.
Qed.

(** X11: in every world the engine reaches from its initial one,
    [eventsCount] -- the number the telemetry gauge reports -- is the
    length of the [events] queue. *)
Theorem eventsCount_tracks_queue registry d w :
  reachable (init registry d) w ->
  eventsCount (eng w) = length (events (eng w)).
Proof.
  apply (reachable_invariant counted_events); [| reflexivity].
  apply (holds_step counted_events counted_events); unfold counted_events; auto.
  - intros w1 w2 (He & Hc & _) H. congruence.
  - intros w1 w2 (He & Hc & _) H. congruence.
  - intros w1 _. unfold prepare_shift.
    destruct (events (eng w1)) eqn:He; simpl; rewrite ?He; reflexivity.
  - apply trigger_counted.
  - intros i t w1 _ H. destruct (is_preparing t); exact H.
Qed.

Lemma existsb_delete {A} (f : A -> bool) (l : list A) i t :
  l !! i = Some t -> f t = false -> existsb f (delete i l) = existsb f l.
Proof.
  intros Hi Ht. rewrite <- (take_drop_middle l i t Hi) at 2.
  rewrite delete_take_drop, !existsb_app. simpl. rewrite Ht. reflexivity.
Qed.

Lemma existsb_insert {A} (f : A -> bool) (l : list A) i t t' :
  l !! i = Some t -> f t = false -> f t' = false ->
  existsb f (<[i := t']> l) = existsb f l.
Proof.
  intros Hi Ht Ht'. rewrite <- (take_drop_middle l i t Hi) at 2.
  rewrite insert_take_drop by (eapply lookup_lt_Some; exact Hi).
  rewrite !existsb_app. simpl. rewrite Ht, Ht'. reflexivity.
Qed.

Lemma attended_frame w w' : queue_frame w w' -> attended w -> attended w'.
Proof.
  intros (He & _ & [ts Ht] & [ss Hs]) [H | [H | H]].
  - left. congruence.
  - right. left. rewrite Ht, existsb_app, H. reflexivity.
  - right. right. rewrite Hs. apply in_or_app. left. exact H.
Qed.

Lemma trigger_attended workflow context options w :
  attended w -> attended (trigger workflow context options w).2.
Proof.
  intros H. unfold trigger, triggerSync.
  repeat (case_match; simplify_eq/=);
    try (eapply attended_frame; [| exact H]; queue_frame).
  - match goal with
    | Hlen : bool_decide _ = true |- _ => rename Hlen into H5
    end.
    destruct H as [H | [H | H]].
    + apply bool_decide_eq_true in H5. rewrite H in H5. simpl in H5. lia.
    + right. left. exact H.
    + right. right. exact H.
  - right. left. simpl. rewrite existsb_app. simpl. apply orb_true_r.
Qed.


(** ** The cache of enabled workflows and the life cycle *)

Lemma engine_static_refl w : engine_static w w.
Proof. repeat split; auto. Qed.

Lemma engine_static_trans w1 w2 w3 :
  engine_static w1 w2 -> engine_static w2 w3 -> engine_static w1 w3.
Proof.
  intros (T1 & C1 & R1 & X1) (T2 & C2 & R2 & X2).
  repeat split; try congruence.
  intros Hr Hx. apply X2; [congruence | auto].
Qed.

Ltac static :=
  intros; unfold engine_static;
  repeat (case_match; simplify_eq/=);
  repeat split; simpl; try reflexivity; try congruence;
  intros; decided; simplify_eq/=; try congruence.

Lemma static_prepare w : engine_static w (prepare w).
Proof. unfold prepare, prepare_shift. static. Qed.

Lemma static_process o e j t w : engine_static w (process o e j t w).
Proof. unfold process, process_start. static. Qed.

Lemma static_dispatch w : engine_static w (dispatch w).
Proof. unfold dispatch, prepare, prepare_shift, process, process_start. static. Qed.

Lemma static_dispatch_finally p next b w : engine_static w (dispatch_finally p next b w).
Proof.
  unfold dispatch_finally. destruct next.
  - eapply engine_static_trans; [| apply static_dispatch]. static.
  - static.
Qed.

Lemma static_process_settled o e b w : engine_static w (process_settled o e b w).
Proof.
  unfold process_settled. destruct o.
  - eapply engine_static_trans; [| apply static_dispatch_finally]. static.
  - static.
Qed.

Lemma static_process_updated o e j b w : engine_static w (process_updated o e j b w).
Proof.
  unfold process_updated. destruct b; [unfold process_start; static |].
  apply static_process_settled.
Qed.

Lemma static_process_ran o e b w : engine_static w (process_ran o e b w).
Proof.
  unfold process_ran.
  repeat case_match;
    try (eapply engine_static_trans; [| apply static_process_settled]); static.
Qed.

Lemma static_process_destroyed o e b w : engine_static w (process_destroyed o e b w).
Proof.
  unfold process_destroyed.
  eapply engine_static_trans; [| apply static_process_settled]. static.
Qed.

Lemma static_dispatch_polled p b w : engine_static w (dispatch_polled p b w).
Proof.
  unfold dispatch_polled. repeat case_match; try apply static_dispatch_finally.
  eapply engine_static_trans; [| apply static_process]. static.
Qed.

Lemma static_createExecution orc workflow context options w :
  engine_static w (createExecution orc workflow context options w).2.
Proof.
  destruct (framed_createExecution orc workflow context options w) as (Heng & _).
  unfold engine_static. rewrite Heng. repeat split; auto.
Qed.

Lemma static_prepare_created event r w : engine_static w (prepare_created event r w).
Proof.
  unfold prepare_created. cbv zeta.
  destruct r as [[e |] | err]; [destruct (_ && _ && _) | |]; case_match.
  all: try (eapply engine_static_trans; [| apply static_prepare]).
  all: try (eapply engine_static_trans; [| apply static_dispatch]).
  all: static.
Qed.

Lemma static_triggerSync_created workflow options r w :
  engine_static w (triggerSync_created workflow options r w).
Proof. unfold triggerSync_created, process, process_start. static. Qed.

Lemma static_trigger workflow context options w :
  engine_static w (trigger workflow context options w).2.
Proof. unfold trigger, triggerSync. static. Qed.

Lemma static_resume job w : engine_static w (resume job w).
Proof.
  unfold resume, resume_push. case_match; [| static].
  eapply engine_static_trans; [| apply static_dispatch]. static.
Qed.

Lemma static_resume_loaded job b w : engine_static w (resume_loaded job b w).
Proof.
  unfold resume_loaded, resume_push. repeat case_match; try solve [static].
  eapply engine_static_trans; [| apply static_dispatch]. static.
Qed.

Lemma static_start e w : engine_static w (start e w).
Proof.
  unfold start. case_match; [apply engine_static_refl |].
  eapply engine_static_trans; [| apply static_dispatch]. static.
Qed.

Lemma static_run t a w w' :
  run t a w = Some w' -> fills_cache t = false -> engine_static w w'.
Proof.
  intros Hrun Hne. destruct t; try discriminate Hne;
    destruct a; cbn [run resolved] in Hrun; simplify_eq.
  - apply static_prepare.
  - repeat case_match; simplify_eq; [unfold prepare_shift |]; static.
  - destruct (createExecution orc ev.1.1 ev.1.2 ev.2 w) as [r w2] eqn:Hc. simplify_eq.
    eapply engine_static_trans; [| apply static_prepare_created].
    pose proof (static_createExecution orc ev.1.1 ev.1.2 ev.2 w) as H.
    rewrite Hc in H. exact H.
  - destruct (createExecution orc wf c o w) as [r w2] eqn:Hc. simplify_eq.
    eapply engine_static_trans; [| apply static_triggerSync_created].
    pose proof (static_createExecution orc wf c o w) as H.
    rewrite Hc in H. exact H.
  - apply static_dispatch_polled.
  - apply static_dispatch_polled.
  - apply static_process_updated.
  - apply static_process_updated.
  - apply static_process_ran.
  - apply static_process_ran.
  - apply static_process_destroyed.
  - apply static_process_destroyed.
  - apply static_resume_loaded.
  - apply static_resume_loaded.
  - unfold beforeStop_finished. static.
Qed.

Lemma toggled_refl w : toggled w w.
Proof. repeat split. Qed.

Lemma toggled_trans w1 w2 w3 : toggled w1 w2 -> toggled w2 w3 -> toggled w1 w3.
Proof. intros (T1 & R1 & X1) (T2 & R2 & X2). repeat split; congruence. Qed.

Lemma toggled_toggle workflow enable silent t w :
  toggled w (toggle workflow enable silent t w).
Proof. unfold toggle, toggled. repeat case_match; repeat split; reflexivity. Qed.

Lemma toggled_toggle_all enable silent t l w :
  toggled w (fold_left (fun w workflow => toggle workflow enable silent t w) l w).
Proof.
  revert w. induction l as [| x l IH]; intros w; simpl; [apply toggled_refl |].
  eapply toggled_trans; [apply toggled_toggle | apply IH].
Qed.

Lemma toggled_save instance t w : toggled w (save instance t w).
Proof.
  unfold save, onBeforeSave, toggle, toggled.
  repeat (case_match; simplify_eq/=); repeat split; reflexivity.
Qed.

Lemma toggled_handleSyncMessage_received message w :
  toggled w (handleSyncMessage_received message w).
Proof.
  unfold handleSyncMessage_received.
  repeat case_match; try apply toggled_toggle; repeat split; reflexivity.
Qed.

Lemma toggled_handleSyncMessage_loaded cached id b w :
  toggled w (handleSyncMessage_loaded cached id b w).
Proof.
  unfold handleSyncMessage_loaded.
  repeat case_match; try apply toggled_toggle; apply toggled_refl.
Qed.

Lemma static_toggled w w' : engine_static w w' -> idle w -> idle w'.
Proof. intros (_ & _ & R & X) [Hr Hx]. split; [congruence | auto]. Qed.

Lemma toggled_idle w w' : toggled w w' -> idle w -> idle w'.
Proof. intros (_ & R & X) [Hr Hx]. split; congruence. Qed.

Lemma idle_step l w w' :
  is_app_start l = false -> idle w -> step l w = Some w' -> idle w'.
Proof.
  intros Hl H Hstep. destruct l; simpl in Hstep; try discriminate Hl.
  - simplify_eq. exact (static_toggled _ _ (static_trigger _ _ _ _) H).
  - simplify_eq. exact (static_toggled _ _ (static_resume _ _) H).
  - simplify_eq. exact (static_toggled _ _ (static_start _ _) H).
  - simplify_eq. exact (toggled_idle _ _ (toggled_save _ _ _) H).
  - destruct (checker (eng w)); simplify_eq.
    exact (static_toggled _ _ (static_dispatch _) H).
  - simplify_eq. unfold beforeStop. cbv zeta.
    set (x := fold_left _ _ w).
    assert (Hx : idle x) by (apply (toggled_idle w); [apply toggled_toggle_all | exact H]).
    clearbody x.
    assert (Hy : idle (on_eng (with_ready false) x)) by (destruct Hx; split; [reflexivity | assumption]).
    case_match.
    + pose proof (static_toggled _ _ (static_prepare _) Hy) as [? ?]. split; assumption.
    + destruct Hy. split; assumption.
  - destruct (tasks w !! i) as [t |] eqn:Hi; [| discriminate].
    assert (H1 : idle (with_tasks (delete i (tasks w)) w)) by exact H.
    destruct (fills_cache t) eqn:Hne;
      [| exact (static_toggled _ _ (static_run _ _ _ _ Hstep Hne) H1)].
    destruct t; try discriminate Hne.
    + destruct a; cbn [run] in Hstep; simplify_eq; [| exact H1].
      unfold afterStart_loaded. cbv zeta.
      set (x := fold_left _ _ _).
      assert (Hx : idle x) by (eapply toggled_idle; [apply toggled_toggle_all | exact H1]).
      clearbody x.
      apply (static_toggled (on_eng (with_checker true) x)); [apply static_dispatch |].
      exact Hx.
    + destruct a; cbn [run resolved] in Hstep; simplify_eq;
        exact (toggled_idle _ _ (toggled_handleSyncMessage_loaded _ _ _ _) H1).
  - destruct (tasks w !! i) as [t |] eqn:Hi; [| discriminate].
    destruct t; try discriminate. simplify_eq. exact H.
  - simplify_eq. exact (toggled_idle _ _ (toggled_handleSyncMessage_received _ _) H).
Qed.

(** X13: a stopped engine starts nothing. From a world in which the
    engine is not [ready] and no operation is in [executing], whatever
    happens short of the application starting again -- events, [resume],
    [start], saves, the timer, messages of other nodes, the answers to
    calls still suspended -- leaves it so: [ready] stays false, [executing] stays [null], and no
    poll and no [process] call of the dispatcher is suspended. *)
Theorem stopped_engine_stays_idle ls w w' :
  ready (eng w) = false ->
  executing (eng w) = None ->
  exclusive w ->
  forallb (fun l => negb (is_app_start l)) ls = true ->
  exec ls w = Some w' ->
  ready (eng w') = false /\
  executing (eng w') = None /\
  omap in_flight (tasks w') = [].
Proof.
  intros Hr Hx He Hls Hexec.
  assert (H : idle w' /\ exclusive w').
  { assert (H0 : idle w) by (split; assumption). clear Hr Hx.
    revert w H0 He Hls Hexec.
    induction ls as [| l ls IH]; intros w H0 He Hls Hexec; simpl in Hexec.
    - simplify_eq. split; assumption.
    - simpl in Hls. apply andb_true_iff in Hls as [Hl Hls].
      apply negb_true_iff in Hl.
      destruct (step l w) as [w1 |] eqn:Hstep; [| discriminate].
      apply (IH w1); [| | exact Hls | exact Hexec].
      + eapply idle_step; eassumption.
      + eapply step_exclusive; eassumption. }
  destruct H as [[Hr' Hx'] He']. repeat split; try assumption.
  unfold exclusive in He'. rewrite Hx' in He'. exact He'.
Qed.

Lemma coherent_static w w' :
  engine_static w w' -> cache_coherent (eng w) -> cache_coherent (eng w').
Proof.
  intros (T & C & _) Hc id wf Hl. rewrite C in Hl. rewrite T. exact (Hc id wf Hl).
Qed.

Lemma coherent_toggle workflow enable silent t w :
  cache_coherent (eng w) -> cache_coherent (eng (toggle workflow enable silent t w)).
Proof.
  intros Hc.
  destruct (toggled_toggle workflow enable silent t w) as (T & _).
  destruct (triggers (eng w) !! wf_type workflow) as [trig |] eqn:Htrig.
  - intros id wf Hl. rewrite (toggle_cache _ _ _ _ _ trig _ Htrig) in Hl.
    rewrite T. case_bool_decide; subst; [| exact (Hc id wf Hl)].
    destruct (default (wf_enabled workflow) enable); simplify_eq.
    split; [reflexivity | eauto].
  - unfold toggle. rewrite Htrig. exact Hc.
Qed.

Lemma coherent_toggle_all enable silent t l w :
  cache_coherent (eng w) ->
  cache_coherent (eng (fold_left (fun w workflow => toggle workflow enable silent t w) l w)).
Proof.
  revert w. induction l as [| x l IH]; intros w H; simpl; [exact H |].
  apply IH, coherent_toggle, H.
Qed.

Lemma coherent_save instance t w :
  cache_coherent (eng w) -> cache_coherent (eng (save instance t w)).
Proof.
  intros H. unfold save, onBeforeSave.
  repeat (case_match; simplify_eq/=).
  all: repeat (apply coherent_toggle).
  all: exact H.
Qed.

Lemma coherent_handleSyncMessage_received message w :
  cache_coherent (eng w) -> cache_coherent (eng (handleSyncMessage_received message w)).
Proof.
  intros H. unfold handleSyncMessage_received.
  repeat case_match; try apply coherent_toggle; exact H.
Qed.

Lemma coherent_handleSyncMessage_loaded cached id b w :
  cache_coherent (eng w) -> cache_coherent (eng (handleSyncMessage_loaded cached id b w)).
Proof.
  intros H. unfold handleSyncMessage_loaded.
  repeat case_match; try apply coherent_toggle; exact H.
Qed.

Lemma coherent_step l w w' :
  cache_coherent (eng w) -> step l w = Some w' -> cache_coherent (eng w').
Proof.
  intros H Hstep. destruct l; simpl in Hstep.
  - simplify_eq. exact (coherent_static _ _ (static_trigger _ _ _ _) H).
  - simplify_eq. exact (coherent_static _ _ (static_resume _ _) H).
  - simplify_eq. exact (coherent_static _ _ (static_start _ _) H).
  - simplify_eq. apply coherent_save, H.
  - destruct (checker (eng w)); simplify_eq.
    exact (coherent_static _ _ (static_dispatch _) H).
  - simplify_eq. exact H.
  - simplify_eq. unfold beforeStop. cbv zeta.
    set (x := fold_left _ _ w).
    assert (Hx : cache_coherent (eng x)) by (apply coherent_toggle_all, H).
    clearbody x.
    assert (Hy : cache_coherent (eng (on_eng (with_ready false) x))) by exact Hx.
    case_match; [| exact Hy].
    exact (coherent_static _ _ (static_prepare _) Hy).
  - destruct (tasks w !! i) as [t |] eqn:Hi; [| discriminate].
    assert (H1 : cache_coherent (eng (with_tasks (delete i (tasks w)) w))) by exact H.
    destruct (fills_cache t) eqn:Hne;
      [| exact (coherent_static _ _ (static_run _ _ _ _ Hstep Hne) H1)].
    destruct t; try discriminate Hne.
    + destruct a; cbn [run] in Hstep; simplify_eq; [| exact H1].
      unfold afterStart_loaded. cbv zeta.
      set (x := fold_left _ _ _).
      assert (Hx : cache_coherent (eng x)) by (apply coherent_toggle_all, H1).
      clearbody x.
      apply (coherent_static (on_eng (with_checker true) x)); [apply static_dispatch |].
      exact Hx.
    + destruct a; cbn [run resolved] in Hstep; simplify_eq;
        apply coherent_handleSyncMessage_loaded, H1.
  - destruct (tasks w !! i) as [t |] eqn:Hi; [| discriminate].
    destruct t; try discriminate. simplify_eq. exact H.
  - simplify_eq. apply coherent_handleSyncMessage_received, H.
Qed.

(** The cache is coherent in every world the engine reaches. *)
Lemma reachable_coherent registry d w :
  reachable (init registry d) w -> cache_coherent (eng w).
Proof.
  apply (reachable_invariant (fun w => cache_coherent (eng w))); [apply coherent_step |].
  intros id wf Hl. simpl in Hl. rewrite lookup_empty in Hl. discriminate.
Qed.


Lemma toggle_off_all l w id :
  (forall x, In x l -> is_Some (triggers (eng w) !! wf_type x)) ->
  let w' := fold_left (fun w workflow => toggle workflow (Some false) true None w) l w in
  enabledCache (eng w') !! id =
    (if bool_decide (id ∈ map wf_id l) then None else enabledCache (eng w) !! id) /\
  effects w' = effects w ++ map (fun x => TriggerOff (wf_id x) (wf_config x)) l.
Proof.
  revert w. induction l as [| x l IH]; intros w Hl; cbn [fold_left map].
  - rewrite bool_decide_eq_false_2 by apply not_elem_of_nil.
    rewrite app_nil_r. split; reflexivity.
  - destruct (Hl x (or_introl eq_refl)) as [trig Htrig].
    destruct (toggled_toggle x (Some false) true None w) as (T & _).
    destruct (IH (toggle x (Some false) true None w)) as [Hc He].
    { intros y Hy. rewrite T. apply Hl. right. exact Hy. }
    split.
    + rewrite Hc, (toggle_cache _ _ _ _ _ trig _ Htrig). simpl.
      repeat case_bool_decide; subst; try reflexivity;
        rewrite elem_of_cons in *; tauto.
    + rewrite He. unfold toggle. rewrite Htrig. simpl.
      rewrite <- app_assoc. reflexivity.
Qed.

Lemma effects_prepare w : effects (prepare w) = effects w.
Proof. unfold prepare, prepare_shift. repeat case_match; reflexivity. Qed.


Lemma toggle_on_all l w r :
  In r l ->
  is_Some (triggers (eng w) !! wf_type r) ->
  let w' := fold_left (fun w workflow => toggle workflow (Some true) true None w) l w in
  exists r', In r' l /\ wf_id r' = wf_id r /\
             enabledCache (eng w') !! wf_id r = Some r'.
Proof.
  induction l as [| x l IH] using rev_ind; intros Hr Hreg; [destruct Hr |].
  simpl. rewrite fold_left_app. simpl.
  set (w1 := fold_left _ l w) in *.
  assert (T : triggers (eng w1) = triggers (eng w))
    by exact (proj1 (toggled_toggle_all (Some true) true None l w)).
  destruct (triggers (eng w) !! wf_type x) as [trig |] eqn:Htrig.
  - rewrite (toggle_cache _ _ _ _ _ trig) by (rewrite T; exact Htrig). simpl.
    case_bool_decide as Hid.
    + exists x. split; [apply in_or_app; right; left; reflexivity |].
      split; [symmetry; exact Hid | reflexivity].
    + apply in_app_or in Hr as [Hr | [-> | []]]; [| congruence].
      destruct (IH Hr Hreg) as (r' & Hin & Hid' & Hl).
      exists r'. split; [apply in_or_app; left; exact Hin | auto].
  - assert (Hne : r <> x) by (intros ->; rewrite Htrig in Hreg; destruct Hreg; discriminate).
    apply in_app_or in Hr as [Hr | [E | []]]; [| congruence].
    destruct (IH Hr Hreg) as (r' & Hin & Hid' & Hl).
    exists r'. split; [apply in_or_app; left; exact Hin |]. split; [exact Hid' |].
    unfold toggle. rewrite T, Htrig. exact Hl.
Qed.

(** X16: when the application has started, every enabled workflow in
    storage whose trigger type is registered is in [enabledCache] under
    its id, as an enabled row of that id. *)
Theorem afterStart_loaded_caches_enabled w r :
  In r (db_workflows (db w)) ->
  wf_enabled r = true ->
  is_Some (triggers (eng w) !! wf_type r) ->
  exists r',
    In r' (db_workflows (db w)) /\
    wf_enabled r' = true /\
    wf_id r' = wf_id r /\
    enabledCache (eng (afterStart_loaded w)) !! wf_id r = Some r'.
Proof.
  intros Hr Hen Hreg.
  assert (Hin : In r (List.filter wf_enabled (db_workflows (db w))))
    by (apply List.filter_In; split; assumption).
  destruct (toggle_on_all _ w r Hin Hreg) as (r' & Hin' & Hid & Hl).
  apply List.filter_In in Hin' as [Hin' Hen'].
  exists r'. repeat split; try assumption.
  unfold afterStart_loaded. cbv zeta.
  destruct (static_dispatch (on_eng (with_checker true)
              (fold_left (fun w workflow => toggle workflow (Some true) true None w)
                 (List.filter wf_enabled (db_workflows (db w))) w))) as (_ & C & _).
  rewrite C. exact Hl.
Qed.

(** ** Versions of a workflow *)

Lemma counters_moved_refl l : Forall2 counters_moved l l.
Proof.
  induction l as [| r l IH]; constructor; [| exact IH].
  exists (wf_executed r), (wf_allExecuted r). destruct r; reflexivity.
Qed.

Lemma counters_moved_update p f l :
  (forall r, counters_moved r (f r)) ->
  Forall2 counters_moved l (update_where p f l).
Proof.
  intros Hf. induction l as [| r l IH]; simpl; constructor; [| exact IH].
  destruct (p r); [apply Hf |].
  exists (wf_executed r), (wf_allExecuted r). destruct r; reflexivity.
Qed.

Lemma counters_moved_trans l1 l2 l3 :
  Forall2 counters_moved l1 l2 -> Forall2 counters_moved l2 l3 ->
  Forall2 counters_moved l1 l3.
Proof.
  intros H12. revert l3. induction H12 as [| a b l1 l2 Hab _ IH]; intros l3 H23.
  - inversion H23. constructor.
  - inversion H23 as [| b' c l2' l3' Hbc Hrest]; subst. constructor; [| apply IH, Hrest].
    destruct Hab as (x & y & ->), Hbc as (x' & y' & ->). exists x', y'. reflexivity.
Qed.

Lemma createExecution_moves_counters orc workflow context options w :
  Forall2 counters_moved (db_workflows (db w))
    (db_workflows (db (createExecution orc workflow context options w).2)).
Proof.
  unfold createExecution, bind, in_transaction, try_catch, useDataSourceTransaction,
    validateEvent, insert_execution, increment, reload, update_allExecuted,
    commit, rollback, when, storage, act, ret, throw, bind.
  simpl.
  repeat (case_match; simplify_eq/=); try apply counters_moved_refl.
  all: repeat first
         [ apply counters_moved_update; intros; eexists _, _; reflexivity
         | eapply counters_moved_trans;
           [| apply counters_moved_update; intros; eexists _, _; reflexivity] ].
Qed.

(** What a step of the engine does to the table of workflows: it is a
    save, or at most counters move. *)
Lemma step_workflows l w w' :
  step l w = Some w' ->
  (exists instance t, w' = save instance t w) \/
  Forall2 counters_moved (db_workflows (db w)) (db_workflows (db w')).
Proof.
  intros Hstep.
  assert (Heq : db_workflows (db w') = db_workflows (db w) ->
                (exists instance t, w' = save instance t w) \/
                Forall2 counters_moved (db_workflows (db w)) (db_workflows (db w')))
    by (intros ->; right; apply counters_moved_refl).
  destruct l; simpl in Hstep.
  - simplify_eq. apply Heq. unfold trigger, triggerSync. same_workflows.
  - simplify_eq. apply Heq. unfold resume, resume_push. same_workflows.
  - simplify_eq. apply Heq. unfold start. same_workflows.
  - simplify_eq. left. eauto.
  - destruct (checker (eng w)); simplify_eq. apply Heq, workflows_dispatch.
  - simplify_eq. apply Heq. reflexivity.
  - simplify_eq. apply Heq. unfold beforeStop. same_workflows.
  - destruct (tasks w !! i) as [t |]; [| discriminate].
    set (w1 := with_tasks (delete i (tasks w)) w) in *.
    change (db_workflows (db w)) with (db_workflows (db w1)) in *.
    clearbody w1. right.
    assert (Heq' : db_workflows (db w') = db_workflows (db w1) ->
                   Forall2 counters_moved (db_workflows (db w1)) (db_workflows (db w')))
      by (intros ->; apply counters_moved_refl).
    destruct t; cbn [run] in Hstep.
    + destruct a; simplify_eq. apply Heq', workflows_prepare.
    + destruct a; repeat case_match; simplify_eq; apply Heq';
        unfold prepare_shift; same_workflows.
    + destruct a; try discriminate.
      pose proof (createExecution_moves_counters orc ev.1.1 ev.1.2 ev.2 w1) as Hf.
      destruct (createExecution orc ev.1.1 ev.1.2 ev.2 w1) as [r w2].
      simplify_eq. simpl in Hf.
      replace (db_workflows (db (prepare_created ev r w2))) with (db_workflows (db w2));
        [exact Hf |].
      unfold prepare_created. same_workflows.
    + destruct a; try discriminate.
      pose proof (createExecution_moves_counters orc wf c o w1) as Hf.
      destruct (createExecution orc wf c o w1) as [r w2].
      simplify_eq. simpl in Hf.
      replace (db_workflows (db (triggerSync_created wf o r w2)))
        with (db_workflows (db w2)); [exact Hf |].
      unfold triggerSync_created. same_workflows.
    + destruct a; simplify_eq; apply Heq'; unfold dispatch_polled; same_workflows.
    + destruct a; simplify_eq; apply Heq'; unfold process_updated, process_start;
        same_workflows.
    + destruct a; simplify_eq; apply Heq'; unfold process_ran; same_workflows.
    + destruct a; simplify_eq; apply Heq'; unfold process_destroyed; same_workflows.
    + destruct a; simplify_eq; apply Heq'; unfold resume_loaded, resume_push;
        same_workflows.
    + destruct a; simplify_eq; apply Heq'; [unfold afterStart_loaded; same_workflows |].
      reflexivity.
    + destruct a; simplify_eq. apply Heq'. reflexivity.
    + destruct a; simplify_eq; apply Heq'; unfold handleSyncMessage_loaded;
        same_workflows.
  - destruct (tasks w !! i) as [t |]; [| discriminate].
    destruct t; try discriminate. simplify_eq. apply Heq. reflexivity.
  - simplify_eq. apply Heq. unfold handleSyncMessage_received. same_workflows.
Qed.

Lemma stored_In {A} (p : A -> bool) (x : A) (l : list A) :
  In x (if existsb p l then update_where p (fun _ => x) l else l ++ [x]).
Proof.
  destruct (existsb p l) eqn:He.
  - apply existsb_exists in He as (y & Hy & Hp).
    unfold update_where. apply in_map_iff. exists y. rewrite Hp. auto.
  - apply in_or_app. right. left. reflexivity.
Qed.

Lemma stored_other {A} (p : A -> bool) (x y : A) (l : list A) :
  In y l -> p y = false ->
  In y (if existsb p l then update_where p (fun _ => x) l else l ++ [x]).
Proof.
  intros Hy Hp. destruct (existsb p l).
  - unfold update_where. apply in_map_iff. exists y. rewrite Hp. auto.
  - apply in_or_app. left. exact Hy.
Qed.

Lemma stored_inv {A} (p : A -> bool) (x y : A) (l : list A) :
  In y (if existsb p l then update_where p (fun _ => x) l else l ++ [x]) ->
  y = x \/ In y l.
Proof.
  destruct (existsb p l).
  - intros H. apply In_update_where in H as (r & Hr & ->).
    destruct (p r); auto.
  - intros H. apply in_app_or in H as [H | [<- | []]]; auto.
Qed.

Lemma find_pointwise {A} (f g : A -> bool) (l : list A) :
  (forall x, f x = g x) -> List.find f l = List.find g l.
Proof.
  intros H. induction l as [| x l IH]; simpl; [reflexivity |].
  rewrite H, IH. reflexivity.
Qed.

Lemma stored_same {A} (p : A -> bool) (x y : A) (l : list A) :
  In y (if existsb p l then update_where p (fun _ => x) l else l ++ [x]) ->
  p y = true -> y = x.
Proof.
  destruct (existsb p l) eqn:He; intros H Hp.
  - apply In_update_where in H as (r & Hr & ->).
    destruct (p r) eqn:Hpr; [reflexivity | congruence].
  - apply in_app_or in H as [H | [<- | []]]; [| reflexivity].
    assert (existsb p l = true) by (apply existsb_exists; eauto). congruence.
Qed.

Lemma current_set_current r :
  wf_current r = Some true -> set_current (Some true) r = r.
Proof. destruct r. simpl. intros ->. reflexivity. Qed.


(** X18: saving an enabled version makes it the current version of its
    key: it is stored with [current = true], and (on a table with at most
    one current version per key) any row of the key that is current
    afterwards is that version. *)
Theorem save_makes_enabled_current instance t w r :
  unique_current (db_workflows (db w)) ->
  wf_enabled instance = true ->
  let table := db_workflows (db (save instance t w)) in
  In (set_current (Some true) instance) table /\
  (In r table -> wf_key r = wf_key instance -> wf_current r = Some true ->
   wf_id r = wf_id instance).
Proof.
  intros Huniq Hen table.
  assert (Hin : In (set_current (Some true) instance) table).
  { unfold table. rewrite save_workflows. cbv zeta.
    unfold enabled_is_current. rewrite Hen.
    destruct (bool_decide _); apply stored_In. }
  split; [exact Hin |].
  intros Hr Hk Hc.
  apply (save_unique_current instance t w Huniq r (set_current (Some true) instance));
    auto.
Qed.

Lemma save_enabled_current instance t w :
  enabled_current (db_workflows (db w)) ->
  enabled_current (db_workflows (db (save instance t w))).
Proof.
  intros H r. rewrite save_workflows. cbv zeta.
  set (instance0 := enabled_is_current instance).
  assert (H0 : wf_enabled instance0 = true -> wf_current instance0 = Some true).
  { unfold instance0, enabled_is_current.
    destruct (wf_enabled instance) eqn:He; [reflexivity | congruence]. }
  intros Hin Hen. apply stored_inv in Hin as [-> | Hin].
  - destruct (bool_decide _); [auto | reflexivity].
  - destruct (List.find _ _) as [previous |]; [| auto].
    destruct (is_current _); [| auto].
    apply In_update_where in Hin as (x & Hx & ->).
    destruct (has_id _ x); [discriminate | auto].
Qed.

Lemma enabled_current_counters l l' :
  Forall2 counters_moved l l' -> enabled_current l -> enabled_current l'.
Proof.
  intros HF H r' Hin Hen.
  destruct (Forall2_In_r _ _ _ _ HF Hin) as (r & Hr & x & y & ->).
  exact (H r Hr Hen).
Qed.

Lemma unique_current_counters l l' :
  Forall2 counters_moved l l' -> unique_current l -> unique_current l'.
Proof.
  intros HF. apply unique_current_same_identity.
  induction HF as [| a b l l' (x & y & ->) _ IH]; constructor; [| exact IH].
  repeat split.
Qed.

(** X19: at most one version of a workflow is enabled at a time. If in
    the initial table every enabled row is current and each key has at
    most one current row, then in every world the engine reaches two
    enabled rows of the same key are the same version. *)
Theorem one_enabled_version_per_key w0 w r1 r2 :
  unique_current (db_workflows (db w0)) ->
  enabled_current (db_workflows (db w0)) ->
  reachable w0 w ->
  In r1 (db_workflows (db w)) ->
  In r2 (db_workflows (db w)) ->
  wf_key r1 = wf_key r2 ->
  wf_enabled r1 = true ->
  wf_enabled r2 = true ->
  wf_id r1 = wf_id r2.
Proof.
  intros Hu He Hw.
  assert (H : unique_current (db_workflows (db w)) /\
              enabled_current (db_workflows (db w))).
  { revert Hw.
    apply (reachable_invariant
             (fun w => unique_current (db_workflows (db w)) /\
                       enabled_current (db_workflows (db w)))); [| auto].
    intros l w1 w2 [Hu1 He1] Hstep.
    destruct (step_workflows l w1 w2 Hstep) as [(instance & t & ->) | HF].
    - split; [apply save_unique_current | apply save_enabled_current]; assumption.
    - split; [eapply unique_current_counters | eapply enabled_current_counters];
        eassumption. }
  destruct H as [Hu' He']. intros H1 H2 Hk E1 E2.
  apply Hu'; auto.
Qed.

(** ** From an event to its execution *)

Lemma lookup_snoc {A} (l : list A) x : (l ++ [x]) !! length l = Some x.
Proof. rewrite lookup_app_r by lia. rewrite Nat.sub_diag. reflexivity. Qed.

Lemma delete_snoc {A} (l : list A) x : delete (length l) (l ++ [x]) = l.
Proof.
  induction l as [| y l IH]; simpl; [reflexivity |]. f_equal. exact IH.
Qed.

(** [handleSyncMessage] in one go is what the engine does in steps: the
    message is taken up to the [await], and the answer of storage
    resumes the call. *)
Lemma handleSyncMessage_in_steps (ok : bool) message w :
  exists w1,
    step (MessageArrives message) w = Some w1 /\
    if bool_decide (msg_type message = "statusChange"%string) && msg_enabled message
    then step (Run (length (tasks w)) (if ok then Resolves else Rejects)) w1
         = Some (handleSyncMessage ok message w).2
    else w1 = (handleSyncMessage ok message w).2.
Proof.
  eexists. split; [reflexivity |].
  unfold handleSyncMessage_received, handleSyncMessage, bind, storage, act, ret.
  destruct (bool_decide (msg_type message = "statusChange"%string)); [| reflexivity].
  destruct (msg_enabled message); simpl;
    [| destruct (enabledCache (eng w) !! msg_workflowId message); reflexivity].
  destruct w as [e d ts lg ef st np]. simpl.
  destruct (enabledCache e !! msg_workflowId message) as [cached |];
    unfold suspend; simpl; rewrite lookup_snoc, delete_snoc;
    destruct ok; cbn [run resolved]; unfold handleSyncMessage_loaded, with_tasks, on_db;
    simpl; try reflexivity.
  - destruct (find_workflow (wf_id cached) (db_workflows d)); reflexivity.
  - destruct (find_workflow (msg_workflowId message) (db_workflows d)); reflexivity.
Qed.

(** X20: an event on a started, idle engine goes straight to its
    execution. With nothing queued, pending or in flight, an event of an
    enabled workflow with an asynchronous trigger sets the timer; when the
    timer fires, [prepare] takes the event off the queue and asks for the
    execution; and when [createExecution] returns it, that execution
    (QUEUEING, as [deferred] is unset) passes through [pending] into
    [dispatch] in the same turn: [executing] holds the new operation,
    whose [process] call is waiting for storage to set STARTED, and both
    queues are empty again. *)
Theorem accepted_event_goes_straight_to_process workflow context options w trig orc :
  ready (eng w) = true ->
  executing (eng w) = None ->
  events (eng w) = [] ->
  pending (eng w) = [] ->
  wf_enabled workflow = true ->
  manually options = false ->
  deferred options = false ->
  is_nullish context = false ->
  triggers (eng w) !! wf_type workflow = Some trig ->
  default (wf_sync workflow) (trig_sync trig) = false ->
  let n := length (tasks w) in
  let event := (workflow, context, without_transaction options) in
  exists w1,
    exec [CallTrigger workflow context options; Run n Resolves] w = Some w1 /\
    tasks w1 = tasks w ++ [PrepareCreating event] /\
    events (eng w1) = [] /\
    forall e w2,
      createExecution orc workflow context (without_transaction options)
        (with_tasks (tasks w) w1) = (Ok (Some e), w2) ->
      exists w3,
        step (Run n (Answers orc)) w1 = Some w3 /\
        executing (eng w3) = Some (next_promise w) /\
        pending (eng w3) = [] /\
        events (eng w3) = [] /\
        tasks w3 = tasks w ++ [ProcessUpdating (ByDispatcher (next_promise w)) e None].
Proof.
  intros Hready Hexec Hev Hpend Hen Hman Hdef Hctx Htrig Hsync n event. subst n event.
  cbn [exec step]. unfold trigger, isWorkflowSync.
  rewrite Hready, Hen, Hman, Hctx, Htrig, Hsync, Hev. simpl.
  rewrite lookup_snoc. simpl.
  rewrite delete_snoc. unfold prepare. simpl. rewrite Hexec.
  unfold prepare_shift. simpl.
  eexists. split; [reflexivity |]. split; [reflexivity |]. split; [reflexivity |].
  intros e w2 Hc. simpl. rewrite lookup_snoc. simpl.
  rewrite delete_snoc. simpl in Hc.
  match type of Hc with
  | createExecution _ _ _ _ ?x = _ => set (w1 := x) in *
  end.
  pose proof (framed_createExecution orc workflow context (without_transaction options) w1)
    as (Heng & Htasks & Hsettled & Hnext & Heff).
  pose proof (createExecution_rows orc workflow context (without_transaction options) w1)
    as Hrows.
  rewrite Hc in Heng, Htasks, Hnext, Hrows. simpl in Heng, Htasks, Hnext, Hrows.
  assert (Hs : ex_status e = QUEUEING).
  { rewrite Hdef in Hrows.
    destruct Hrows as [[_ H] | (row & _ & _ & H)]; [destruct (H e); reflexivity |].
    apply (H e). reflexivity. }
  rewrite Hc. eexists. split; [reflexivity |].
  unfold prepare_created, dispatch, process.
  assert (Hq : status_eqb QUEUEING QUEUEING = true)
    by (apply bool_decide_eq_true_2; reflexivity).
  rewrite Hs.
  repeat (progress (simpl; rewrite ?Hs, ?Hq, ?Heng, ?Hexec, ?Hpend, ?Hready, ?Htasks, ?Hnext;
                    simpl)).
  repeat split; reflexivity.
Qed.

(** *** Databases other than sqlite *)

Lemma no_wait_frame_refl w : no_wait_frame w w.
Proof.
  split; [reflexivity |].
  split; exists []; (split; [symmetry; apply app_nil_r |]); [reflexivity | intros []].
Qed.

Lemma no_wait_frame_trans w1 w2 w3 :
  no_wait_frame w1 w2 -> no_wait_frame w2 w3 -> no_wait_frame w1 w3.
Proof.
  intros (D1 & (ts1 & T1 & A1) & (ss1 & S1 & R1)) (D2 & (ts2 & T2 & A2) & (ss2 & S2 & R2)).
  split; [congruence |]. split.
  - exists (ts1 ++ ts2). split; [rewrite T2, T1, app_assoc; reflexivity |].
    rewrite existsb_app, A1, A2. reflexivity.
  - exists (ss1 ++ ss2). split; [rewrite S2, S1, app_assoc; reflexivity |].
    rewrite in_app_iff. tauto.
Qed.

Ltac no_wait :=
  intros; unfold no_wait_frame;
  repeat (case_match; simplify_eq/=);
  try (exfalso; decided;
       match goal with
       | H : bool_decide (_ = sqlite) = true |- _ => apply bool_decide_eq_true in H
       end; congruence);
  (split; [reflexivity |]);
  split; eexists;
    (split; [rewrite <- ?app_assoc; simpl; first [reflexivity | symmetry; apply app_nil_r] |]);
    simpl; first [reflexivity | intuition discriminate].

Lemma no_wait_prepare w :
  db_dialect (db w) <> sqlite -> no_wait_frame w (prepare w).
Proof. unfold prepare, prepare_shift. no_wait. Qed.

Lemma no_wait_process o e j t w : no_wait_frame w (process o e j t w).
Proof. unfold process, process_start. no_wait. Qed.

Lemma no_wait_dispatch w :
  db_dialect (db w) <> sqlite -> no_wait_frame w (dispatch w).
Proof. unfold dispatch, prepare, prepare_shift, process, process_start. no_wait. Qed.

Lemma no_wait_then w w1 w2 :
  db_dialect (db w) <> sqlite ->
  no_wait_frame w w1 ->
  (db_dialect (db w1) <> sqlite -> no_wait_frame w1 w2) ->
  no_wait_frame w w2.
Proof.
  intros Hd H1 H2. eapply no_wait_frame_trans; [exact H1 |].
  apply H2. destruct H1 as (D & _). rewrite D. exact Hd.
Qed.

Lemma no_wait_dispatch_finally p next b w :
  db_dialect (db w) <> sqlite -> no_wait_frame w (dispatch_finally p next b w).
Proof.
  intros Hd. unfold dispatch_finally. destruct next; [| no_wait].
  eapply no_wait_then; [exact Hd | | apply no_wait_dispatch]. no_wait.
Qed.

Lemma no_wait_process_settled o e b w :
  db_dialect (db w) <> sqlite -> no_wait_frame w (process_settled o e b w).
Proof.
  intros Hd. unfold process_settled. destruct o; [| no_wait].
  eapply no_wait_then; [exact Hd | | apply no_wait_dispatch_finally]. no_wait.
Qed.

Lemma no_wait_process_updated o e j b w :
  db_dialect (db w) <> sqlite -> no_wait_frame w (process_updated o e j b w).
Proof.
  intros Hd. unfold process_updated. destruct b; [unfold process_start; no_wait |].
  apply no_wait_process_settled, Hd.
Qed.

Lemma no_wait_process_ran o e b w :
  db_dialect (db w) <> sqlite -> no_wait_frame w (process_ran o e b w).
Proof.
  intros Hd. unfold process_ran.
  repeat case_match;
    try (eapply no_wait_then; [exact Hd | | apply no_wait_process_settled]); no_wait.
Qed.

Lemma no_wait_process_destroyed o e b w :
  db_dialect (db w) <> sqlite -> no_wait_frame w (process_destroyed o e b w).
Proof.
  intros Hd. unfold process_destroyed.
  eapply no_wait_then; [exact Hd | | apply no_wait_process_settled]. no_wait.
Qed.

Lemma no_wait_dispatch_polled p b w :
  db_dialect (db w) <> sqlite -> no_wait_frame w (dispatch_polled p b w).
Proof.
  intros Hd. unfold dispatch_polled.
  repeat case_match; try (apply no_wait_dispatch_finally, Hd).
  eapply no_wait_then; [exact Hd | | intros _; apply no_wait_process]. no_wait.
Qed.

Lemma no_wait_createExecution orc workflow context options w :
  no_wait_frame w (createExecution orc workflow context options w).2.
Proof.
  destruct (framed_createExecution orc workflow context options w)
    as (_ & Htasks & Hsettled & _).
  split; [apply dialect_createExecution |].
  rewrite Htasks, Hsettled.
  split; exists []; (split; [symmetry; apply app_nil_r |]); [reflexivity | intros []].
Qed.

Lemma no_wait_prepare_created event r w :
  db_dialect (db w) <> sqlite -> no_wait_frame w (prepare_created event r w).
Proof.
  intros Hd. unfold prepare_created. cbv zeta.
  destruct r as [[e |] | err]; [destruct (_ && _ && _) | |]; case_match.
  all: try (eapply no_wait_then; [exact Hd | | apply no_wait_prepare]).
  all: try (eapply no_wait_then; [exact Hd | | apply no_wait_dispatch]).
  all: no_wait.
Qed.

Lemma no_wait_triggerSync_created workflow options r w :
  no_wait_frame w (triggerSync_created workflow options r w).
Proof. unfold triggerSync_created, process, process_start. no_wait. Qed.

Lemma no_wait_trigger workflow context options w :
  no_wait_frame w (trigger workflow context options w).2.
Proof. unfold trigger, triggerSync. no_wait. Qed.

Lemma no_wait_resume job w :
  db_dialect (db w) <> sqlite -> no_wait_frame w (resume job w).
Proof.
  intros Hd. unfold resume, resume_push. case_match; [| no_wait].
  eapply no_wait_then; [exact Hd | | apply no_wait_dispatch]. no_wait.
Qed.

Lemma no_wait_resume_loaded job b w :
  db_dialect (db w) <> sqlite -> no_wait_frame w (resume_loaded job b w).
Proof.
  intros Hd. unfold resume_loaded, resume_push. repeat case_match; try solve [no_wait].
  eapply no_wait_then; [exact Hd | | apply no_wait_dispatch]. no_wait.
Qed.

Lemma no_wait_start e w :
  db_dialect (db w) <> sqlite -> no_wait_frame w (start e w).
Proof.
  intros Hd. unfold start. case_match; [apply no_wait_frame_refl |].
  eapply no_wait_then; [exact Hd | | apply no_wait_dispatch]. no_wait.
Qed.

Lemma no_wait_toggle workflow enable silent t w :
  no_wait_frame w (toggle workflow enable silent t w).
Proof. unfold toggle. no_wait. Qed.

Lemma no_wait_toggle_all enable silent t l w :
  no_wait_frame w (fold_left (fun w workflow => toggle workflow enable silent t w) l w).
Proof.
  revert w. induction l as [| x l IH]; intros w; simpl; [apply no_wait_frame_refl |].
  eapply no_wait_frame_trans; [apply no_wait_toggle | apply IH].
Qed.

Lemma no_wait_save instance t w : no_wait_frame w (save instance t w).
Proof. unfold save, onBeforeSave, toggle. no_wait. Qed.

Lemma no_wait_afterStart_loaded w :
  db_dialect (db w) <> sqlite -> no_wait_frame w (afterStart_loaded w).
Proof.
  intros Hd. unfold afterStart_loaded. cbv zeta.
  eapply no_wait_then; [exact Hd | apply no_wait_toggle_all |]. intros Hd1.
  eapply no_wait_then; [exact Hd1 | | apply no_wait_dispatch]. no_wait.
Qed.

Lemma no_wait_beforeStop w :
  db_dialect (db w) <> sqlite -> no_wait_frame w (beforeStop w).
Proof.
  intros Hd. unfold beforeStop. cbv zeta.
  set (x := fold_left _ _ w).
  assert (Hx : no_wait_frame w x) by apply no_wait_toggle_all.
  clearbody x.
  eapply no_wait_then; [exact Hd | exact Hx |]. intros Hd1.
  case_match.
  - eapply (no_wait_then _ (prepare (on_eng (with_ready false) x))); [exact Hd1 | |].
    + eapply (no_wait_then _ (on_eng (with_ready false) x)); [exact Hd1 | no_wait |].
      apply no_wait_prepare.
    + intros _. no_wait.
  - no_wait.
Qed.

Lemma no_wait_handleSyncMessage_received message w :
  no_wait_frame w (handleSyncMessage_received message w).
Proof. unfold handleSyncMessage_received, toggle. no_wait. Qed.

Lemma no_wait_handleSyncMessage_loaded cached id b w :
  no_wait_frame w (handleSyncMessage_loaded cached id b w).
Proof. unfold handleSyncMessage_loaded, toggle. no_wait. Qed.

Lemma no_wait_run t a w w' :
  db_dialect (db w) <> sqlite ->
  is_awaiting t = false ->
  run t a w = Some w' ->
  no_wait_frame w w'.
Proof.
  intros Hd Ht Hrun. destruct t; try discriminate Ht;
    destruct a; cbn [run resolved] in Hrun; simplify_eq.
  - apply no_wait_prepare, Hd.
  - destruct (createExecution orc ev.1.1 ev.1.2 ev.2 w) as [r w2] eqn:Hc. simplify_eq.
    pose proof (no_wait_createExecution orc ev.1.1 ev.1.2 ev.2 w) as H.
    rewrite Hc in H.
    eapply no_wait_then; [exact Hd | exact H | apply no_wait_prepare_created].
  - destruct (createExecution orc wf c o w) as [r w2] eqn:Hc. simplify_eq.
    pose proof (no_wait_createExecution orc wf c o w) as H.
    rewrite Hc in H.
    eapply no_wait_frame_trans; [exact H | apply no_wait_triggerSync_created].
  - apply no_wait_dispatch_polled, Hd.
  - apply no_wait_dispatch_polled, Hd.
  - apply no_wait_process_updated, Hd.
  - apply no_wait_process_updated, Hd.
  - apply no_wait_process_ran, Hd.
  - apply no_wait_process_ran, Hd.
  - apply no_wait_process_destroyed, Hd.
  - apply no_wait_process_destroyed, Hd.
  - apply no_wait_resume_loaded, Hd.
  - apply no_wait_resume_loaded, Hd.
  - apply no_wait_afterStart_loaded, Hd.
  - apply no_wait_frame_refl.
  - unfold beforeStop_finished. no_wait.
  - apply no_wait_handleSyncMessage_loaded.
  - apply no_wait_handleSyncMessage_loaded.
Qed.

Lemma existsb_lookup {A} (f : A -> bool) (l : list A) i t :
  existsb f l = false -> l !! i = Some t -> f t = false.
Proof.
  intros H Hi. destruct (f t) eqn:Ht; [| reflexivity].
  rewrite <- H. symmetry. apply existsb_exists. exists t.
  split; [apply list_elem_of_In; eapply list_elem_of_lookup_2; exact Hi | exact Ht].
Qed.

Lemma never_waited_frame w w' :
  no_wait_frame w w' ->
  db_dialect (db w) <> sqlite /\ never_waited w ->
  db_dialect (db w') <> sqlite /\ never_waited w'.
Proof.
  intros (D & (ts & T & A) & (ss & S & R)) (Hd & Ha & Hr).
  split; [rewrite D; exact Hd |]. split.
  - rewrite T, existsb_app, Ha, A. reflexivity.
  - rewrite S, in_app_iff. tauto.
Qed.

Lemma never_waited_step l w w' :
  db_dialect (db w) <> sqlite /\ never_waited w ->
  step l w = Some w' ->
  db_dialect (db w') <> sqlite /\ never_waited w'.
Proof.
  intros H Hstep. pose proof H as (Hd & Ha & Hr).
  destruct l; simpl in Hstep.
  - simplify_eq. exact (never_waited_frame _ _ (no_wait_trigger _ _ _ _) H).
  - simplify_eq. exact (never_waited_frame _ _ (no_wait_resume _ _ Hd) H).
  - simplify_eq. exact (never_waited_frame _ _ (no_wait_start _ _ Hd) H).
  - simplify_eq. exact (never_waited_frame _ _ (no_wait_save _ _ _) H).
  - destruct (checker (eng w)); simplify_eq.
    exact (never_waited_frame _ _ (no_wait_dispatch _ Hd) H).
  - simplify_eq. apply (never_waited_frame w); [unfold afterStart; no_wait | exact H].
  - simplify_eq. exact (never_waited_frame _ _ (no_wait_beforeStop _ Hd) H).
  - destruct (tasks w !! i) as [t |] eqn:Hi; [| discriminate].
    pose proof (existsb_lookup _ _ _ _ Ha Hi) as Ht.
    apply (never_waited_frame (with_tasks (delete i (tasks w)) w)).
    + apply (no_wait_run t a); [exact Hd | exact Ht | exact Hstep].
    + split; [exact Hd |]. split; [| exact Hr].
      simpl. rewrite (existsb_delete _ _ _ _ Hi Ht). exact Ha.
  - destruct (tasks w !! i) as [t |] eqn:Hi; [| discriminate].
    destruct t; try discriminate. simplify_eq.
    split; [exact Hd |]. split; [| exact Hr].
    change (existsb is_awaiting
              (<[i := ProcessRunning o (processor_saves s workflow e) j]> (tasks w))
            = false).
    rewrite (existsb_insert is_awaiting (tasks w) i (ProcessRunning o e j)
               (ProcessRunning o (processor_saves s workflow e) j) Hi eq_refl eq_refl).
    exact Ha.
  - simplify_eq.
    exact (never_waited_frame _ _ (no_wait_handleSyncMessage_received _ _) H).
Qed.

(** The queue is attended in every world the engine reaches. *)
Lemma reachable_attended registry d w :
  reachable (init registry d) w -> attended w.
Proof.
  apply (reachable_invariant attended); [| left; reflexivity].
  apply (holds_step attended (fun _ => True)); auto.
  - apply attended_frame.
  - intros w1 _. unfold prepare_shift. destruct (events (eng w1)) as [| ev evs] eqn:He.
    + left. simpl. exact He.
    + right. left. simpl. rewrite existsb_app. simpl. apply orb_true_r.
  - intros p w1 _. right. left. simpl. rewrite existsb_app. simpl. apply orb_true_r.
  - intros w1 _. right. right. simpl. apply in_or_app. right. left. reflexivity.
  - intros w1 _ He. left. exact He.
  - apply trigger_attended.
  - intros i t w1 Hi H. destruct (is_preparing t) eqn:Ht; [exact I |].
    destruct H as [H | [H | H]]; [left; exact H | | right; right; exact H].
    right. left. simpl. rewrite (existsb_delete _ _ _ _ Hi Ht). exact H.
  - intros i t t' w1 Hi Ht Ht' H.
    destruct H as [H | [H | H]]; [left; exact H | | right; right; exact H].
    right. left. simpl. rewrite (existsb_insert _ _ _ _ _ Hi Ht Ht'). exact H.
Qed.

(** X12: no queued event is left behind. In every world the engine
    reaches, if [events] is not empty then the timer set by [trigger] is
    pending or a [prepare] call is suspended at one of its [await]s and
    will come back to the queue -- with one exception the code has: a
    [prepare] that was waiting for [executing] is thrown out when that
    operation is rejected, and the queue then waits for the next
    [dispatch]. [prepare] waits for [executing] on sqlite only: on any
    other database a non-empty queue always has its timer or its
    [prepare]. *)
Theorem queued_events_are_attended registry d w :
  reachable (init registry d) w ->
  attended w /\
  (db_dialect d <> sqlite ->
   events (eng w) <> [] ->
   existsb is_preparing (tasks w) = true).
Proof.
  intros Hw. pose proof (reachable_attended registry d w Hw) as Ha.
  split; [exact Ha |].
  intros Hd Hev.
  assert (Hn : db_dialect (db w) <> sqlite /\ never_waited w).
  { revert Hw.
    apply (reachable_invariant
             (fun w => db_dialect (db w) <> sqlite /\ never_waited w));
      [apply never_waited_step |].
    split; [exact Hd |]. split; [reflexivity | intros []]. }
  destruct Hn as (_ & _ & Hr).
  destruct Ha as [Ha | [Ha | Ha]]; [contradiction | exact Ha | contradiction].
Qed.

End Engine.

(** * Concrete runs

    The constants are taken as [QUEUEING = null] and [STARTED = 0]. *)

(** Two events fired one after the other: the first execution goes
    through [pending], the second is found by the poll; the operations
    of the dispatcher end one after the other and the engine is idle
    again, both rows deleted. *)
Example two_events_processed_in_turn :
  option_map (fun w => (executing (eng w), tasks w, db_executions (db w), settled w))
    (exec None (Some 0) sample_two_events sample_world) =
  Some (None, [], [],
        [ DispatchSettled 0 true;
          ProcessSettled (ByDispatcher 1) 1 true; DispatchSettled 1 true;
          ProcessSettled (ByDispatcher 2) 2 true; DispatchSettled 2 true;
          DispatchSettled 3 true ]).
Proof. vm_compute. reflexivity. Qed.

(** C1, at a concrete input: saving an enabled second version of key
    ["k1"] over a table holding the current first version. *)
Lemma one_current_workflow_per_key_witness :
  unique_current (db_workflows (db sample_world)) /\
  unique_current (db_workflows (db (save sample_new_version None sample_world))) /\
  db_workflows (db (save sample_new_version None sample_world)) =
    [demote sample_workflow; set_current (Some true) sample_new_version].
Proof.
  assert (H : unique_current (db_workflows (db sample_world))).
  { intros r1 r2 [<- | []] [<- | []] _ _ _. reflexivity. }
  split; [exact H |]. split.
  - exact (proj1 (one_current_workflow_per_key None (Some 0) sample_new_version None
                    sample_world H)).
  - vm_compute. reflexivity.
Defined.

(** C2 as stated fails: in the world reached by [sample_run] two
    [process] calls are active, the dispatcher's and the one started by
    the manual [trigger]. *)
Lemma two_process_calls_active :
  exists w,
    reachable None (Some 0) sample_world w /\
    active_processes w = 2%nat.
Proof.
  eexists. split.
  - exists sample_run. vm_compute. reflexivity.
  - vm_compute. reflexivity.
Qed.

(** C2 (amended), at the world reached by [sample_run]. *)
Lemma dispatcher_exclusion_witness :
  exists w,
    reachable None (Some 0) sample_world w /\
    exclusive w /\
    (length (List.filter is_dispatched_process (tasks w)) <= 1)%nat.
Proof.
  eexists.
  assert (H : reachable None (Some 0) sample_world
                (default sample_world (exec None (Some 0) sample_run sample_world))).
  { exists sample_run. vm_compute. reflexivity. }
  split; [exact H |].
  pose proof (dispatcher_exclusion None (Some 0) sample_registry sample_database _ H)
    as (H1 & H2 & _).
  split; [exact H1 | exact H2].
Defined.


(** C4, before the application has started. *)
Lemma trigger_ignored_witness :
  (ready (eng sample_world) = false \/
   (wf_enabled sample_workflow = false /\ manually no_options = false) \/
   is_nullish (CtxData 1) = true) /\
  (trigger sample_workflow (CtxData 1) no_options sample_world).1 = ReturnedVoid /\
  only_warned 1 sample_world (trigger sample_workflow (CtxData 1) no_options sample_world).2.
Proof.
  assert (H : ready (eng sample_world) = false \/
              (wf_enabled sample_workflow = false /\ manually no_options = false) \/
              is_nullish (CtxData 1) = true) by (left; reflexivity).
  split; [exact H |].
  exact (trigger_ignored sample_workflow (CtxData 1) no_options sample_world H).
Defined.


(** C7, with a trigger that refuses the event. *)
Lemma createExecution_discards_rejected_event_witness :
  triggers (eng sample_world) !! wf_type sample_workflow = Some (mkTrigger None) /\
  validateEvent_result refusing = Ok false /\
  db_sequelize (db sample_world) = Some 0%nat /\
  transaction_ok refusing = true /\
  commit_ok refusing = true /\
  (createExecution None (Some 0) refusing sample_workflow (CtxData 1) no_options
     sample_world).1 = Ok None /\
  db_executions (db (createExecution None (Some 0) refusing sample_workflow (CtxData 1)
                       no_options sample_world).2) = [].
Proof.
  assert (H1 : triggers (eng sample_world) !! wf_type sample_workflow = Some (mkTrigger None))
    by (vm_compute; reflexivity).
  split; [exact H1 |]. do 4 (split; [reflexivity |]).
  pose proof (createExecution_discards_rejected_event None (Some 0) refusing sample_workflow
                (CtxData 1) no_options sample_world (mkTrigger None) 0%nat
                H1 eq_refl eq_refl eq_refl eq_refl) as (Hr & Hrows & _).
  split; [exact Hr | exact Hrows].
Defined.

(** C8, with an insert that storage refuses. With a second event
    waiting behind the failed one, the failed event is dropped and
    [prepare] goes on with the second, which it takes off the queue and
    asks the execution for; with the queue empty, [prepare] hands over to
    [dispatch], which starts its next operation. *)
Lemma prepare_drops_failed_event_witness :
  let event := (sample_workflow, CtxData 1, no_options) in
  let next := (sample_workflow, CtxData 2, no_options) in
  let w0 := on_eng (with_ready true) sample_world in
  let w := on_eng (with_events [next]) w0 in
  (createExecution None (Some 0) failing event.1.1 event.1.2 event.2 w =
     (Err Rejected,
      (createExecution None (Some 0) failing event.1.1 event.1.2 event.2 w).2) /\
   exists w',
     run None (Some 0) (PrepareCreating event) (Answers failing) w = Some w' /\
     events (eng w') = [] /\
     tasks w' = [PrepareCreating next] /\
     outstanding w' = 1%nat) /\
  (createExecution None (Some 0) failing event.1.1 event.1.2 event.2 w0 =
     (Err Rejected,
      (createExecution None (Some 0) failing event.1.1 event.1.2 event.2 w0).2) /\
   exists w',
     run None (Some 0) (PrepareCreating event) (Answers failing) w0 = Some w' /\
     events (eng w') = [] /\
     executing (eng w') = Some 0%nat /\
     outstanding w' = 0%nat).
Proof.
  intros event next w0 w.
  assert (H : createExecution None (Some 0) failing event.1.1 event.1.2 event.2 w =
              (Err Rejected,
               (createExecution None (Some 0) failing event.1.1 event.1.2 event.2 w).2))
    by (vm_compute; reflexivity).
  assert (H0 : createExecution None (Some 0) failing event.1.1 event.1.2 event.2 w0 =
               (Err Rejected,
                (createExecution None (Some 0) failing event.1.1 event.1.2 event.2 w0).2))
    by (vm_compute; reflexivity).
  split; (split; [assumption |]).
  - destruct (prepare_drops_failed_event None (Some 0) event failing Rejected w _ H)
      as (w' & Hrun & _ & _ & Hout & _ & Hnext).
    exists w'. split; [exact Hrun |].
    change (events (eng w') = [] /\ eventsCount (eng w') = 0%nat /\
            tasks w' = [PrepareCreating next]) in Hnext.
    destruct Hnext as (Hev & _ & Ht).
    split; [exact Hev |]. split; [exact Ht |].
    rewrite Hout. reflexivity.
  - destruct (prepare_drops_failed_event None (Some 0) event failing Rejected w0 _ H0)
      as (w' & Hrun & _ & _ & Hout & _ & Hnext).
    exists w'. split; [exact Hrun |].
    change (events (eng w') = [] /\
            (executing (eng w') = Some 0%nat /\
             pending (eng w') = [] /\
             length (tasks w') = 1%nat)) in Hnext.
    destruct Hnext as (Hev & Hx & _).
    split; [exact Hev |]. split; [exact Hx |].
    rewrite Hout. reflexivity.
Defined.

(** C9 as stated fails: an execution that ended the Processor loop
    suspended, with status [0], in a workflow whose list holds [0], is
    not destroyed ([0 && ...] is falsy). *)
Lemma falsy_status_is_never_destroyed :
  configured (sample_execution (Some 0)) /\
  ~ destroy_called (ex_id (sample_execution (Some 0))) sample_world
      (process_ran None (Some 0) ByCaller (sample_execution (Some 0)) true sample_world).
Proof.
  split.
  - exists sample_workflow, (mkWorkflowOptions (Some [Some 1; Some 0])), [Some 1; Some 0].
    repeat split; try reflexivity. right. left. reflexivity.
  - intros (cs & Hcs & Hin). vm_compute in Hcs.
    destruct cs; [destruct Hin | discriminate].
Qed.

(** C10, on an execution that is still QUEUEING. *)
Lemma start_ignores_not_started_witness :
  ex_status (sample_execution None) <> Some 0 /\
  start None (Some 0) (sample_execution None) (sample_idle_world None) =
    sample_idle_world None.
Proof.
  assert (H : ex_status (sample_execution None) <> Some 0) by discriminate.
  split; [exact H |].
  exact (proj1 (start_ignores_not_started None (Some 0) (sample_execution None)
                  (sample_idle_world None) H)).
Defined.

(** * The sign-up form of the password authenticator *)

Lemma map_result_items users l out :
  Auth.map_result (Auth.with_uiSchema users) l = Ok out ->
  map Auth.item out = l /\
  Forall (fun i => exists f, users !! Auth.field (Auth.item i) = Some f /\
                             forall k, carried f i k) out.
Proof.
  revert out. induction l as [| x l IH]; intros out H; simpl in H.
  - simplify_eq. split; [reflexivity | constructor].
  - unfold Auth.with_uiSchema in H at 1.
    destruct (users !! Auth.field x) as [f |] eqn:Hx; [| discriminate].
    destruct (Auth.map_result (Auth.with_uiSchema users) l) as [ys |]; [| discriminate].
    simplify_eq. destruct (IH ys eq_refl) as [Hm Hf].
    split; [simpl; rewrite Hm; reflexivity |].
    constructor; [| exact Hf].
    exists f. split; [exact Hx |]. intros k. unfold carried.
    cbn [Auth.uiSchema Auth.item].
    case_bool_decide as Hk.
    + subst k. apply lookup_insert_eq.
    + etrans; [apply lookup_insert_ne; intros Heq; apply Hk; symmetry; exact Heq |].
      destruct (Auth.field_uiSchema f); [reflexivity | apply lookup_empty].
Qed.

Lemma filter_show_idem l :
  List.filter Auth.show (List.filter Auth.show l) = List.filter Auth.show l.
Proof.
  induction l as [| x l IH]; simpl; [reflexivity |].
  destruct (Auth.show x) eqn:Hx; simpl; rewrite ?Hx, IH; reflexivity.
Qed.

Lemma shown_items_spec signupForm :
  let shown := List.filter Auth.show (default [] signupForm) in
  Auth.shown_items signupForm =
    if existsb Auth.identifies shown then shown
    else Auth.mkSignupItem "username" true true :: shown.
Proof.
  intros shown. unfold Auth.shown_items. fold shown.
  destruct (existsb Auth.identifies shown) eqn:He.
  - assert (Hlen : bool_decide (length shown = 0%nat) = false).
    { destruct shown; [discriminate | reflexivity]. }
    rewrite Hlen. simpl. apply filter_show_idem.
  - rewrite andb_false_r. simpl. f_equal. apply filter_show_idem.
Qed.

(** X21: what the sign-up form of the password authenticator looks
    like. The entries handed to the client are the shown entries of the
    configured form, in their order; when none of them is a shown and
    required [username] or [email], a required [username] entry is put in
    front. Each entry carries the UI schema of its field -- the field of
    the [users] collection that the entry names: under every key other
    than [required] the entry's schema holds what the field's schema
    holds (nothing, when the field has no schema or not that key) --
    with [required] set to the entry's own setting, whatever the field's
    schema says. *)
Theorem getPublicOptions_form users signupForm out :
  Auth.getPublicOptions users signupForm = Ok out ->
  let shown := List.filter Auth.show (default [] signupForm) in
  map Auth.item out =
    (if existsb Auth.identifies shown then shown
     else Auth.mkSignupItem "username" true true :: shown) /\
  Forall (fun i =>
            exists f,
              users !! Auth.field (Auth.item i) = Some f /\
              Auth.uiSchema i !! "required"%string
                = Some (Auth.JBool (Auth.required (Auth.item i))) /\
              forall k, k <> "required"%string ->
                Auth.uiSchema i !! k = Auth.field_uiSchema f ≫= (.!! k)) out.
Proof.
  intros H shown. unfold Auth.getPublicOptions in H.
  apply map_result_items in H as [Hm Hf].
  rewrite Hm, shown_items_spec. split; [reflexivity |].
  eapply Forall_impl; [exact Hf |]. cbv beta.
  intros i (f & Hi & Hk). exists f. split; [exact Hi |]. split.
  - specialize (Hk "required"%string). unfold carried in Hk.
    rewrite bool_decide_eq_true_2 in Hk by reflexivity. exact Hk.
  - intros k Hne. specialize (Hk k). unfold carried in Hk.
    rewrite bool_decide_eq_false_2 in Hk by exact Hne. exact Hk.
Qed.

(** X22: whatever is configured, the sign-up form that is handed out
    shows only entries meant to be shown and always asks for a required
    [username] or [email]. *)
Theorem getPublicOptions_asks_for_identity users signupForm out :
  Auth.getPublicOptions users signupForm = Ok out ->
  Forall (fun i => Auth.show (Auth.item i) = true) out /\
  Exists (fun i => (Auth.field (Auth.item i) = "username"%string \/
                    Auth.field (Auth.item i) = "email"%string) /\
                   Auth.required (Auth.item i) = true) out.
Proof.
  intros H. unfold Auth.getPublicOptions in H.
  apply map_result_items in H as [Hm _].
  rewrite shown_items_spec in Hm. cbv zeta in Hm.
  set (shown := List.filter Auth.show (default [] signupForm)) in *.
  assert (Hshown : Forall (fun i => Auth.show i = true) shown).
  { apply Forall_forall. intros x Hx. apply list_elem_of_In, List.filter_In in Hx.
    tauto. }
  assert (Hall : Forall (fun i => Auth.show i = true) (map Auth.item out)).
  { rewrite Hm. destruct (existsb _ _); [exact Hshown |].
    constructor; [reflexivity | exact Hshown]. }
  assert (Hex : Exists (fun i => (Auth.field i = "username"%string \/
                                  Auth.field i = "email"%string) /\
                                 Auth.required i = true) (map Auth.item out)).
  { rewrite Hm. destruct (existsb Auth.identifies shown) eqn:He.
    - apply existsb_exists in He as (x & Hx & Hi).
      apply Exists_exists. exists x. split; [apply list_elem_of_In; exact Hx |].
      unfold Auth.identifies in Hi.
      apply andb_true_iff in Hi as [Hi Hr]. apply andb_true_iff in Hi as [Hi _].
      apply orb_true_iff in Hi. rewrite !bool_decide_eq_true in Hi. tauto.
    - apply Exists_cons_hd. simpl. auto. }
  split.
  - clear -Hall. induction out; simpl in *; constructor;
      inversion Hall; subst; auto.
  - clear -Hex. induction out; simpl in *; inversion Hex; subst;
      [apply Exists_cons_hd; assumption | apply Exists_cons_tl; auto].
Qed.

(** X23: [getPublicOptions] throws exactly when an entry it is about to
    hand out -- a shown entry of the configured form, or the [username]
    entry it adds -- names a field the [users] collection does not
    have. *)
Theorem getPublicOptions_throws_iff users signupForm :
  Auth.getPublicOptions users signupForm = Err TypeError <->
  exists i, In i (Auth.shown_items signupForm) /\ users !! Auth.field i = None.
Proof.
  unfold Auth.getPublicOptions.
  induction (Auth.shown_items signupForm) as [| x l IH]; simpl.
  - split; [discriminate | intros (i & [] & _)].
  - unfold Auth.with_uiSchema at 1.
    destruct (users !! Auth.field x) as [f |] eqn:Hx.
    + destruct (Auth.map_result (Auth.with_uiSchema users) l) as [ys | e] eqn:Hl.
      * split; [discriminate |].
        intros (i & [<- | Hi] & Hn); [congruence |].
        assert (Hf : @Ok (list Auth.FormItem) ys = Err TypeError)
          by (apply IH; eauto).
        discriminate.
      * split.
        -- intros He. assert (Hf : @Err (list Auth.FormItem) e = Err TypeError)
             by congruence.
           apply IH in Hf as (i & Hi & Hn). eauto.
        -- intros (i & [<- | Hi] & Hn); [congruence |].
           assert (Hf : @Err (list Auth.FormItem) e = Err TypeError)
             by (apply IH; eauto).
           congruence.
    + split; [intros _; exists x; auto | reflexivity].
Qed.

(** * The further properties at concrete inputs *)

(** X1, for an accepted event of the sample workflow. *)
Lemma createExecution_creates_and_counts_witness :
  exists instance,
    (createExecution None (Some 0) accepting sample_workflow (CtxData 1) no_options
       sample_world).1 =
      Ok (Some (set_workflow instance
                  (mkExecution 1 1 "k1" "uuid" (CtxData 1) None None))) /\
    wf_executed instance = 1 /\
    wf_allExecuted instance = 1.
Proof.
  assert (H1 : triggers (eng sample_world) !! wf_type sample_workflow = Some (mkTrigger None))
    by (vm_compute; reflexivity).
  destruct (createExecution_creates_and_counts None (Some 0) accepting sample_workflow
              (CtxData 1) no_options sample_world (mkTrigger None) 0%nat sample_workflow
              H1 eq_refl eq_refl eq_refl eq_refl eq_refl eq_refl eq_refl eq_refl eq_refl
              eq_refl) as (instance & Hr & _ & He & Ha & _).
  exists instance. split; [exact Hr |]. split; [exact He | exact Ha].
Defined.

(** X2, with the caller's transaction on the main connection. *)
Lemma createExecution_leaves_callers_transaction_witness :
  exists cs,
    db_calls (db (createExecution None (Some 0) accepting sample_workflow (CtxData 1)
                    transactional_options sample_world).2) =
      db_calls (db sample_world) ++ cs /\
    Forall (fun c => under sample_transaction c = true) cs.
Proof.
  exact (createExecution_leaves_callers_transaction None (Some 0) accepting sample_workflow
           (CtxData 1) transactional_options sample_world 0%nat sample_transaction
           eq_refl eq_refl eq_refl).
Defined.

(** X3, with an insert that storage refuses. *)
Lemma createExecution_rolls_back_failed_insert_witness :
  (createExecution None (Some 0) failing sample_workflow (CtxData 1) no_options
     sample_world).1 = Err Rejected /\
  db_calls (db (createExecution None (Some 0) failing sample_workflow (CtxData 1) no_options
                  sample_world).2) =
    [ Begin (mkTransaction 0 0); ValidateEvent 1 (Some (mkTransaction 0 0)) true;
      CreateExecution 1 None (Some (mkTransaction 0 0)); Rollback (mkTransaction 0 0) ].
Proof.
  assert (H1 : triggers (eng sample_world) !! wf_type sample_workflow = Some (mkTrigger None))
    by (vm_compute; reflexivity).
  assert (H2 : tx_sequelize <$> transaction no_options <> Some 0%nat) by discriminate.
  pose proof (createExecution_rolls_back_failed_insert None (Some 0) failing sample_workflow
                (CtxData 1) no_options sample_world (mkTrigger None) 0%nat
                H1 eq_refl H2 eq_refl eq_refl eq_refl) as (Hr & Hc & _).
  split; [exact Hr | exact Hc].
Defined.

(** X4, with storage failing to increment the counters. *)
Lemma createExecution_leaves_transaction_open_witness :
  exists cs,
    db_calls (db (createExecution None (Some 0) stalling sample_workflow (CtxData 1)
                    no_options sample_world).2) =
      db_calls (db sample_world) ++ Begin (mkTransaction 0 0) :: cs /\
    ~ In (Rollback (mkTransaction 0 0)) cs.
Proof.
  assert (H2 : tx_sequelize <$> transaction no_options <> Some 0%nat) by discriminate.
  assert (H3 : (createExecution None (Some 0) stalling sample_workflow (CtxData 1)
                  no_options sample_world).1 = Err Rejected) by (vm_compute; reflexivity).
  destruct (createExecution_leaves_transaction_open None (Some 0) stalling sample_workflow
              (CtxData 1) no_options sample_world 0%nat Rejected
              eq_refl H2 eq_refl eq_refl H3) as (cs & Hc & Hn & _).
  exists cs. split; [exact Hc | exact Hn].
Defined.

(** X5, for the first event on a started, idle engine. *)
Lemma trigger_queues_event_witness :
  events (eng (trigger sample_workflow (CtxData 1) no_options sample_started_world).2) =
    [(sample_workflow, CtxData 1, no_options)] /\
  tasks (trigger sample_workflow (CtxData 1) no_options sample_started_world).2 =
    [PrepareTimer].
Proof.
  assert (H1 : triggers (eng sample_started_world) !! wf_type sample_workflow
               = Some (mkTrigger None)) by (vm_compute; reflexivity).
  pose proof (trigger_queues_event sample_workflow (CtxData 1) no_options
                sample_started_world (mkTrigger None)
                eq_refl eq_refl eq_refl eq_refl H1 eq_refl) as (_ & He & _ & Ht & _).
  split; [exact He | exact Ht].
Defined.

(** X6, for a workflow of an unregistered type fired by a trigger. *)
Lemma trigger_unregistered_type_witness :
  trigger sample_unknown_workflow (CtxData 1) no_options sample_started_world =
    (Thrown InvalidTriggerType, sample_started_world).
Proof.
  assert (H1 : triggers (eng sample_started_world) !! wf_type sample_unknown_workflow = None)
    by (vm_compute; reflexivity).
  exact (proj1 (trigger_unregistered_type None (Some 0) sample_unknown_workflow (CtxData 1)
                  no_options sample_started_world eq_refl eq_refl H1) eq_refl eq_refl).
Defined.

(** X7, with a trigger that refuses the event. *)
Lemma triggerSync_rejects_on_refused_event_witness :
  exists w',
    run None (Some 0) (SyncCreating sample_workflow (CtxData 1) manual_options)
      (Answers refusing) sample_started_world = Some w' /\
    settled w' = [TriggerSyncRejected 1].
Proof.
  assert (H1 : triggers (eng sample_started_world) !! wf_type sample_workflow
               = Some (mkTrigger None)) by (vm_compute; reflexivity).
  destruct (triggerSync_rejects_on_refused_event None (Some 0) refusing sample_workflow
              (CtxData 1) manual_options sample_started_world (mkTrigger None) 0%nat
              H1 eq_refl eq_refl eq_refl eq_refl) as (w' & Hrun & Hs & _).
  exists w'. split; [exact Hrun | exact Hs].
Defined.

(** X8, for a manual event that asks for a deferred execution. *)
Lemma triggerSync_ignores_deferred_witness :
  trigger sample_workflow (CtxData 1) deferred_manual_options sample_started_world =
    (ReturnedPromise,
     suspend (SyncCreating sample_workflow (CtxData 1) manual_options)
       sample_started_world).
Proof.
  exact (proj1 (triggerSync_ignores_deferred None (Some 0) sample_workflow (CtxData 1)
                  deferred_manual_options sample_started_world eq_refl eq_refl eq_refl)).
Defined.


(** X11, with two events in the queue. *)
Lemma eventsCount_tracks_queue_witness :
  exists w,
    reachable None (Some 0) sample_world w /\
    length (events (eng w)) = 2%nat /\
    eventsCount (eng w) = length (events (eng w)).
Proof.
  eexists.
  assert (H : reachable None (Some 0) sample_world
                (default sample_world (exec None (Some 0) sample_queued sample_world)))
    by (exists sample_queued; vm_compute; reflexivity).
  split; [exact H |]. split; [vm_compute; reflexivity |].
  exact (eventsCount_tracks_queue None (Some 0) sample_registry sample_database _ H).
Defined.

(** X12, with two events in the queue and the timer pending. *)
Lemma queued_events_are_attended_witness :
  exists w,
    reachable None (Some 0) sample_world w /\
    length (events (eng w)) = 2%nat /\
    tasks w = [PrepareTimer] /\
    existsb is_preparing (tasks w) = true.
Proof.
  eexists.
  assert (H : reachable None (Some 0) sample_world
                (default sample_world (exec None (Some 0) sample_queued sample_world)))
    by (exists sample_queued; vm_compute; reflexivity).
  split; [exact H |]. split; [vm_compute; reflexivity |].
  split; [vm_compute; reflexivity |].
  assert (Hd : db_dialect sample_database <> sqlite) by discriminate.
  assert (He : events (eng (default sample_world
                              (exec None (Some 0) sample_queued sample_world))) <> [])
    by (vm_compute; discriminate).
  exact (proj2 (queued_events_are_attended None (Some 0) sample_registry sample_database
                  _ H) Hd He).
Defined.

(** X13, before the application has started. *)
Lemma stopped_engine_stays_idle_witness :
  exists w',
    exec None (Some 0) sample_stopped_run sample_world = Some w' /\
    length (pending (eng w')) = 2%nat /\
    ready (eng w') = false /\
    executing (eng w') = None /\
    omap in_flight (tasks w') = [].
Proof.
  eexists.
  assert (H : exec None (Some 0) sample_stopped_run sample_world =
              Some (default sample_world
                      (exec None (Some 0) sample_stopped_run sample_world)))
    by (vm_compute; reflexivity).
  split; [exact H |]. split; [vm_compute; reflexivity |].
  exact (stopped_engine_stays_idle None (Some 0) sample_stopped_run sample_world _
           eq_refl eq_refl eq_refl eq_refl H).
Defined.



(** X16, for the sample workflow. *)
Lemma afterStart_loaded_caches_enabled_witness :
  exists r',
    In r' (db_workflows (db sample_world)) /\
    wf_enabled r' = true /\
    wf_id r' = 1 /\
    enabledCache (eng (afterStart_loaded None (Some 0) sample_world)) !! 1 = Some r'.
Proof.
  assert (H1 : In sample_workflow (db_workflows (db sample_world)))
    by (left; reflexivity).
  assert (H2 : is_Some (triggers (eng sample_world) !! wf_type sample_workflow))
    by (exists (mkTrigger None); vm_compute; reflexivity).
  exact (afterStart_loaded_caches_enabled None (Some 0) sample_world sample_workflow
           H1 eq_refl H2).
Defined.

(** X18: an enabled second version of key ["k1"] is saved. *)
Lemma save_makes_enabled_current_witness :
  In (set_current (Some true) sample_new_version)
    (db_workflows (db (save sample_new_version None sample_world))) /\
  (In (demote sample_workflow)
     (db_workflows (db (save sample_new_version None sample_world))) ->
   wf_key (demote sample_workflow) = wf_key sample_new_version ->
   wf_current (demote sample_workflow) = Some true ->
   wf_id (demote sample_workflow) = wf_id sample_new_version).
Proof.
  assert (H : unique_current (db_workflows (db sample_world))).
  { intros r1 r2 [<- | []] [<- | []] _ _ _. reflexivity. }
  exact (save_makes_enabled_current sample_new_version None sample_world
           (demote sample_workflow) H eq_refl).
Defined.

(** X19: after that save, the second version is the enabled row of its
    key. *)
Lemma one_enabled_version_per_key_witness :
  let w := save sample_new_version None sample_world in
  let r := set_current (Some true) sample_new_version in
  db_workflows (db w) = [demote sample_workflow; r] /\
  wf_enabled (demote sample_workflow) = false /\
  wf_enabled r = true /\
  wf_id r = wf_id r.
Proof.
  intros w r.
  assert (Hu : unique_current (db_workflows (db sample_world))).
  { intros r1 r2 [<- | []] [<- | []] _ _ _. reflexivity. }
  assert (Hc : enabled_current (db_workflows (db sample_world))).
  { intros r0 [<- | []] _. reflexivity. }
  assert (Hw : reachable None (Some 0) sample_world w)
    by (exists [CallSave sample_new_version None]; reflexivity).
  assert (Hr : In r (db_workflows (db w))) by (right; left; reflexivity).
  do 3 (split; [reflexivity |]).
  exact (one_enabled_version_per_key None (Some 0) sample_world w r r
           Hu Hc Hw Hr Hr eq_refl eq_refl eq_refl).
Defined.

(** X20, for an event of the sample workflow. *)
Lemma accepted_event_goes_straight_to_process_witness :
  exists w1,
    exec None (Some 0)
      [CallTrigger sample_workflow (CtxData 1) no_options; Run 0 Resolves]
      sample_started_world = Some w1 /\
    tasks w1 = [PrepareCreating (sample_workflow, CtxData 1, no_options)] /\
    events (eng w1) = [] /\
    exists w3,
      step None (Some 0) (Run 0 (Answers accepting)) w1 = Some w3 /\
      executing (eng w3) = Some 0%nat /\
      pending (eng w3) = [].
Proof.
  assert (H1 : triggers (eng sample_started_world) !! wf_type sample_workflow
               = Some (mkTrigger None)) by (vm_compute; reflexivity).
  destruct (accepted_event_goes_straight_to_process None (Some 0) sample_workflow
              (CtxData 1) no_options sample_started_world (mkTrigger None) accepting
              eq_refl eq_refl eq_refl eq_refl eq_refl eq_refl eq_refl eq_refl H1 eq_refl)
    as (w1 & Hexec & Ht & He & Hnext).
  exists w1. split; [exact Hexec |]. split; [exact Ht |]. split; [exact He |].
  assert (Hc : createExecution None (Some 0) accepting sample_workflow (CtxData 1)
                 (without_transaction no_options)
                 (with_tasks (tasks sample_started_world) w1) =
               (Ok (Some (default (sample_execution None)
                            (match (createExecution None (Some 0) accepting sample_workflow
                                      (CtxData 1) (without_transaction no_options)
                                      (with_tasks (tasks sample_started_world) w1)).1 with
                             | Ok x => x
                             | Err _ => None
                             end))),
                (createExecution None (Some 0) accepting sample_workflow (CtxData 1)
                   (without_transaction no_options)
                   (with_tasks (tasks sample_started_world) w1)).2)).
  { injection Hexec as <-. vm_compute. reflexivity. }
  destruct (Hnext _ _ Hc) as (w3 & Hstep & Hx & Hp & _).
  exists w3. split; [exact Hstep |]. split; [exact Hx | exact Hp].
Defined.

(** X21: the form asks for a nickname only, so a required
    [username] entry is put in front; the hidden entry is left out. The
    [username] entry carries the title of its field and is required,
    though the field's own schema says it is not. *)
Lemma getPublicOptions_form_witness :
  exists out,
    Auth.getPublicOptions sample_users (Some sample_form) = Ok out /\
    map Auth.item out =
      [ Auth.mkSignupItem "username" true true; Auth.mkSignupItem "nickname" true false ] /\
    Forall (fun i =>
              exists f,
                sample_users !! Auth.field (Auth.item i) = Some f /\
                Auth.uiSchema i !! "required"%string
                  = Some (Auth.JBool (Auth.required (Auth.item i))) /\
                forall k, k <> "required"%string ->
                  Auth.uiSchema i !! k = Auth.field_uiSchema f ≫= (.!! k)) out.
Proof.
  eexists.
  assert (H : Auth.getPublicOptions sample_users (Some sample_form) =
              Ok (match Auth.getPublicOptions sample_users (Some sample_form) with
                  | Ok out => out
                  | Err _ => []
                  end)) by (vm_compute; reflexivity).
  split; [exact H |].
  exact (getPublicOptions_form sample_users (Some sample_form) _ H).
Defined.

(** X22, on the same form. *)
Lemma getPublicOptions_asks_for_identity_witness :
  exists out,
    Auth.getPublicOptions sample_users (Some sample_form) = Ok out /\
    Forall (fun i => Auth.show (Auth.item i) = true) out.
Proof.
  eexists.
  assert (H : Auth.getPublicOptions sample_users (Some sample_form) =
              Ok (match Auth.getPublicOptions sample_users (Some sample_form) with
                  | Ok out => out
                  | Err _ => []
                  end)) by (vm_compute; reflexivity).
  split; [exact H |].
  exact (proj1 (getPublicOptions_asks_for_identity sample_users (Some sample_form) _ H)).
Defined.
